(** * The TODO application core: entity, domain utilities and service

    A shallow embedding of the model layer of the TypeScript TODO
    application (the [Todo] entity and its validator, [TodoModelUtils]
    and the stateful [TodoService]) together with the properties of its
    specification that were checked against it.

    Conventions of the embedding

    - JavaScript strings are Rocq [string]s: sequences of code units
      below 256, read as Latin-1.  [trim] removes the ECMAScript white
      space of that range and [toLowerCase] maps the upper-case letters
      of that range.
    - String enums ([TodoStatus], [TodoPriority]) are the strings they
      are at run time; the validator tests exactly that membership.
    - A [Date] is its epoch value in milliseconds, or the invalid date.
      A due date that arrives as an ISO string is represented by the
      date it parses to.
    - An optional property is an [option]; in a partial update a key can
      also be present and hold [undefined], hence [option (option A)].
    - The service is a state/exception monad over a [World]: the
      in-memory collection, the two callback slots, the durable store,
      the platform clock and id source (both oracles, read in order) and
      the trace of observable effects.  State changes made before an
      exception is thrown stay, as in JavaScript.
    - The two callbacks belong to the caller: a call is recorded in the
      trace and is taken to return normally. *)

From Stdlib Require Import String Ascii List ZArith Lia Bool Arith.
Import ListNotations.
Open Scope string_scope.

(* ================================================================= *)
(** ** Strings *)

Module JsString.

(** White space and line terminators of ECMAScript below 256:
    TAB, LF, VT, FF, CR, SP and NBSP. *)
Definition is_space (c : ascii) : bool :=
  let n := nat_of_ascii c in
  (Nat.leb 9 n && Nat.leb n 13) || Nat.eqb n 32 || Nat.eqb n 160.

Fixpoint trimStart (s : string) : string :=
  match s with
  | EmptyString => EmptyString
  | String c s' => if is_space c then trimStart s' else s
  end.

Fixpoint trimEnd (s : string) : string :=
  match s with
  | EmptyString => EmptyString
  | String c s' =>
      match trimEnd s' with
      | EmptyString => if is_space c then EmptyString else String c EmptyString
      | r => String c r
      end
  end.

Definition trim (s : string) : string := trimEnd (trimStart s).

(** Upper-case letters below 256: A-Z, and the Latin-1 letters
    192-214 and 216-222; each maps 32 positions up. *)
Definition lower_char (c : ascii) : ascii :=
  let n := nat_of_ascii c in
  if (Nat.leb 65 n && Nat.leb n 90)
     || (Nat.leb 192 n && Nat.leb n 214)
     || (Nat.leb 216 n && Nat.leb n 222)
  then ascii_of_nat (n + 32) else c.

Fixpoint toLowerCase (s : string) : string :=
  match s with
  | EmptyString => EmptyString
  | String c s' => String (lower_char c) (toLowerCase s')
  end.

(** Truthiness of a string value: every string but the empty one. *)
Definition truthy (s : string) : bool := negb (s =? "").

(** [Array.prototype.join]. *)
Definition join (sep : string) (l : list string) : string :=
  String.concat sep l.

(** [Array.prototype.includes] on strings. *)
Definition includes (l : list string) (s : string) : bool :=
  existsb (String.eqb s) l.

(** [[...new Set(l)]]: first occurrences, in order. *)
Fixpoint dedupe_from (seen : list string) (l : list string) : list string :=
  match l with
  | [] => []
  | x :: r => if includes seen x then dedupe_from seen r
              else x :: dedupe_from (x :: seen) r
  end.

Definition dedupe (l : list string) : list string := dedupe_from [] l.

(** A string of [n] copies of [c], for inputs of a given length. *)
Fixpoint replicate (n : nat) (c : ascii) : string :=
  match n with
  | O => EmptyString
  | S k => String c (replicate k c)
  end.

End JsString.

(* ================================================================= *)
(** ** Dates *)

Inductive Date : Type :=
| Time (ms : Z)
| InvalidDate.

(** [a < b] on dates compares the epoch values; a comparison with the
    invalid date (NaN) is false. *)
Definition Date_lt (a b : Date) : bool :=
  match a, b with
  | Time x, Time y => (x <? y)%Z
  | _, _ => false
  end.

Definition Date_gt (a b : Date) : bool := Date_lt b a.

(** [isNaN(d.getTime())]. *)
Definition Date_isNaN (d : Date) : bool :=
  match d with Time _ => false | InvalidDate => true end.

(** [Date.prototype.toJSON] followed by [JSON.parse] and the truthiness
    test every reader applies: an invalid date is serialised as [null]. *)
Definition Date_toJSON (d : Date) : option Date :=
  match d with Time ms => Some (Time ms) | InvalidDate => None end.

(* ================================================================= *)
(** ** Enumerations and constants *)

Module TodoStatus.
Definition PENDING : string := "pending".
Definition COMPLETED : string := "completed".
Definition ARCHIVED : string := "archived".
(** [Object.values(TodoStatus)]. *)
Definition values : list string := [PENDING; COMPLETED; ARCHIVED].
End TodoStatus.

Module TodoPriority.
Definition LOW : string := "low".
Definition MEDIUM : string := "medium".
Definition HIGH : string := "high".
Definition CRITICAL : string := "critical".
(** [Object.values(TodoPriority)]. *)
Definition values : list string := [LOW; MEDIUM; HIGH; CRITICAL].
End TodoPriority.

Module TodoConstants.
Definition MAX_TEXT_LENGTH : nat := 500.
Definition MAX_DESCRIPTION_LENGTH : nat := 1000.
Definition LOCAL_STORAGE_KEY : string := "todos".
Definition BACKUP_KEY : string := "todos_backup".
Definition CURRENT_VERSION : string := "1.0".
End TodoConstants.

Inductive TodoErrorCodes : Type :=
| VALIDATION_FAILED
| TODO_NOT_FOUND
| STORAGE_ERROR
| INVALID_DATA
| PERMISSION_DENIED
| NETWORK_ERROR.

(** What a [throw] carries: a plain [Error] (also standing for the
    built-in [SyntaxError] of [JSON.parse]), or a [TodoError] with its
    code, message and creation time. *)
Inductive Exn : Type :=
| Error (message : string)
| TodoError (code : TodoErrorCodes) (message : string) (timestamp : Date).

(* ================================================================= *)
(** ** Data model *)

(** [class Todo]: the stored fields.  The three computed properties are
    getters, defined below. *)
Record Todo : Type := mkTodo {
  id : string;
  createdAt : Date;
  updatedAt : Date;
  text : string;
  description : option string;
  complete : bool;
  status : string;
  priority : string;
  dueDate : option Date;
  tags : list string
}.

(** [interface ITodoData], as the constructor reads it: every property
    may be missing. *)
Record ITodoData : Type := mkData {
  d_text : option string;
  d_description : option string;
  d_complete : option bool;
  d_status : option string;
  d_priority : option string;
  d_dueDate : option Date;
  d_tags : option (list string)
}.

(** [interface ITodoUpdate = Partial<ITodoContent>]: [None] is an absent
    key, [Some None] a key holding [undefined]. *)
Record ITodoUpdate : Type := mkUpdate {
  u_text : option (option string);
  u_description : option (option string);
  u_complete : option (option bool);
  u_status : option (option string);
  u_priority : option (option string);
  u_dueDate : option (option Date);
  u_tags : option (option (list string))
}.

Definition no_update : ITodoUpdate :=
  mkUpdate None None None None None None None.

Record ITodoValidation : Type := mkValidation {
  isValid : bool;
  errors : list string;
  warnings : list string
}.

(** The plain record [JSON.stringify] writes for one item and
    [JSON.parse] reads back: the output of [Todo.toJSON] with dates as
    ISO strings and [undefined] properties left out.  The content
    properties are exactly what the constructor reads from it. *)
Record TodoJSON : Type := mkJSON {
  j_id : option string;
  j_createdAt : option Date;
  j_updatedAt : option Date;
  j_data : ITodoData;
  j_isOverdue : option bool;
  j_isPending : option bool;
  j_isCompleted : option bool
}.

(** The export snapshot [{version, timestamp, todos}]. *)
Record Snapshot : Type := mkSnapshot {
  version : string;
  timestamp : Date;
  snap_todos : list TodoJSON
}.

(** The argument of [importTodos] after [JSON.parse] and the shape test
    [!importData.todos || !Array.isArray(importData.todos)]. *)
Inductive Payload : Type :=
| Unparseable                          (* JSON.parse, or reading [.todos], throws *)
| NoTodosArray                         (* parsed; no [todos] array *)
| TodosArray (entries : list TodoJSON) (* parsed; [todos] is an array *).

(* ================================================================= *)
(** ** The world of the service *)

(** [localStorage]: the two keys the service uses, and whether the
    platform refuses writes (quota exceeded, storage disabled), in which
    case [setItem] throws. *)
Record Storage : Type := mkStorage {
  primary : option (list TodoJSON);
  backup : option Snapshot;
  refuses_writes : bool
}.

Inductive Event : Type :=
| SetItem (key : string)                       (* a successful storage write *)
| ListChanged (todos : list Todo)              (* onTodoListChanged(copy) *)
| Operation (todo : Todo) (operation : string) (* onTodoOperation(todo, op) *)
| ConsoleWarn
| ConsoleError.

Record World : Type := mkWorld {
  todos : list Todo;              (* this.todos *)
  onTodoListChanged : bool;       (* a change-listener is bound *)
  onTodoOperation : bool;         (* an operation-listener is bound *)
  localStorage : Storage;
  clock : nat -> Z;               (* the i-th reading of the clock *)
  ticks : nat;                    (* readings taken so far *)
  random_ids : nat -> string;     (* the i-th generated identifier *)
  drawn : nat;                    (* identifiers generated so far *)
  trace : list Event              (* observable effects, newest first *)
}.

Definition set_todos (l : list Todo) (w : World) : World :=
  mkWorld l (onTodoListChanged w) (onTodoOperation w) (localStorage w)
          (clock w) (ticks w) (random_ids w) (drawn w) (trace w).

Definition set_storage (s : Storage) (w : World) : World :=
  mkWorld (todos w) (onTodoListChanged w) (onTodoOperation w) s
          (clock w) (ticks w) (random_ids w) (drawn w) (trace w).

Definition emit (e : Event) (w : World) : World :=
  mkWorld (todos w) (onTodoListChanged w) (onTodoOperation w) (localStorage w)
          (clock w) (ticks w) (random_ids w) (drawn w) (e :: trace w).

Definition tick (w : World) : World :=
  mkWorld (todos w) (onTodoListChanged w) (onTodoOperation w) (localStorage w)
          (clock w) (S (ticks w)) (random_ids w) (drawn w) (trace w).

Definition draw (w : World) : World :=
  mkWorld (todos w) (onTodoListChanged w) (onTodoOperation w) (localStorage w)
          (clock w) (ticks w) (random_ids w) (S (drawn w)) (trace w).

(* ================================================================= *)
(** ** The monad of effects *)

Inductive Outcome (A : Type) : Type :=
| Return (a : A)
| Throw (e : Exn).

Arguments Return {A} a.
Arguments Throw {A} e.

Definition M (A : Type) : Type := World -> Outcome A * World.

Definition ret {A} (a : A) : M A := fun w => (Return a, w).

Definition throw {A} (e : Exn) : M A := fun w => (Throw e, w).

Definition bind {A B} (m : M A) (k : A -> M B) : M B :=
  fun w => match m w with
           | (Return a, w') => k a w'
           | (Throw e, w') => (Throw e, w')
           end.

(** [try { m } catch (e) { h e }]. *)
Definition try_catch {A} (m : M A) (h : Exn -> M A) : M A :=
  fun w => match m w with
           | (Return a, w') => (Return a, w')
           | (Throw e, w') => h e w'
           end.

Definition get {A} (f : World -> A) : M A := fun w => (Return (f w), w).

Definition modify (f : World -> World) : M unit := fun w => (Return tt, f w).

Declare Scope js_scope.
Delimit Scope js_scope with js.
Notation "x <- m ;; k" := (bind m (fun x => k))
  (at level 61, m at next level, right associativity) : js_scope.
Notation "m ;; k" := (bind m (fun _ => k))
  (at level 61, right associativity) : js_scope.
Open Scope js_scope.

(** [for (const x of l) { f x }] collecting results: [Array.map] with an
    effectful callback; an exception ends the loop. *)
Fixpoint mapM {A B} (f : A -> M B) (l : list A) : M (list B) :=
  match l with
  | [] => ret []
  | x :: r => y <- f x ;; ys <- mapM f r ;; ret (y :: ys)
  end.

(** [Array.forEach] with an effectful callback. *)
Fixpoint forEach {A} (f : A -> M unit) (l : list A) : M unit :=
  match l with
  | [] => ret tt
  | x :: r => f x ;; forEach f r
  end.

(** [new Date()]: the next reading of the clock. *)
Definition new_Date : M Date :=
  fun w => (Return (Time (clock w (ticks w))), tick w).

(** [new TodoError(code, message)] reads the clock for its timestamp. *)
Definition new_TodoError (code : TodoErrorCodes) (message : string) : M Exn :=
  ts <- new_Date ;; ret (TodoError code message ts).

Definition throw_TodoError {A} (code : TodoErrorCodes) (message : string) : M A :=
  e <- new_TodoError code message ;; throw e.

(* ================================================================= *)
(** ** Entity and validator ([class Todo]) *)

(** Truthiness of an optional string property. *)
Definition truthy_opt (o : option string) : bool :=
  match o with
  | Some s => JsString.truthy s
  | None => false
  end.

(** [tag => tag.trim().toLowerCase()], then [[...new Set(...)]]. *)
Definition normalize_tags (l : list string) : list string :=
  JsString.dedupe (map (fun tag => JsString.toLowerCase (JsString.trim tag)) l).

(** [get isOverdue]: reads the clock only when a due date is set. *)
Definition isOverdue (t : Todo) : M bool :=
  match dueDate t with
  | None => ret false
  | Some d => now <- new_Date ;; ret (Date_gt now d && negb (complete t))
  end.

Definition isPending (t : Todo) : bool :=
  (status t =? TodoStatus.PENDING) && negb (complete t).

Definition isCompleted (t : Todo) : bool :=
  complete t && (status t =? TodoStatus.COMPLETED).

Module Messages.
Definition text_required : string := "Text is required and cannot be empty".
Definition text_too_long : string := "Text cannot exceed 500 characters".
Definition description_too_long : string :=
  "Description cannot exceed 1000 characters".
Definition due_date_past : string := "Due date is in the past".
Definition invalid_priority : string := "Invalid priority value".
Definition invalid_status : string := "Invalid status value".
End Messages.

(** The five rules of [Todo.validateData], each as the test the source
    writes. *)
Definition text_missing (data : ITodoData) : bool :=
  match d_text data with
  | Some s => negb (JsString.truthy s)
              || Nat.eqb (String.length (JsString.trim s)) 0
  | None => true
  end.

Definition text_too_long (data : ITodoData) : bool :=
  match d_text data with
  | Some s => JsString.truthy s
              && Nat.ltb 500 (String.length (JsString.trim s))
  | None => false
  end.

Definition description_too_long (data : ITodoData) : bool :=
  match d_description data with
  | Some s => JsString.truthy s
              && Nat.ltb 1000 (String.length (JsString.trim s))
  | None => false
  end.

Definition invalid_priority (data : ITodoData) : bool :=
  match d_priority data with
  | Some p => JsString.truthy p
              && negb (JsString.includes TodoPriority.values p)
  | None => false
  end.

Definition invalid_status (data : ITodoData) : bool :=
  match d_status data with
  | Some s => JsString.truthy s
              && negb (JsString.includes TodoStatus.values s)
  | None => false
  end.

Definition push_if (b : bool) (msg : string) (l : list string) : list string :=
  if b then l ++ [msg] else l.

(** [Todo.validateData]: every rule is tested and every failure pushed;
    the clock is read for the due-date warning when a due date is given. *)
Definition validateData (data : ITodoData) : M ITodoValidation :=
  let errors := [] in
  let errors := push_if (text_missing data) Messages.text_required errors in
  let errors := push_if (text_too_long data) Messages.text_too_long errors in
  let errors := push_if (description_too_long data)
                        Messages.description_too_long errors in
  warnings <- match d_dueDate data with
              | Some d => now <- new_Date ;;
                          ret (push_if (Date_lt d now) Messages.due_date_past [])
              | None => ret []
              end ;;
  let errors := push_if (invalid_priority data) Messages.invalid_priority errors in
  let errors := push_if (invalid_status data) Messages.invalid_status errors in
  ret (mkValidation (Nat.eqb (List.length errors) 0) errors warnings).

(** [generateId]: the next identifier of the platform's random source. *)
Definition generateId : M string :=
  fun w => (Return (random_ids w (drawn w)), draw w).

(** [new Todo(data)].  After a successful validation [data.text] is a
    non-empty string, so the branch for a missing text is never taken. *)
Definition new_Todo (data : ITodoData) : M Todo :=
  validation <- validateData data ;;
  if negb (isValid validation)
  then throw (Error ("Invalid TODO data: " ++ JsString.join ", " (errors validation)))
  else
    new_id <- generateId ;;
    created <- new_Date ;;
    updated <- new_Date ;;
    ret (mkTodo
           new_id created updated
           (match d_text data with Some s => JsString.trim s | None => "" end)
           (match d_description data with
            | Some s => let s' := JsString.trim s in
                        if JsString.truthy s' then Some s' else None
            | None => None
            end)
           (match d_complete data with Some c => c | None => false end)
           (match d_status data with
            | Some s => s
            | None => match d_complete data with
                      | Some true => TodoStatus.COMPLETED
                      | _ => TodoStatus.PENDING
                      end
            end)
           (match d_priority data with Some p => p | None => TodoPriority.MEDIUM end)
           (d_dueDate data)
           (match d_tags data with Some l => normalize_tags l | None => [] end)).

(** [Todo.prototype.update]: the entity's own mutation path.  Only
    defined values are applied; [updatedAt] is refreshed last. *)
Definition Todo_update (t : Todo) (updates : ITodoUpdate) : M Todo :=
  let text1 := match u_text updates with
               | Some (Some s) => JsString.trim s
               | _ => text t
               end in
  let description1 := match u_description updates with
                      | Some (Some s) =>
                          if JsString.truthy s then Some (JsString.trim s) else None
                      | _ => description t
                      end in
  let complete1 := match u_complete updates with
                   | Some (Some c) => c
                   | _ => complete t
                   end in
  let status1 := match u_complete updates with
                 | Some (Some c) =>
                     if c && (status t =? TodoStatus.PENDING)
                     then TodoStatus.COMPLETED
                     else if negb c && (status t =? TodoStatus.COMPLETED)
                          then TodoStatus.PENDING
                          else status t
                 | _ => status t
                 end in
  let status2 := match u_status updates with
                 | Some (Some s) => s
                 | _ => status1
                 end in
  let priority1 := match u_priority updates with
                   | Some (Some p) => p
                   | _ => priority t
                   end in
  let dueDate1 := match u_dueDate updates with
                  | Some (Some d) => Some d
                  | _ => dueDate t
                  end in
  let tags1 := match u_tags updates with
               | Some (Some l) => normalize_tags l
               | _ => tags t
               end in
  now <- new_Date ;;
  ret (mkTodo (id t) (createdAt t) now
              text1 description1 complete1 status2 priority1 dueDate1 tags1).

(** [Todo.prototype.toggle]. *)
Definition Todo_toggle (t : Todo) : M Todo :=
  Todo_update t (mkUpdate None None (Some (Some (negb (complete t))))
                          None None None None).

(** [{...todo}]: the own properties of an item, read as constructor data. *)
Definition data_of_todo (t : Todo) : ITodoData :=
  mkData (Some (text t)) (description t) (Some (complete t))
         (Some (status t)) (Some (priority t)) (dueDate t) (Some (tags t)).

(** [Todo.prototype.toJSON] as [JSON.stringify] writes it. *)
Definition Todo_toJSON (t : Todo) : M TodoJSON :=
  overdue <- isOverdue t ;;
  ret (mkJSON (Some (id t))
              (Date_toJSON (createdAt t))
              (Date_toJSON (updatedAt t))
              (mkData (Some (text t)) (description t) (Some (complete t))
                      (Some (status t)) (Some (priority t))
                      (match dueDate t with
                       | Some d => Date_toJSON d
                       | None => None
                       end)
                      (Some (tags t)))
              (Some overdue) (Some (isPending t)) (Some (isCompleted t))).

(** [JSON.stringify(todos)]: each element through its [toJSON]. *)
Definition JSON_stringify (l : list Todo) : M (list TodoJSON) :=
  mapM Todo_toJSON l.

(** [Todo.fromJSON]: builds the item, then restores the identity and the
    timestamps the record carries. *)
Definition Todo_fromJSON (obj : TodoJSON) : M Todo :=
  let data := j_data obj in
  todo <- new_Todo
            (mkData
               (Some (match d_text data with
                      | Some s => if JsString.truthy s then s else ""
                      | None => ""
                      end))
               (if truthy_opt (d_description data) then d_description data else None)
               (Some (match d_complete data with Some c => c | None => false end))
               (Some (if truthy_opt (d_status data)
                      then match d_status data with Some s => s | None => "" end
                      else TodoStatus.PENDING))
               (Some (if truthy_opt (d_priority data)
                      then match d_priority data with Some p => p | None => "" end
                      else TodoPriority.MEDIUM))
               (d_dueDate data)
               (Some (match d_tags data with Some l => l | None => [] end))) ;;
  ret (mkTodo
         (if truthy_opt (j_id obj)
          then match j_id obj with Some i => i | None => "" end
          else id todo)
         (match j_createdAt obj with Some d => d | None => createdAt todo end)
         (match j_updatedAt obj with Some d => d | None => updatedAt todo end)
         (text todo) (description todo) (complete todo) (status todo)
         (priority todo) (dueDate todo) (tags todo)).

(* ================================================================= *)
(** ** Domain utilities ([class TodoModelUtils]) *)

Record StatusCounts : Type := mkStatusCounts {
  n_pending : nat;
  n_completed : nat;
  n_archived : nat
}.

Record PriorityCounts : Type := mkPriorityCounts {
  n_low : nat;
  n_medium : nat;
  n_high : nat;
  n_critical : nat
}.

Record Statistics : Type := mkStatistics {
  total : nat;
  completed : nat;
  pending : nat;
  overdue : nat;
  byStatus : StatusCounts;
  byPriority : PriorityCounts
}.

(** [stats.byStatus[s]++].  For a key outside the enumeration the
    increment creates a new property and leaves the three counters. *)
Definition bump_status (s : string) (c : StatusCounts) : StatusCounts :=
  if s =? TodoStatus.PENDING
  then mkStatusCounts (S (n_pending c)) (n_completed c) (n_archived c)
  else if s =? TodoStatus.COMPLETED
  then mkStatusCounts (n_pending c) (S (n_completed c)) (n_archived c)
  else if s =? TodoStatus.ARCHIVED
  then mkStatusCounts (n_pending c) (n_completed c) (S (n_archived c))
  else c.

(** [stats.byPriority[p]++]. *)
Definition bump_priority (p : string) (c : PriorityCounts) : PriorityCounts :=
  if p =? TodoPriority.LOW
  then mkPriorityCounts (S (n_low c)) (n_medium c) (n_high c) (n_critical c)
  else if p =? TodoPriority.MEDIUM
  then mkPriorityCounts (n_low c) (S (n_medium c)) (n_high c) (n_critical c)
  else if p =? TodoPriority.HIGH
  then mkPriorityCounts (n_low c) (n_medium c) (S (n_high c)) (n_critical c)
  else if p =? TodoPriority.CRITICAL
  then mkPriorityCounts (n_low c) (n_medium c) (n_high c) (S (n_critical c))
  else c.

(** The body of the [forEach] of [getTodoStatistics]. *)
Definition count_todo (stats : Statistics) (todo : Todo) : M Statistics :=
  let completed1 := if complete todo then S (completed stats) else completed stats in
  let pending1 := if isPending todo then S (pending stats) else pending stats in
  od <- isOverdue todo ;;
  let overdue1 := if od then S (overdue stats) else overdue stats in
  ret (mkStatistics (total stats) completed1 pending1 overdue1
                    (bump_status (status todo) (byStatus stats))
                    (bump_priority (priority todo) (byPriority stats))).

Fixpoint foldM {A B} (f : A -> B -> M A) (a : A) (l : list B) : M A :=
  match l with
  | [] => ret a
  | x :: r => a' <- f a x ;; foldM f a' r
  end.

(** [TodoModelUtils.getTodoStatistics]. *)
Definition getTodoStatistics (l : list Todo) : M Statistics :=
  foldM count_todo
        (mkStatistics (List.length l) 0 0 0
                      (mkStatusCounts 0 0 0) (mkPriorityCounts 0 0 0 0))
        l.

(* ================================================================= *)
(** ** Store / service ([class TodoService]) *)

(** [localStorage.setItem(key, value)] on the primary key. *)
Definition setItem_primary (blob : list TodoJSON) : M unit :=
  fun w =>
    if refuses_writes (localStorage w)
    then (Throw (Error "QuotaExceededError"), w)
    else (Return tt,
          emit (SetItem TodoConstants.LOCAL_STORAGE_KEY)
               (set_storage (mkStorage (Some blob) (backup (localStorage w)) false) w)).

(** [localStorage.setItem(key, value)] on the backup key. *)
Definition setItem_backup (snapshot : Snapshot) : M unit :=
  fun w =>
    if refuses_writes (localStorage w)
    then (Throw (Error "QuotaExceededError"), w)
    else (Return tt,
          emit (SetItem TodoConstants.BACKUP_KEY)
               (set_storage (mkStorage (primary (localStorage w)) (Some snapshot) false) w)).

(** [_commit]: replace the collection, persist, notify; any failure in
    between is rethrown as a storage error. *)
Definition _commit (l : list Todo) : M unit :=
  try_catch
    (modify (set_todos l) ;;
     blob <- JSON_stringify l ;;
     setItem_primary blob ;;
     bound <- get onTodoListChanged ;;
     if bound then modify (emit (ListChanged l)) else ret tt)
    (fun _ => throw_TodoError STORAGE_ERROR "Failed to persist todos").

Definition _notifyOperation (todo : Todo) (operation : string) : M unit :=
  bound <- get onTodoOperation ;;
  if bound then modify (emit (Operation todo operation)) else ret tt.

Definition _validateTodoText (s : string) : M unit :=
  if negb (JsString.truthy s)
  then throw_TodoError VALIDATION_FAILED "Todo text is required"
  else
    let trimmedText := JsString.trim s in
    if Nat.eqb (String.length trimmedText) 0
    then throw_TodoError VALIDATION_FAILED "Todo text cannot be empty"
    else if Nat.ltb TodoConstants.MAX_TEXT_LENGTH (String.length trimmedText)
         then throw_TodoError VALIDATION_FAILED
                              "Todo text cannot exceed 500 characters"
         else ret tt.

Definition find_by_id (id0 : string) (l : list Todo) : option Todo :=
  find (fun todo => id todo =? id0) l.

Definition _findTodoById (id0 : string) : M (option Todo) :=
  get (fun w => find_by_id id0 (todos w)).

(** [addTodo(text, priority = MEDIUM)]. *)
Definition addTodo (s : string) (p : option string) : M Todo :=
  _validateTodoText s ;;
  newTodo <- new_Todo (mkData (Some (JsString.trim s)) None None None
                              (Some (match p with
                                     | Some p' => p'
                                     | None => TodoPriority.MEDIUM
                                     end))
                              None None) ;;
  l <- get todos ;;
  modify (set_todos (l ++ [newTodo])) ;;
  l' <- get todos ;;
  _commit l' ;;
  _notifyOperation newTodo "add" ;;
  ret newTodo.

Definition getTodo (id0 : string) : M (option Todo) := _findTodoById id0.

(** One property of [{...todo, ...updates}]. *)
Definition spread {A} (base : option A) (upd : option (option A)) : option A :=
  match upd with
  | None => base
  | Some v => v
  end.

(** [{...todo, ...updates, text: updates.text?.trim() || todo.text}]. *)
Definition merged_data (todo : Todo) (updates : ITodoUpdate) : ITodoData :=
  let base := data_of_todo todo in
  mkData (Some (match u_text updates with
                | Some (Some s) =>
                    if JsString.truthy (JsString.trim s)
                    then JsString.trim s else text todo
                | _ => text todo
                end))
         (spread (d_description base) (u_description updates))
         (spread (d_complete base) (u_complete updates))
         (spread (d_status base) (u_status updates))
         (spread (d_priority base) (u_priority updates))
         (spread (d_dueDate base) (u_dueDate updates))
         (spread (d_tags base) (u_tags updates)).

(** [updateTodo(id, updates)]. *)
Definition updateTodo (id0 : string) (updates : ITodoUpdate) : M Todo :=
  found <- _findTodoById id0 ;;
  match found with
  | None => throw_TodoError TODO_NOT_FOUND ("Todo with id " ++ id0 ++ " not found")
  | Some todo =>
      match u_text updates with
      | Some (Some s) => _validateTodoText s
      | _ => ret tt
      end ;;
      updatedTodo <- new_Todo (merged_data todo updates) ;;
      l <- get todos ;;
      modify (set_todos (map (fun t => if id t =? id0 then updatedTodo else t) l)) ;;
      l' <- get todos ;;
      _commit l' ;;
      _notifyOperation updatedTodo "update" ;;
      ret updatedTodo
  end.

Definition editTodo (id0 : string) (updatedText : string) : M unit :=
  updateTodo id0 (mkUpdate (Some (Some updatedText)) None None None None None None) ;;
  ret tt.

(** [deleteTodo(id)]. *)
Definition deleteTodo (id0 : string) : M bool :=
  found <- _findTodoById id0 ;;
  match found with
  | None => ret false
  | Some todo =>
      l <- get todos ;;
      modify (set_todos (filter (fun t => negb (id t =? id0)) l)) ;;
      l' <- get todos ;;
      _commit l' ;;
      _notifyOperation todo "delete" ;;
      ret true
  end.

(** The update [toggleTodo] and [toggleAll] send. *)
Definition toggle_update (c : bool) : ITodoUpdate :=
  mkUpdate None None (Some (Some c))
           (Some (Some (if c then TodoStatus.COMPLETED else TodoStatus.PENDING)))
           None None None.

(** [toggleTodo(id)]. *)
Definition toggleTodo (id0 : string) : M Todo :=
  found <- _findTodoById id0 ;;
  match found with
  | None => throw_TodoError TODO_NOT_FOUND ("Todo with id " ++ id0 ++ " not found")
  | Some todo => updateTodo id0 (toggle_update (negb (complete todo)))
  end.

(** [addMultipleTodos(texts)]: an invalid text is skipped with a
    warning; one commit follows the loop. *)
Fixpoint addMultiple_loop (texts : list string) : M (list Todo) :=
  match texts with
  | [] => ret []
  | s :: r =>
      made <- try_catch
                (_validateTodoText s ;;
                 todo <- new_Todo (mkData (Some (JsString.trim s))
                                          None None None None None None) ;;
                 ret [todo])
                (fun _ => modify (emit ConsoleWarn) ;; ret []) ;;
      rest <- addMultiple_loop r ;;
      ret (made ++ rest)%list
  end.

Definition addMultipleTodos (texts : list string) : M (list Todo) :=
  newTodos <- addMultiple_loop texts ;;
  l <- get todos ;;
  modify (set_todos (l ++ newTodos)) ;;
  l' <- get todos ;;
  _commit l' ;;
  forEach (fun todo => _notifyOperation todo "add") newTodos ;;
  ret newTodos.

(** [deleteMultipleTodos(ids)]. *)
Definition deleteMultipleTodos (ids : list string) : M nat :=
  l <- get todos ;;
  let initialLength := List.length l in
  let todosToDelete := filter (fun todo => JsString.includes ids (id todo)) l in
  modify (set_todos (filter (fun todo => negb (JsString.includes ids (id todo))) l)) ;;
  l' <- get todos ;;
  _commit l' ;;
  forEach (fun todo => _notifyOperation todo "delete") todosToDelete ;;
  l'' <- get todos ;;
  ret (initialLength - List.length l'').

(** [updateMultipleTodos(updates)]: a failed update is skipped with a
    warning. *)
Fixpoint updateMultipleTodos (updates : list (string * ITodoUpdate)) : M (list Todo) :=
  match updates with
  | [] => ret []
  | (id0, data) :: r =>
      made <- try_catch
                (updatedTodo <- updateTodo id0 data ;; ret [updatedTodo])
                (fun _ => modify (emit ConsoleWarn) ;; ret []) ;;
      rest <- updateMultipleTodos r ;;
      ret (made ++ rest)%list
  end.

(** [toggleAll(complete)]. *)
Definition toggleAll (c : bool) : M (list Todo) :=
  l <- get todos ;;
  updateMultipleTodos (map (fun todo => (id todo, toggle_update c)) l).

(** [clearCompleted()]. *)
Definition clearCompleted : M nat :=
  l <- get todos ;;
  deleteMultipleTodos (map id (filter complete l)).

(** [getTodoCount()]: total, completed, pending. *)
Definition getTodoCount : M (nat * nat * nat) :=
  l <- get todos ;;
  let total := List.length l in
  let completed := List.length (filter complete l) in
  ret (total, completed, total - completed).

(** [validateTodo(todo)]: every exception inside is turned into [false]. *)
Definition validateTodo (todo : Todo) : M bool :=
  try_catch
    (if negb (JsString.truthy (id todo)) || negb (JsString.truthy (text todo))
     then ret false
     else
       _validateTodoText (text todo) ;;
       match dueDate todo with
       | Some d => if Date_isNaN d then ret false else ret true
       | None => ret true
       end)
    (fun _ => ret false).

(** [Array.filter] with an effectful predicate. *)
Fixpoint filterM {A} (p : A -> M bool) (l : list A) : M (list A) :=
  match l with
  | [] => ret []
  | x :: r =>
      keep <- p x ;;
      rest <- filterM p r ;;
      ret (if keep then x :: rest else rest)
  end.

(** [exportTodos()]: the snapshot that is stringified. *)
Definition exportTodos : M Snapshot :=
  now <- new_Date ;;
  l <- get todos ;;
  items <- JSON_stringify l ;;
  ret (mkSnapshot TodoConstants.CURRENT_VERSION now items).

(** What [JSON.parse] and the shape test make of an exported snapshot. *)
Definition parse_snapshot (s : Snapshot) : Payload := TodosArray (snap_todos s).

(** [importTodos(data)]. *)
Definition importTodos (data : Payload) : M nat :=
  try_catch
    (match data with
     | Unparseable => throw (Error "SyntaxError")
     | NoTodosArray => throw_TodoError INVALID_DATA "Invalid import data format"
     | TodosArray entries =>
         importedTodos <- mapM (fun entry => new_Todo (j_data entry)) entries ;;
         validTodos <- filterM validateTodo importedTodos ;;
         l <- get todos ;;
         modify (set_todos (l ++ validTodos)) ;;
         l' <- get todos ;;
         _commit l' ;;
         ret (List.length validTodos)
     end)
    (fun e =>
       match e with
       | TodoError _ _ _ => throw e
       | Error _ => throw_TodoError INVALID_DATA "Failed to parse import data"
       end).

(** [backupTodos()]. *)
Definition backupTodos : M Snapshot :=
  snapshot <- exportTodos ;;
  try_catch (setItem_backup snapshot)
            (fun _ => modify (emit ConsoleWarn)) ;;
  ret snapshot.

(** [restoreFromBackup(backup)]. *)
Definition restoreFromBackup (backup : Payload) : M bool :=
  try_catch
    (modify (set_todos []) ;;
     importTodos backup ;;
     ret true)
    (fun _ => modify (emit ConsoleError) ;; ret false).

(** [clearAllTodos()]. *)
Definition clearAllTodos : M unit :=
  modify (set_todos []) ;;
  l <- get todos ;;
  _commit l.

(** [validateTodos()]. *)
Definition validateTodos : M (list Todo) :=
  l <- get todos ;;
  filterM (fun todo => ok <- validateTodo todo ;; ret (negb ok)) l.

(** [repairData()]. *)
Definition repairData : M nat :=
  l <- get todos ;;
  let initialLength := List.length l in
  kept <- filterM validateTodo l ;;
  modify (set_todos kept) ;;
  (if negb (Nat.eqb (List.length kept) initialLength)
   then l' <- get todos ;; _commit l'
   else ret tt) ;;
  l'' <- get todos ;;
  ret (initialLength - List.length l'').

(* ================================================================= *)
(** ** Further operations of the entity *)

(** The item with its tags and [updatedAt] replaced. *)
Definition with_tags (t : Todo) (l : list string) (now : Date) : Todo :=
  mkTodo (id t) (createdAt t) now (text t) (description t) (complete t)
         (status t) (priority t) (dueDate t) l.

(** [Todo.prototype.addTag]. *)
Definition Todo_addTag (t : Todo) (tag : string) : M Todo :=
  let normalizedTag := JsString.toLowerCase (JsString.trim tag) in
  if JsString.truthy normalizedTag
     && negb (JsString.includes (tags t) normalizedTag)
  then now <- new_Date ;; ret (with_tags t (tags t ++ [normalizedTag]) now)
  else ret t.

(** [tags.splice(tags.indexOf(s), 1)]: the first occurrence goes. *)
Fixpoint remove_first (s : string) (l : list string) : list string :=
  match l with
  | [] => []
  | x :: r => if x =? s then r else x :: remove_first s r
  end.

(** [Todo.prototype.removeTag]. *)
Definition Todo_removeTag (t : Todo) (tag : string) : M Todo :=
  let normalizedTag := JsString.toLowerCase (JsString.trim tag) in
  if JsString.includes (tags t) normalizedTag
  then now <- new_Date ;; ret (with_tags t (remove_first normalizedTag (tags t)) now)
  else ret t.

(** [Todo.prototype.hasTag]. *)
Definition Todo_hasTag (t : Todo) (tag : string) : bool :=
  JsString.includes (tags t) (JsString.toLowerCase (JsString.trim tag)).

(** [Todo.prototype.clone]: a new item from the content, then the
    identity and both timestamps of the original. *)
Definition Todo_clone (t : Todo) : M Todo :=
  cloned <- new_Todo
              (mkData (Some (text t))
                      (if truthy_opt (description t) then description t else None)
                      (Some (complete t)) (Some (status t)) (Some (priority t))
                      (dueDate t) (Some (tags t))) ;;
  ret (mkTodo (id t) (createdAt t) (updatedAt t)
              (text cloned) (description cloned) (complete cloned)
              (status cloned) (priority cloned) (dueDate cloned) (tags cloned)).

(** [TodoModelFactory.fromLegacy]. *)
Definition fromLegacy (legacy_id : option string) (legacy_text : string)
           (legacy_complete : option bool) : M Todo :=
  todo <- new_Todo (mkData (Some legacy_text) None
                           (Some (match legacy_complete with
                                  | Some c => c
                                  | None => false
                                  end))
                           None None None None) ;;
  ret (if truthy_opt legacy_id
       then mkTodo (match legacy_id with Some i => i | None => "" end)
                   (createdAt todo) (updatedAt todo) (text todo)
                   (description todo) (complete todo) (status todo)
                   (priority todo) (dueDate todo) (tags todo)
       else todo).

(* ================================================================= *)
(** ** Further domain utilities *)

(** A criterion given as one value or as an array of values. *)
Inductive OneOrMany (A : Type) : Type :=
| One (a : A)
| Many (l : list A).

Arguments One {A} a.
Arguments Many {A} l.

(** [Array.isArray(x) ? x : [x]]. *)
Definition as_array {A} (x : OneOrMany A) : list A :=
  match x with
  | One a => [a]
  | Many l => l
  end.

(** [interface ITodoFilter]. *)
Record ITodoFilter : Type := mkFilter {
  f_status : option (OneOrMany string);
  f_priority : option (OneOrMany string);
  f_complete : option bool;
  f_tags : option (OneOrMany string);
  f_dueBefore : option Date;
  f_dueAfter : option Date;
  f_searchText : option string
}.

(** [getEmptyFilter()]: the filter [{}]. *)
Definition getEmptyFilter : ITodoFilter :=
  mkFilter None None None None None None None.

(** [String.prototype.includes]: [p] occurs in [s]. *)
Fixpoint str_includes (s p : string) : bool :=
  String.prefix p s
  || match s with
     | EmptyString => false
     | String _ s' => str_includes s' p
     end.

(** The callback of [filterTodos]: each criterion that is present can
    reject the item; the item is kept when none does. *)
Definition filter_keeps (filter : ITodoFilter) (todo : Todo) : bool :=
  if match f_status filter with
     | Some st => negb (JsString.includes (as_array st) (status todo))
     | None => false
     end then false
  else if match f_priority filter with
          | Some pr => negb (JsString.includes (as_array pr) (priority todo))
          | None => false
          end then false
  else if match f_complete filter with
          | Some c => negb (Bool.eqb (complete todo) c)
          | None => false
          end then false
  else if match f_tags filter with
          | Some tg =>
              negb (existsb (fun tag => JsString.includes
                                          (tags todo) (JsString.toLowerCase tag))
                            (as_array tg))
          | None => false
          end then false
  else if match f_dueBefore filter with
          | Some before =>
              match dueDate todo with
              | None => true
              | Some d => Date_gt d before
              end
          | None => false
          end then false
  else if match f_dueAfter filter with
          | Some after =>
              match dueDate todo with
              | None => true
              | Some d => Date_lt d after
              end
          | None => false
          end then false
  else if match f_searchText filter with
          | Some q =>
              let searchLower := JsString.toLowerCase q in
              let matchesText :=
                str_includes (JsString.toLowerCase (text todo)) searchLower in
              let matchesDescription :=
                match description todo with
                | Some s => str_includes (JsString.toLowerCase s) searchLower
                | None => false
                end in
              let matchesTags :=
                existsb (fun tag => str_includes tag searchLower) (tags todo) in
              negb matchesText && negb matchesDescription && negb matchesTags
          | None => false
          end then false
  else true.

(** [TodoModelUtils.filterTodos]. *)
Definition filterTodos (l : list Todo) (filter : ITodoFilter) : list Todo :=
  List.filter (filter_keeps filter) l.

(** [TodoModelUtils.todoExists]. *)
Definition todoExists (l : list Todo) (id0 : string) : bool :=
  existsb (fun todo => id todo =? id0) l.

(** [TodoModelUtils.findTodoById]. *)
Definition findTodoById (l : list Todo) (id0 : string) : option Todo :=
  find (fun todo => id todo =? id0) l.

(** A JavaScript [Map] with string keys: the entries in insertion order.
    [set] on a present key replaces the value in place. *)
Fixpoint Map_set {V} (k : string) (v : V) (m : list (string * V))
  : list (string * V) :=
  match m with
  | [] => [(k, v)]
  | (k', v') :: r => if k' =? k then (k', v) :: r else (k', v') :: Map_set k v r
  end.

Fixpoint Map_get {V} (k : string) (m : list (string * V)) : option V :=
  match m with
  | [] => None
  | (k', v) :: r => if k' =? k then Some v else Map_get k r
  end.

(** [new Map(entries)]. *)
Definition Map_of {V} (entries : list (string * V)) : list (string * V) :=
  fold_left (fun m kv => Map_set (fst kv) (snd kv) m) entries [].

(** [TodoModelUtils.toMap]. *)
Definition toMap (l : list Todo) : list (string * Todo) :=
  Map_of (map (fun todo => (id todo, todo)) l).

(** [groups.get(key)!.push(todo)] after [groups.set(key, [])] when the
    key is new. *)
Fixpoint group_push (k : string) (todo : Todo) (groups : list (string * list Todo))
  : list (string * list Todo) :=
  match groups with
  | [] => [(k, [todo])]
  | (k', l) :: r =>
      if k' =? k then (k', (l ++ [todo])%list) :: r else (k', l) :: group_push k todo r
  end.

(** [TodoModelUtils.groupTodos] on a field whose values are strings
    ([status], [priority], [text], [id]); [field] reads it. *)
Definition groupTodos (l : list Todo) (field : Todo -> string)
  : list (string * list Todo) :=
  fold_left (fun groups todo => group_push (field todo) todo groups) l [].

(* ================================================================= *)
(** ** Further operations of the service *)

(** [loadTodos()], run by the constructor of the service. *)
Definition loadTodos : M unit :=
  try_catch
    (storedTodos <- get (fun w => primary (localStorage w)) ;;
     match storedTodos with
     | Some parsedTodos =>
         l <- mapM (fun todo => new_Todo (j_data todo)) parsedTodos ;;
         modify (set_todos l)
     | None => modify (set_todos [])
     end)
    (fun _ => modify (emit ConsoleError) ;; modify (set_todos [])).

(** [findTodos(filter)]. *)
Definition findTodos (filter : ITodoFilter) : M (list Todo) :=
  l <- get todos ;; ret (filterTodos l filter).

(** [searchTodos(query)]. *)
Definition searchTodos (query : string) : M (list Todo) :=
  l <- get todos ;;
  if negb (JsString.truthy (JsString.trim query))
  then ret l
  else
    let searchTerm := JsString.trim (JsString.toLowerCase query) in
    ret (List.filter
           (fun todo =>
              str_includes (JsString.toLowerCase (text todo)) searchTerm
              || match description todo with
                 | Some s => JsString.truthy s
                             && str_includes (JsString.toLowerCase s) searchTerm
                 | None => false
                 end
              || existsb (fun tag => str_includes (JsString.toLowerCase tag)
                                                  searchTerm)
                         (tags todo))
           l).

(** [getTodosByStatus(status)] and [getTodosByPriority(priority)]. *)
Definition getTodosByStatus (s : string) : M (list Todo) :=
  l <- get todos ;; ret (List.filter (fun todo => status todo =? s) l).

Definition getTodosByPriority (p : string) : M (list Todo) :=
  l <- get todos ;; ret (List.filter (fun todo => priority todo =? p) l).

(** [getOverdueTodos()]: one reading of the clock for the whole list. *)
Definition getOverdueTodos : M (list Todo) :=
  now <- new_Date ;;
  l <- get todos ;;
  ret (List.filter
         (fun todo => match dueDate todo with
                      | Some d => Date_lt d now && negb (complete todo)
                      | None => false
                      end)
         l).

(** [getPriorityDistribution()]: one count per enumerated priority. *)
Definition getPriorityDistribution : M PriorityCounts :=
  l <- get todos ;;
  let count p := List.length (List.filter (fun todo => priority todo =? p) l) in
  ret (mkPriorityCounts (count TodoPriority.LOW) (count TodoPriority.MEDIUM)
                        (count TodoPriority.HIGH) (count TodoPriority.CRITICAL)).

(* ================================================================= *)
(** ** Observations on worlds and traces *)

Definition is_write (e : Event) : bool :=
  match e with SetItem _ => true | _ => false end.

Definition is_list_changed (e : Event) : bool :=
  match e with ListChanged _ => true | _ => false end.

Definition is_operation (op : string) (e : Event) : bool :=
  match e with Operation _ o => o =? op | _ => false end.

(** Number of storage writes / change-listener calls recorded so far. *)
Definition writes (w : World) : nat := List.length (filter is_write (trace w)).
Definition list_changes (w : World) : nat :=
  List.length (filter is_list_changed (trace w)).
Definition operations (op : string) (w : World) : nat :=
  List.length (filter (is_operation op) (trace w)).

(** The clock never runs backwards. *)
Definition monotone_clock (w : World) : Prop :=
  forall i j, i <= j -> (clock w i <= clock w j)%Z.

(** A concrete platform for examples: the clock reads 1000, 1001, ...;
    the id source yields "id-0", "id-1", ... *)
Definition digit (n : nat) : string :=
  String (ascii_of_nat (48 + Nat.modulo n 10)) EmptyString.

Definition sample_ids (n : nat) : string := "id-" ++ digit n.

Definition sample_world (l : list Todo) (refuses : bool) : World :=
  mkWorld l true true (mkStorage None None refuses)
          (fun i => (1000 + Z.of_nat i)%Z) 0 sample_ids 0 [].

Definition sample_todo (i s st : string) (c : bool) : Todo :=
  mkTodo i (Time 10) (Time 20) s None c st TodoPriority.MEDIUM None [].

(* ================================================================= *)
(** * Vocabulary of the properties

    Definitions used to state and prove the properties: pure readings
    of effectful functions, frame relations between worlds, the rules of
    the specification in its own words, and sample worlds. *)

(** ** Pure readings of the validator and the constructor *)

(** The error list of [validateData], as a function of the data alone. *)
Definition errors_of (data : ITodoData) : list string :=
  push_if (invalid_status data) Messages.invalid_status
    (push_if (invalid_priority data) Messages.invalid_priority
       (push_if (description_too_long data) Messages.description_too_long
          (push_if (text_too_long data) Messages.text_too_long
             (push_if (text_missing data) Messages.text_required [])))).

Definition warnings_of (data : ITodoData) (now : Z) : list string :=
  match d_dueDate data with
  | Some d => push_if (Date_lt d (Time now)) Messages.due_date_past []
  | None => []
  end.

(** The world after [validateData]: one clock reading when a due date
    is given. *)
Definition after_validate (data : ITodoData) (w : World) : World :=
  match d_dueDate data with
  | Some _ => tick w
  | None => w
  end.

(** The fields [new Todo(data)] assigns once validation has passed. *)
Definition init_Todo (data : ITodoData) (i : string) (c u : Date) : Todo :=
  mkTodo i c u
    (match d_text data with Some s => JsString.trim s | None => "" end)
    (match d_description data with
     | Some s => let s' := JsString.trim s in
                 if JsString.truthy s' then Some s' else None
     | None => None
     end)
    (match d_complete data with Some c => c | None => false end)
    (match d_status data with
     | Some s => s
     | None => match d_complete data with
               | Some true => TodoStatus.COMPLETED
               | _ => TodoStatus.PENDING
               end
     end)
    (match d_priority data with Some p => p | None => TodoPriority.MEDIUM end)
    (d_dueDate data)
    (match d_tags data with Some l => normalize_tags l | None => [] end).

Definition constructed (data : ITodoData) (w : World) : Todo :=
  let wv := after_validate data w in
  init_Todo data (random_ids wv (drawn wv))
            (Time (clock wv (ticks wv))) (Time (clock wv (S (ticks wv)))).

(** ** The validation rules

    The rules on the text and the description are the ones of the
    specification.  The rules on the priority and the status are the
    ones the validator applies: a priority or a status that is given as
    the empty string is not tested against the enumeration. *)









(** ** Frames *)

(** [w'] differs from [w] at most in the number of clock readings and
    identifiers consumed. *)
Record quiet_step (w w' : World) : Prop := mkQuiet {
  qs_todos : todos w' = todos w;
  qs_list_changed : onTodoListChanged w' = onTodoListChanged w;
  qs_operation : onTodoOperation w' = onTodoOperation w;
  qs_storage : localStorage w' = localStorage w;
  qs_trace : trace w' = trace w;
  qs_clock : clock w' = clock w;
  qs_ids : random_ids w' = random_ids w;
  qs_ticks : ticks w <= ticks w';
  qs_drawn : drawn w <= drawn w'
}.

Definition quiet {A} (m : M A) : Prop :=
  forall w o w', m w = (o, w') -> quiet_step w w'.

(** What every run of [_commit l] does, whatever its outcome. *)
Record commit_frame (l : list Todo) (w w' : World) : Prop := mkCommitFrame {
  cf_todos : todos w' = l;
  cf_list_changed : onTodoListChanged w' = onTodoListChanged w;
  cf_operation : onTodoOperation w' = onTodoOperation w;
  cf_refuses : refuses_writes (localStorage w') = refuses_writes (localStorage w);
  cf_backup : backup (localStorage w') = backup (localStorage w);
  cf_clock : clock w' = clock w;
  cf_ids : random_ids w' = random_ids w;
  cf_drawn : drawn w <= drawn w';
  cf_ticks : ticks w <= ticks w'
}.

(** The events of one successful commit, newest first. *)
Definition commit_events (bound : bool) (l : list Todo) : list Event :=
  (if bound then [ListChanged l] else [])
    ++ [SetItem TodoConstants.LOCAL_STORAGE_KEY].

Definition operation_events (bound : bool) (op : string) (l : list Todo)
  : list Event :=
  if bound then rev (map (fun t => Operation t op) l) else [].

(** The world with one more batch of events. *)
Definition emit_all (es : list Event) (w : World) : World :=
  mkWorld (todos w) (onTodoListChanged w) (onTodoOperation w) (localStorage w)
          (clock w) (ticks w) (random_ids w) (drawn w) (es ++ trace w).

(** [this.todos.map(t => t.id === id ? updatedTodo : t)]. *)
Definition replace_by_id (id0 : string) (u : Todo) (l : list Todo) : list Todo :=
  map (fun t => if id t =? id0 then u else t) l.

(** The text test of [_validateTodoText], as a boolean. *)
Definition text_accepted (s : string) : bool :=
  JsString.truthy s
  && negb (Nat.eqb (String.length (JsString.trim s)) 0)
  && negb (Nat.ltb TodoConstants.MAX_TEXT_LENGTH (String.length (JsString.trim s))).

(** The text an update carries passes [_validateTodoText], or it
    carries none. *)
Definition update_text_accepted (updates : ITodoUpdate) : bool :=
  match u_text updates with
  | Some (Some s) => text_accepted s
  | _ => true
  end.

(** What a run of [updateTodo] on a present item amounts to once the
    text and the merged data have been accepted. *)
Record updated (id0 : string) (u : Todo) (w w' : World) : Prop := mkUpdated {
  up_frame : commit_frame (replace_by_id id0 u (todos w)) w w';
  up_trace :
    trace w' = (operation_events (onTodoOperation w) "update" [u]
                ++ commit_events (onTodoListChanged w)
                                 (replace_by_id id0 u (todos w))
                ++ trace w)%list
}.

(** An item whose own properties pass [validateData]: what the
    constructor accepts when the item is spread into new data. *)
Definition well_formed (t : Todo) : Prop := errors_of (data_of_todo t) = [].

(** The toggle semantics on one item: [complete] is the flag and
    [status] follows it. *)
Definition toggled (c : bool) (t : Todo) : Prop :=
  complete t = c /\
  status t = (if c then TodoStatus.COMPLETED else TodoStatus.PENDING).

(** ** Counting *)

(** An item is overdue at [now]: it has a due date before [now] and is
    not complete. *)
Definition overdue_at (now : Z) (t : Todo) : bool :=
  match dueDate t with
  | Some d => Date_gt (Time now) d && negb (complete t)
  | None => false
  end.

(** The overdue items of [l] when the item visited at the [k]-th reading
    of the clock is judged at that reading; only items with a due date
    consume a reading. *)
Fixpoint overdue_from (clk : nat -> Z) (k : nat) (l : list Todo) : nat :=
  match l with
  | [] => 0
  | t :: r =>
      match dueDate t with
      | Some _ => (if overdue_at (clk k) t then 1 else 0)
                  + overdue_from clk (S k) r
      | None => overdue_from clk k r
      end
  end.

Definition has_status (s : string) (t : Todo) : bool := status t =? s.
Definition has_priority (p : string) (t : Todo) : bool := priority t =? p.

(** What the loop of [getTodoStatistics] adds to its accumulator. *)
Record counted (l : list Todo) (clk : nat -> Z) (k : nat)
       (s s' : Statistics) : Prop := mkCounted {
  ct_total : total s' = total s;
  ct_completed : completed s' = completed s + List.length (filter complete l);
  ct_pending : pending s' = pending s + List.length (filter isPending l);
  ct_overdue : overdue s' = overdue s + overdue_from clk k l;
  ct_st_pending :
    n_pending (byStatus s')
    = n_pending (byStatus s)
      + List.length (filter (has_status TodoStatus.PENDING) l);
  ct_st_completed :
    n_completed (byStatus s')
    = n_completed (byStatus s)
      + List.length (filter (has_status TodoStatus.COMPLETED) l);
  ct_st_archived :
    n_archived (byStatus s')
    = n_archived (byStatus s)
      + List.length (filter (has_status TodoStatus.ARCHIVED) l);
  ct_low :
    n_low (byPriority s')
    = n_low (byPriority s) + List.length (filter (has_priority TodoPriority.LOW) l);
  ct_medium :
    n_medium (byPriority s')
    = n_medium (byPriority s)
      + List.length (filter (has_priority TodoPriority.MEDIUM) l);
  ct_high :
    n_high (byPriority s')
    = n_high (byPriority s)
      + List.length (filter (has_priority TodoPriority.HIGH) l);
  ct_critical :
    n_critical (byPriority s')
    = n_critical (byPriority s)
      + List.length (filter (has_priority TodoPriority.CRITICAL) l)
}.

(** [importData.todos.map(todo => new Todo(todo))]. *)
Definition construct_all (entries : list TodoJSON) : M (list Todo) :=
  mapM (fun entry => new_Todo (j_data entry)) entries.

(** ** Sample items, payloads and worlds *)

(** One pending item "a"; the durable store accepts writes. *)
Definition one_pending : World :=
  sample_world [sample_todo "a" "Buy milk" TodoStatus.PENDING false] false.

(** The same store when the platform refuses writes. *)
Definition one_pending_full : World :=
  sample_world [sample_todo "a" "Buy milk" TodoStatus.PENDING false] true.

Definition two_pending : World :=
  sample_world [sample_todo "a" "Buy milk" TodoStatus.PENDING false;
                sample_todo "b" "Call bank" TodoStatus.PENDING false] false.

(** An Archived item that is not complete. *)
Definition archived_open : Todo :=
  sample_todo "a" "Buy milk" TodoStatus.ARCHIVED false.

Definition one_archived : World := sample_world [archived_open] false.



(** One complete and one incomplete item with distinct ids. *)
Definition one_done_one_open : World :=
  sample_world [sample_todo "a" "Buy milk" TodoStatus.COMPLETED true;
                sample_todo "b" "Call bank" TodoStatus.PENDING false] false.

(** An item whose due date is the invalid date, as the constructor
    builds it from an unparseable due date. *)
Definition invalid_due : Todo :=
  mkTodo "a" (Time 10) (Time 20) "Buy milk" None false TodoStatus.PENDING
         TodoPriority.MEDIUM (Some InvalidDate) [].

Definition one_invalid_one_valid : World :=
  sample_world [invalid_due;
                sample_todo "b" "Call bank" TodoStatus.PENDING false] false.

(** The payload entry [{"text": s}]. *)
Definition entry_of (s : string) : TodoJSON :=
  mkJSON None None None (mkData (Some s) None None None None None None)
         None None None.

(** ** Vocabulary of the further properties *)

(** The data [addTodo] hands to the constructor. *)
Definition add_data (s : string) (p : option string) : ITodoData :=
  mkData (Some (JsString.trim s)) None None None
         (Some (match p with Some p' => p' | None => TodoPriority.MEDIUM end))
         None None.

(** The stored form of the content: the text is trimmed, a description
    is trimmed and not empty, the tags are normalised and distinct. *)
Definition canonical (t : Todo) : Prop :=
  JsString.trim (text t) = text t /\
  match description t with
  | Some s => JsString.trim s = s /\ s <> ""
  | None => True
  end /\
  normalize_tags (tags t) = tags t.

(** An item as the store holds it: in stored form, accepted by the
    validator, with an id, a status and a priority that are not empty,
    valid timestamps and no invalid due date. *)
Definition storable (t : Todo) : Prop :=
  canonical t /\ well_formed t /\
  id t <> "" /\ status t <> "" /\ priority t <> "" /\
  Date_isNaN (createdAt t) = false /\ Date_isNaN (updatedAt t) = false /\
  dueDate t <> Some InvalidDate.

(** An item that survives being written and loaded again: in stored
    form, accepted by the validator, and without an invalid due date
    (which [JSON.stringify] writes as [null]). *)
Definition reloadable (t : Todo) : Prop :=
  canonical t /\ well_formed t /\ dueDate t <> Some InvalidDate.

(** The test of [validateTodo], as a boolean on the item alone. *)
Definition todo_valid (t : Todo) : bool :=
  JsString.truthy (id t)
  && text_accepted (text t)
  && match dueDate t with
     | Some d => negb (Date_isNaN d)
     | None => true
     end.

(** The content properties of the record [JSON.stringify] writes for an
    item. *)
Definition stored_data (t : Todo) : ITodoData :=
  mkData (Some (text t)) (description t) (Some (complete t))
         (Some (status t)) (Some (priority t))
         (match dueDate t with
          | Some d => Date_toJSON d
          | None => None
          end)
         (Some (tags t)).

(** The content of an item: everything but its id and timestamps. *)
Definition content (t : Todo)
  : string * option string * bool * string * string * option Date * list string :=
  (text t, description t, complete t, status t, priority t, dueDate t, tags t).

(** The data [addMultipleTodos] hands to the constructor for one text. *)
Definition quick_data (s : string) : ITodoData :=
  mkData (Some (JsString.trim s)) None None None None None None.

(** The loop of [addMultipleTodos] touches neither the collection nor
    the durable store; it logs one warning per refused text. *)
Record warned (n : nat) (w w' : World) : Prop := mkWarned {
  wn_todos : todos w' = todos w;
  wn_list_changed : onTodoListChanged w' = onTodoListChanged w;
  wn_operation : onTodoOperation w' = onTodoOperation w;
  wn_storage : localStorage w' = localStorage w;
  wn_trace : trace w' = (repeat ConsoleWarn n ++ trace w)%list
}.

(** A new item as [addMultipleTodos] builds it from a text. *)
Definition quick_item (s : string) (t : Todo) : Prop :=
  text t = JsString.trim s /\ complete t = false /\
  status t = TodoStatus.PENDING /\ priority t = TodoPriority.MEDIUM.

(** The criteria of a filter, each in plain terms; an absent criterion
    imposes nothing. *)
Definition meets_status (f : ITodoFilter) (t : Todo) : Prop :=
  forall st, f_status f = Some st -> In (status t) (as_array st).

Definition meets_priority (f : ITodoFilter) (t : Todo) : Prop :=
  forall pr, f_priority f = Some pr -> In (priority t) (as_array pr).

Definition meets_complete (f : ITodoFilter) (t : Todo) : Prop :=
  forall c, f_complete f = Some c -> complete t = c.

Definition meets_tags (f : ITodoFilter) (t : Todo) : Prop :=
  forall tg, f_tags f = Some tg ->
             exists tag, In tag (as_array tg)
                         /\ In (JsString.toLowerCase tag) (tags t).

(** The due date is not after [before]; an invalid due date compares
    false with everything and so passes. *)
Definition meets_dueBefore (f : ITodoFilter) (t : Todo) : Prop :=
  forall before, f_dueBefore f = Some before ->
                 exists d, dueDate t = Some d /\ Date_gt d before = false.

Definition meets_dueAfter (f : ITodoFilter) (t : Todo) : Prop :=
  forall after, f_dueAfter f = Some after ->
                exists d, dueDate t = Some d /\ Date_lt d after = false.

Definition meets_search (f : ITodoFilter) (t : Todo) : Prop :=
  forall q, f_searchText f = Some q ->
            str_includes (JsString.toLowerCase (text t))
                         (JsString.toLowerCase q) = true
            \/ (exists s, description t = Some s
                          /\ str_includes (JsString.toLowerCase s)
                                          (JsString.toLowerCase q) = true)
            \/ (exists tag, In tag (tags t)
                            /\ str_includes tag (JsString.toLowerCase q) = true).

(** When each criterion rejects an item. *)
Definition rejects_status (f : ITodoFilter) (t : Todo) : bool :=
  match f_status f with
  | Some st => negb (JsString.includes (as_array st) (status t))
  | None => false
  end.

Definition rejects_priority (f : ITodoFilter) (t : Todo) : bool :=
  match f_priority f with
  | Some pr => negb (JsString.includes (as_array pr) (priority t))
  | None => false
  end.

Definition rejects_complete (f : ITodoFilter) (t : Todo) : bool :=
  match f_complete f with
  | Some c => negb (Bool.eqb (complete t) c)
  | None => false
  end.

Definition rejects_tags (f : ITodoFilter) (t : Todo) : bool :=
  match f_tags f with
  | Some tg =>
      negb (existsb (fun tag => JsString.includes
                                  (tags t) (JsString.toLowerCase tag))
                    (as_array tg))
  | None => false
  end.

Definition rejects_dueBefore (f : ITodoFilter) (t : Todo) : bool :=
  match f_dueBefore f with
  | Some before =>
      match dueDate t with
      | None => true
      | Some d => Date_gt d before
      end
  | None => false
  end.

Definition rejects_dueAfter (f : ITodoFilter) (t : Todo) : bool :=
  match f_dueAfter f with
  | Some after =>
      match dueDate t with
      | None => true
      | Some d => Date_lt d after
      end
  | None => false
  end.

Definition rejects_search (f : ITodoFilter) (t : Todo) : bool :=
  match f_searchText f with
  | Some q =>
      negb (str_includes (JsString.toLowerCase (text t)) (JsString.toLowerCase q))
      && negb (match description t with
               | Some s => str_includes (JsString.toLowerCase s)
                                        (JsString.toLowerCase q)
               | None => false
               end)
      && negb (existsb (fun tag => str_includes tag (JsString.toLowerCase q))
                       (tags t))
  | None => false
  end.

(** The filter [{searchText: q}]. *)
Definition search_filter (q : string) : ITodoFilter :=
  mkFilter None None None None None None (Some q).

(* ================================================================= *)
(** * Properties *)

(** ** Strings *)

Section StringFacts.

Import JsString.

Lemma length_zero_empty (s : string) :
  Nat.eqb (String.length s) 0 = true <-> s = "".
Proof.
  destruct s; simpl; split; intro H; try reflexivity; discriminate.
Qed.

Lemma truthy_false_empty (s : string) : truthy s = false <-> s = "".
Proof.
  unfold truthy. rewrite negb_false_iff. apply String.eqb_eq.
Qed.

Lemma truthy_true_nonempty (s : string) : truthy s = true <-> s <> "".
Proof.
  unfold truthy. rewrite negb_true_iff. apply String.eqb_neq.
Qed.

Lemma includes_In (l : list string) (s : string) :
  includes l s = true <-> In s l.
Proof.
  unfold includes. rewrite existsb_exists. split.
  - intros [x [Hin Heq]]. apply String.eqb_eq in Heq. now subst.
  - intro Hin. exists s. split; [assumption | apply String.eqb_refl].
Qed.

Lemma trimStart_head (s : string) :
  match trimStart s with
  | EmptyString => True
  | String c _ => is_space c = false
  end.
Proof.
  induction s as [|c s IH]; simpl; [exact I|].
  destruct (is_space c) eqn:E; [exact IH | exact E].
Qed.

Lemma trimEnd_cons_nonspace (c : ascii) (s : string) :
  is_space c = false -> trimEnd (String c s) = String c (trimEnd s).
Proof.
  intro H. simpl. destruct (trimEnd s); [now rewrite H | reflexivity].
Qed.

Lemma trimEnd_idempotent (s : string) : trimEnd (trimEnd s) = trimEnd s.
Proof.
  induction s as [|c s IH]; simpl; [reflexivity|].
  destruct (trimEnd s) as [|c' r] eqn:E.
  - destruct (is_space c) eqn:Hc; simpl; [reflexivity | now rewrite Hc].
  - change (trimEnd (String c (String c' r)) = String c (String c' r)).
    simpl trimEnd at 1. simpl in IH.
    destruct (trimEnd r) as [|c'' r'] eqn:Er.
    + destruct (is_space c') eqn:Hc'; [discriminate IH|].
      injection IH as ->. reflexivity.
    + injection IH as IH. now rewrite IH.
Qed.

Lemma trimStart_fixed (s : string) :
  match s with
  | EmptyString => True
  | String c _ => is_space c = false
  end -> trimStart s = s.
Proof.
  destruct s as [|c s]; simpl; [reflexivity|]. now intros ->.
Qed.

(** [trim] is idempotent: a trimmed text is stored as it is. *)
Lemma trim_idempotent (s : string) : trim (trim s) = trim s.
Proof.
  unfold trim.
  assert (H := trimStart_head s).
  destruct (trimStart s) as [|c r] eqn:E; [reflexivity|].
  rewrite trimEnd_cons_nonspace by exact H.
  rewrite trimStart_fixed by exact H.
  rewrite <- (trimEnd_cons_nonspace c r H).
  apply trimEnd_idempotent.
Qed.


Example trim_both_ends : trim "  Buy milk  " = "Buy milk".
Proof. reflexivity. Qed.

Example trim_blank : trim "   " = "".
Proof. reflexivity. Qed.

Example normalize_tags_home :
  normalize_tags [" Home"; "home "; "Work"] = ["home"; "work"].
Proof. reflexivity. Qed.

End StringFacts.

(** ** Entity and validator *)

Lemma validateData_run (data : ITodoData) (w : World) :
  validateData data w =
  (Return (mkValidation (Nat.eqb (List.length (errors_of data)) 0)
                        (errors_of data)
                        (warnings_of data (clock w (ticks w)))),
   after_validate data w).
Proof.
  unfold validateData, errors_of, warnings_of, after_validate.
  destruct (d_dueDate data); reflexivity.
Qed.

Lemma new_Todo_accepts (data : ITodoData) (w : World) :
  errors_of data = [] ->
  new_Todo data w =
  (Return (constructed data w), tick (tick (draw (after_validate data w)))).
Proof.
  intro H. unfold new_Todo, bind. rewrite validateData_run. simpl.
  rewrite H. reflexivity.
Qed.

Lemma new_Todo_rejects (data : ITodoData) (w : World) :
  errors_of data <> [] ->
  new_Todo data w =
  (Throw (Error ("Invalid TODO data: " ++ JsString.join ", " (errors_of data))),
   after_validate data w).
Proof.
  intro H. unfold new_Todo, bind. rewrite validateData_run. simpl.
  destruct (errors_of data) as [|e l]; [now elim H | reflexivity].
Qed.

Lemma errors_of_dec (data : ITodoData) :
  {errors_of data = []} + {errors_of data <> []}.
Proof.
  destruct (errors_of data); [left; reflexivity | right; discriminate].
Qed.









Example new_Todo_lists_four_violations :
  fst (new_Todo (mkData (Some "  ") (Some (JsString.replicate 1001 "x"))
                        None (Some "bogus") (Some "urgent")
                        (Some (Time 5)) None)
                one_pending)
  = Throw (Error ("Invalid TODO data: Text is required and cannot be empty, "
                  ++ "Description cannot exceed 1000 characters, "
                  ++ "Invalid priority value, Invalid status value")).
Proof. vm_compute. reflexivity. Qed.

Example new_Todo_past_due_date_accepted :
  exists t w',
    new_Todo (mkData (Some "Buy milk") None None None None (Some (Time 5)) None)
             one_pending = (Return t, w')
    /\ dueDate t = Some (Time 5).
Proof. do 2 eexists. split; [vm_compute; reflexivity | reflexivity]. Qed.



(** C8.  Removing an identifier that no item carries returns [false] and
    leaves the whole world as it was: the collection, the durable store
    and the trace of listener calls are untouched. *)
Theorem deleteTodo_unknown_id (id0 : string) (w : World) :
  (forall t, In t (todos w) -> id t <> id0) ->
  deleteTodo id0 w = (Return false, w).
Proof.
  intro H. unfold deleteTodo, bind, _findTodoById, get, find_by_id.
  destruct (find (fun todo => id todo =? id0) (todos w)) as [t|] eqn:E.
  - apply find_some in E as [Hin Heq]. apply String.eqb_eq in Heq.
    now elim (H t Hin).
  - reflexivity.
Qed.

Lemma deleteTodo_unknown_id_witness :
  deleteTodo "zzz" (sample_world [sample_todo "a" "Buy milk" TodoStatus.PENDING false] false)
  = (Return false,
     sample_world [sample_todo "a" "Buy milk" TodoStatus.PENDING false] false).
Proof.
  apply deleteTodo_unknown_id.
  intros t [<-|[]]. simpl. discriminate.
Defined.

(** ** Computations that only consume the clock and the id source *)

(** Opening the frame records with the names of their fields. *)
Ltac open_quiet H :=
  destruct H as [qs_todos qs_list_changed qs_operation qs_storage qs_trace
                 qs_clock qs_ids qs_ticks qs_drawn].

Ltac open_frame H :=
  destruct H as [cf_todos cf_list_changed cf_operation cf_refuses cf_backup
                 cf_clock cf_ids cf_drawn cf_ticks].

Lemma quiet_step_refl (w : World) : quiet_step w w.
Proof. constructor; auto. Qed.

Lemma quiet_step_trans (w1 w2 w3 : World) :
  quiet_step w1 w2 -> quiet_step w2 w3 -> quiet_step w1 w3.
Proof.
  intros [] []. constructor; try congruence; lia.
Qed.

Lemma quiet_step_tick (w : World) : quiet_step w (tick w).
Proof. constructor; simpl; auto. Qed.

Lemma quiet_step_draw (w : World) : quiet_step w (draw w).
Proof. constructor; simpl; auto. Qed.

Lemma quiet_ret {A} (a : A) : quiet (ret a).
Proof. intros w o w' H. injection H as _ <-. apply quiet_step_refl. Qed.

Lemma quiet_throw {A} (e : Exn) : quiet (@throw A e).
Proof. intros w o w' H. injection H as _ <-. apply quiet_step_refl. Qed.

Lemma quiet_get {A} (f : World -> A) : quiet (get f).
Proof. intros w o w' H. injection H as _ <-. apply quiet_step_refl. Qed.

Lemma quiet_bind {A B} (m : M A) (k : A -> M B) :
  quiet m -> (forall a, quiet (k a)) -> quiet (bind m k).
Proof.
  intros Hm Hk w o w' H. unfold bind in H.
  destruct (m w) as [[a|e] w1] eqn:E.
  - apply quiet_step_trans with w1; [eapply Hm | eapply Hk]; eassumption.
  - injection H as _ <-. eapply Hm; eassumption.
Qed.

Lemma quiet_try_catch {A} (m : M A) (h : Exn -> M A) :
  quiet m -> (forall e, quiet (h e)) -> quiet (try_catch m h).
Proof.
  intros Hm Hh w o w' H. unfold try_catch in H.
  destruct (m w) as [[a|e] w1] eqn:E.
  - injection H as _ <-. eapply Hm; eassumption.
  - apply quiet_step_trans with w1; [eapply Hm | eapply Hh]; eassumption.
Qed.

Lemma quiet_mapM {A B} (f : A -> M B) (l : list A) :
  (forall a, quiet (f a)) -> quiet (mapM f l).
Proof.
  intro Hf. induction l as [|x r IH]; simpl.
  - apply quiet_ret.
  - apply quiet_bind; [apply Hf | intro y].
    apply quiet_bind; [exact IH | intro ys]. apply quiet_ret.
Qed.

Lemma quiet_filterM {A} (p : A -> M bool) (l : list A) :
  (forall a, quiet (p a)) -> quiet (filterM p l).
Proof.
  intro Hp. induction l as [|x r IH]; simpl.
  - apply quiet_ret.
  - apply quiet_bind; [apply Hp | intro keep].
    apply quiet_bind; [exact IH | intro rest]. apply quiet_ret.
Qed.

Lemma quiet_new_Date : quiet new_Date.
Proof. intros w o w' H. injection H as _ <-. apply quiet_step_tick. Qed.

Lemma quiet_generateId : quiet generateId.
Proof. intros w o w' H. injection H as _ <-. apply quiet_step_draw. Qed.

Create HintDb quiet.
#[local] Hint Resolve quiet_ret quiet_throw quiet_get quiet_new_Date
  quiet_generateId : quiet.

Lemma quiet_throw_TodoError {A} (code : TodoErrorCodes) (msg : string) :
  quiet (@throw_TodoError A code msg).
Proof.
  unfold throw_TodoError, new_TodoError.
  repeat (apply quiet_bind; [|intro]); auto with quiet.
Qed.

#[local] Hint Resolve quiet_throw_TodoError : quiet.

Lemma quiet_step_after_validate (data : ITodoData) (w : World) :
  quiet_step w (after_validate data w).
Proof.
  unfold after_validate.
  destruct (d_dueDate data); [apply quiet_step_tick | apply quiet_step_refl].
Qed.

Lemma quiet_new_Todo (data : ITodoData) : quiet (new_Todo data).
Proof.
  intros w o w' H.
  destruct (errors_of_dec data) as [E|E].
  - rewrite (new_Todo_accepts _ _ E) in H. injection H as _ <-.
    apply quiet_step_trans with (after_validate data w);
      [apply quiet_step_after_validate|].
    apply quiet_step_trans with (draw (after_validate data w));
      [apply quiet_step_draw|].
    apply quiet_step_trans with (tick (draw (after_validate data w)));
      apply quiet_step_tick.
  - rewrite (new_Todo_rejects _ _ E) in H. injection H as _ <-.
    apply quiet_step_after_validate.
Qed.

Lemma quiet_validateTodoText (s : string) : quiet (_validateTodoText s).
Proof.
  unfold _validateTodoText.
  repeat match goal with
         | |- quiet (if ?b then _ else _) => destruct b
         | |- quiet (let _ := _ in _) => cbv zeta
         end;
    auto with quiet.
Qed.

Lemma quiet_validateTodo (t : Todo) : quiet (validateTodo t).
Proof.
  unfold validateTodo.
  apply quiet_try_catch; [|intro; apply quiet_ret].
  destruct (_ || _); [apply quiet_ret|].
  apply quiet_bind; [apply quiet_validateTodoText | intros _].
  destruct (dueDate t) as [d|]; [destruct (Date_isNaN d)|]; apply quiet_ret.
Qed.

Lemma quiet_isOverdue (t : Todo) : quiet (isOverdue t).
Proof.
  unfold isOverdue. destruct (dueDate t); [|apply quiet_ret].
  apply quiet_bind; [apply quiet_new_Date | intro; apply quiet_ret].
Qed.

Lemma quiet_JSON_stringify (l : list Todo) : quiet (JSON_stringify l).
Proof.
  apply quiet_mapM. intro t. unfold Todo_toJSON.
  apply quiet_bind; [apply quiet_isOverdue | intro; apply quiet_ret].
Qed.

(** Serialising a collection never throws. *)
Lemma JSON_stringify_returns (l : list Todo) (w : World) :
  exists blob w', JSON_stringify l w = (Return blob, w').
Proof.
  revert w. induction l as [|t r IH]; intro w.
  - do 2 eexists. reflexivity.
  - unfold JSON_stringify in *. cbn [mapM]. unfold bind at 1.
    unfold Todo_toJSON at 1. unfold bind at 1.
    assert (Ho : exists b w1, isOverdue t w = (Return b, w1)).
    { unfold isOverdue. destruct (dueDate t); do 2 eexists; reflexivity. }
    destruct Ho as (b & w1 & ->). cbn [ret].
    unfold bind. destruct (IH w1) as (blob & w' & ->).
    do 2 eexists. reflexivity.
Qed.

(** ** The commit *)

Lemma commit_run (l : list Todo) (w : World) (o : Outcome unit) (w' : World) :
  _commit l w = (o, w') ->
  commit_frame l w w' /\
  if refuses_writes (localStorage w)
  then (exists ts, o = Throw (TodoError STORAGE_ERROR "Failed to persist todos" ts))
       /\ localStorage w' = localStorage w
       /\ trace w' = trace w
  else o = Return tt
       /\ trace w' = (commit_events (onTodoListChanged w) l ++ trace w)%list.
Proof.
  unfold _commit, try_catch. unfold bind at 1. unfold modify at 1.
  unfold bind at 1.
  destruct (JSON_stringify_returns l (set_todos l w)) as (blob & w1 & Hs).
  rewrite Hs. assert (Q := quiet_JSON_stringify l _ _ _ Hs). open_quiet Q.
  simpl in *. unfold bind at 1. unfold setItem_primary.
  rewrite qs_storage.
  destruct (refuses_writes (localStorage w)) eqn:R.
  - unfold throw_TodoError, new_TodoError, bind, new_Date, ret, throw.
    intro H. injection H as <- <-. simpl.
    split; [constructor; simpl; try congruence; try lia|].
    repeat split; eauto.
  - unfold bind, get, modify, ret. simpl. rewrite qs_list_changed.
    unfold commit_events.
    destruct (onTodoListChanged w) eqn:L; simpl;
      intro H; injection H as <- <-; simpl;
      (split; [constructor; simpl; try congruence; try lia
              | split; [reflexivity | congruence]]).
Qed.

(** ** Operation notifications *)

Lemma emit_all_nil (w : World) : emit_all [] w = w.
Proof. destruct w. reflexivity. Qed.

Lemma notifyOperation_run (t : Todo) (op : string) (w : World) :
  _notifyOperation t op w =
  (Return tt, emit_all (operation_events (onTodoOperation w) op [t]) w).
Proof.
  unfold _notifyOperation, bind, get, modify, operation_events.
  destruct (onTodoOperation w); simpl; [reflexivity|].
  now rewrite emit_all_nil.
Qed.

Lemma forEach_notify_run (op : string) (l : list Todo) (w : World) :
  forEach (fun t => _notifyOperation t op) l w =
  (Return tt, emit_all (operation_events (onTodoOperation w) op l) w).
Proof.
  revert w. induction l as [|t r IH]; intro w.
  - unfold operation_events. simpl.
    destruct (onTodoOperation w); simpl; now rewrite emit_all_nil.
  - simpl forEach. unfold bind. rewrite notifyOperation_run, IH.
    unfold operation_events, emit_all. simpl.
    destruct (onTodoOperation w); simpl.
    + now rewrite <- app_assoc.
    + reflexivity.
Qed.

(** ** Counting events *)

Lemma count_app (p : Event -> bool) (a b : list Event) :
  List.length (filter p (a ++ b))
  = List.length (filter p a) + List.length (filter p b).
Proof. now rewrite filter_app, length_app. Qed.

Lemma count_commit_events_write (bound : bool) (l : list Todo) :
  List.length (filter is_write (commit_events bound l)) = 1.
Proof. destruct bound; reflexivity. Qed.

Lemma count_commit_events_changed (bound : bool) (l : list Todo) :
  List.length (filter is_list_changed (commit_events bound l))
  = if bound then 1 else 0.
Proof. destruct bound; reflexivity. Qed.

Lemma count_commit_events_operation (op : string) (bound : bool) (l : list Todo) :
  List.length (filter (is_operation op) (commit_events bound l)) = 0.
Proof. destruct bound; reflexivity. Qed.

Lemma count_operation_events (p : Event -> bool) (bound : bool)
      (op : string) (l : list Todo) :
  (forall t, p (Operation t op) = false) ->
  List.length (filter p (operation_events bound op l)) = 0.
Proof.
  intro H. unfold operation_events. destruct bound; [|reflexivity].
  rewrite <- map_rev. induction (rev l) as [|t r IH]; simpl; [reflexivity|].
  now rewrite H.
Qed.

Lemma count_operation_events_same (bound : bool) (op : string) (l : list Todo) :
  List.length (filter (is_operation op) (operation_events bound op l))
  = if bound then List.length l else 0.
Proof.
  unfold operation_events. destruct bound; [|reflexivity].
  rewrite <- map_rev, <- (length_rev l).
  induction (rev l) as [|t r IH]; simpl; [reflexivity|].
  rewrite String.eqb_refl. simpl. now rewrite IH.
Qed.

Lemma filter_split_length {A} (p : A -> bool) (l : list A) :
  List.length l - List.length (filter (fun x => negb (p x)) l)
  = List.length (filter p l).
Proof.
  assert (H : List.length (filter p l)
              + List.length (filter (fun x => negb (p x)) l) = List.length l).
  { induction l as [|x r IH]; [reflexivity|].
    cbn [filter]. destruct (p x); cbn [negb List.length]; lia. }
  lia.
Qed.

(** ** Bulk removal *)

(** C10 (as amended).  [deleteMultipleTodos(ids)] always removes the
    matching items from the in-memory collection, also when [ids] is
    empty or matches no item.  On a durable store that accepts the
    write it performs exactly one commit (one storage write and, when a
    change-listener is bound, one call of it), returns the number of
    items actually removed and notifies one "delete" operation per
    removed item.  On a durable store that refuses the write it throws
    [STORAGE_ERROR] instead: no count is returned, nothing is written
    and no listener is called, although the items are already gone from
    memory.  [clearCompleted()] is that call on the identifiers of the
    completed items. *)
Theorem deleteMultipleTodos_one_commit (ids : list string) (w : World) :
  let removed := filter (fun t => JsString.includes ids (id t)) (todos w) in
  let kept := filter (fun t => negb (JsString.includes ids (id t))) (todos w) in
  clearCompleted w
  = deleteMultipleTodos (map id (filter complete (todos w))) w /\
  exists o w',
    deleteMultipleTodos ids w = (o, w') /\
    todos w' = kept /\
    if refuses_writes (localStorage w)
    then (exists ts,
             o = Throw (TodoError STORAGE_ERROR "Failed to persist todos" ts)) /\
         localStorage w' = localStorage w /\
         trace w' = trace w
    else o = Return (List.length removed) /\
         trace w' = (operation_events (onTodoOperation w) "delete" removed
                     ++ commit_events (onTodoListChanged w) kept
                     ++ trace w)%list /\
         writes w' = writes w + 1 /\
         list_changes w'
         = list_changes w + (if onTodoListChanged w then 1 else 0) /\
         operations "delete" w'
         = operations "delete" w
           + (if onTodoOperation w then List.length removed else 0).
Proof.
  intros removed kept. split; [reflexivity|].
  unfold deleteMultipleTodos. unfold bind at 1. unfold get at 1.
  unfold bind at 1. unfold modify at 1.
  unfold bind at 1. unfold get at 1. simpl todos.
  fold kept. fold removed. unfold bind at 1.
  destruct (_commit kept (set_todos kept w)) as [oc w1] eqn:C.
  apply commit_run in C. simpl in C.
  destruct C as [CF C]. open_frame CF.
  destruct (refuses_writes (localStorage w)) eqn:R.
  - destruct C as ([ts ->] & Hs & Ht).
    do 2 eexists. split; [reflexivity|]. simpl in *.
    split; [exact cf_todos|]. split; [eauto|]. split; assumption.
  - destruct C as [-> Htrace].
    unfold bind at 1. rewrite forEach_notify_run.
    unfold bind, get, ret. simpl in *.
    rewrite cf_todos, cf_operation.
    do 2 eexists. split; [reflexivity|]. simpl.
    split; [exact cf_todos|].
    assert (Hlen : List.length (todos w) - List.length kept
                   = List.length removed).
    { unfold kept, removed. now rewrite filter_split_length. }
    split; [now rewrite Hlen|].
    assert (Htr : trace (emit_all (operation_events (onTodoOperation w)
                                                    "delete" removed) w1)
                  = (operation_events (onTodoOperation w) "delete" removed
                     ++ commit_events (onTodoListChanged w) kept
                     ++ trace w)%list).
    { simpl. now rewrite Htrace. }
    split; [exact Htr|].
    unfold writes, list_changes, operations. rewrite Htr.
    rewrite !count_app.
    rewrite count_commit_events_write, count_commit_events_changed,
      count_commit_events_operation, count_operation_events_same.
    rewrite !count_operation_events by reflexivity.
    repeat split; lia.
Qed.

(** C10, the claim as stated fails: on a durable store that refuses the
    write, [deleteMultipleTodos] of the id of the only item throws
    [STORAGE_ERROR]; no count is returned, nothing is written and no
    listener is called, yet the item is gone from memory. *)
Lemma deleteMultipleTodos_refused_write :
  exists ts w',
    deleteMultipleTodos ["a"] one_pending_full
    = (Throw (TodoError STORAGE_ERROR "Failed to persist todos" ts), w') /\
    todos w' = [] /\
    writes w' = 0 /\ list_changes w' = 0 /\ operations "delete" w' = 0 /\
    onTodoListChanged one_pending_full = true /\
    onTodoOperation one_pending_full = true.
Proof.
  do 2 eexists. split; [vm_compute; reflexivity|].
  repeat split.
Qed.

(** ** Partial update *)

Lemma validateTodoText_run (s : string) (w : World) :
  if text_accepted s
  then _validateTodoText s w = (Return tt, w)
  else exists msg,
      _validateTodoText s w
      = (Throw (TodoError VALIDATION_FAILED msg (Time (clock w (ticks w)))), tick w).
Proof.
  unfold text_accepted, _validateTodoText.
  destruct (JsString.truthy s); simpl; [|eexists; reflexivity].
  destruct (Nat.eqb _ 0); simpl; [eexists; reflexivity|].
  destruct (Nat.ltb _ _); simpl; [eexists; reflexivity | reflexivity].
Qed.

Lemma updateTodo_run (id0 : string) (updates : ITodoUpdate) (w : World)
      (o : Outcome Todo) (w' : World) :
  updateTodo id0 updates w = (o, w') ->
  match find_by_id id0 (todos w) with
  | None => (exists e, o = Throw e) /\ quiet_step w w'
  | Some t =>
      if update_text_accepted updates
      then match errors_of (merged_data t updates) with
           | [] =>
               let u := constructed (merged_data t updates) w in
               if refuses_writes (localStorage w)
               then (exists e, o = Throw e)
                    /\ commit_frame (replace_by_id id0 u (todos w)) w w'
                    /\ localStorage w' = localStorage w
                    /\ trace w' = trace w
               else o = Return u /\ updated id0 u w w'
           | _ => (exists e, o = Throw e) /\ quiet_step w w'
           end
      else (exists e, o = Throw e) /\ quiet_step w w'
  end.
Proof.
  unfold updateTodo. unfold bind at 1. unfold _findTodoById, get.
  destruct (find_by_id id0 (todos w)) as [t|] eqn:F.
  - unfold bind at 1.
    assert (Hv : if update_text_accepted updates
                 then match u_text updates with
                      | Some (Some s) => _validateTodoText s
                      | _ => ret tt
                      end w = (Return tt, w)
                 else exists e,
                     match u_text updates with
                     | Some (Some s) => _validateTodoText s
                     | _ => ret tt
                     end w = (Throw e, tick w)).
    { unfold update_text_accepted.
      destruct (u_text updates) as [[s|]|]; try reflexivity.
      assert (H := validateTodoText_run s w).
      destruct (text_accepted s); [exact H|].
      destruct H as [msg H]. eauto. }
    destruct (update_text_accepted updates).
    + rewrite Hv. cbv beta iota. unfold bind at 1.
      destruct (errors_of_dec (merged_data t updates)) as [E|E].
      * rewrite (new_Todo_accepts _ _ E), E. cbv beta iota.
        set (u := constructed (merged_data t updates) w).
        assert (Q : quiet_step w
                      (tick (tick (draw (after_validate (merged_data t updates) w))))).
        { eapply quiet_new_Todo. apply (new_Todo_accepts _ w E). }
        remember (tick (tick (draw (after_validate (merged_data t updates) w))))
          as w0 eqn:Ew0. clear Ew0.
        open_quiet Q.
        unfold bind, modify. cbv beta iota. simpl todos. rewrite qs_todos.
        fold (replace_by_id id0 u (todos w)).
        destruct (_commit (replace_by_id id0 u (todos w))
                          (set_todos (replace_by_id id0 u (todos w)) w0))
          as [oc w1] eqn:C.
        apply commit_run in C. simpl in C. rewrite qs_storage in C.
        destruct C as [CF0 C]. open_frame CF0.
        simpl in *.
        assert (CF : commit_frame (replace_by_id id0 u (todos w)) w w1).
        { constructor; try congruence; try lia. }
        destruct (refuses_writes (localStorage w)).
        -- destruct C as [[ts ->] [C1 C2]]. intro H. injection H as <- <-.
           split; [eauto|]. split; [exact CF|]. split; congruence.
        -- destruct C as [-> C].
           rewrite notifyOperation_run. unfold ret. intro H.
           injection H as <- <-. split; [reflexivity|].
           constructor.
           ++ destruct CF as [F1 F2 F3 F4 F5 F6 F7 F8 F9].
              constructor; simpl; assumption.
           ++ simpl. rewrite cf_operation, qs_operation, C, qs_list_changed,
                qs_trace. reflexivity.
      * rewrite (new_Todo_rejects _ _ E).
        destruct (errors_of (merged_data t updates)); [now elim E|].
        intro H. injection H as <- <-. split; [eauto|].
        apply quiet_step_after_validate.
    + destruct Hv as [e ->]. intro H. injection H as <- <-.
      split; [eauto | apply quiet_step_tick].
  - intro H. split.
    + unfold throw_TodoError, new_TodoError, bind, new_Date, ret, throw in H.
      injection H as <- _. eauto.
    + eapply (@quiet_throw_TodoError Todo). exact H.
Qed.

(** ** Well-formed items *)

Lemma errors_of_nil (data : ITodoData) :
  errors_of data = [] <->
  text_missing data = false /\ text_too_long data = false /\
  description_too_long data = false /\ invalid_priority data = false /\
  invalid_status data = false.
Proof.
  unfold errors_of.
  destruct (text_missing data), (text_too_long data),
    (description_too_long data), (invalid_priority data),
    (invalid_status data); cbn; split; intro H;
    try discriminate; try reflexivity; try tauto;
    repeat split; try reflexivity;
    destruct H as (? & ? & ? & ? & ?); discriminate.
Qed.

(** The merged data of a toggle on a well-formed item is accepted. *)
Lemma toggle_data_accepted (t : Todo) (c : bool) :
  well_formed t -> errors_of (merged_data t (toggle_update c)) = [].
Proof.
  unfold well_formed. rewrite !errors_of_nil.
  intros (H1 & H2 & H3 & H4 & _).
  repeat split; try assumption.
  destruct c; reflexivity.
Qed.

(** The constructor yields well-formed items. *)
Lemma init_Todo_well_formed (data : ITodoData) (i : string) (c u : Date) :
  errors_of data = [] -> well_formed (init_Todo data i c u).
Proof.
  unfold well_formed. rewrite !errors_of_nil.
  intros (H1 & H2 & H3 & H4 & H5).
  unfold text_missing, text_too_long, description_too_long,
    invalid_priority, invalid_status in *.
  cbn [data_of_todo init_Todo d_text d_description d_priority d_status
       text description priority status].
  repeat split.
  - destruct (d_text data) as [s|]; [|discriminate].
    rewrite trim_idempotent.
    apply orb_false_iff in H1 as [_ H1]. rewrite H1, orb_false_r.
    apply negb_false_iff, truthy_true_nonempty. intro E. rewrite E in H1.
    discriminate.
  - destruct (d_text data) as [s|]; [|discriminate].
    rewrite trim_idempotent.
    destruct (JsString.truthy s) eqn:T.
    + simpl in H2. rewrite H2. apply andb_false_r.
    + apply truthy_false_empty in T. subst s. reflexivity.
  - destruct (d_description data) as [s|]; [|reflexivity].
    cbv zeta. destruct (JsString.truthy (JsString.trim s)) eqn:T; [|reflexivity].
    rewrite trim_idempotent, T. simpl.
    destruct (JsString.truthy s) eqn:T'.
    + exact H3.
    + apply truthy_false_empty in T'. subst s. discriminate.
  - destruct (d_priority data) as [p|]; [exact H4 | reflexivity].
  - destruct (d_status data) as [s|]; [exact H5|].
    destruct (d_complete data) as [[|]|]; reflexivity.
Qed.

(** ** Toggle *)

(** C4 (as amended).  [toggleTodo(id)] always leaves the item Completed
    and complete when it was incomplete, and Pending and incomplete when
    it was complete, whatever its status was: no item is ever moved
    into Archived, and an Archived item is moved out of Archived.  The
    other items are untouched, and on a well-formed item and a durable
    store that accepts the write the call does return. *)
Theorem toggleTodo_sets_pending_or_completed
        (id0 : string) (w : World) (t : Todo) :
  find_by_id id0 (todos w) = Some t ->
  (forall u w',
      toggleTodo id0 w = (Return u, w') ->
      complete u = negb (complete t) /\
      status u = (if complete t then TodoStatus.PENDING
                  else TodoStatus.COMPLETED) /\
      status u <> TodoStatus.ARCHIVED /\
      todos w' = replace_by_id id0 u (todos w)) /\
  (well_formed t -> refuses_writes (localStorage w) = false ->
   exists u w', toggleTodo id0 w = (Return u, w')).
Proof.
  intro F.
  assert (T : toggleTodo id0 w
              = updateTodo id0 (toggle_update (negb (complete t))) w).
  { unfold toggleTodo, bind, _findTodoById, get. now rewrite F. }
  rewrite T. split.
  - intros u w' H. apply updateTodo_run in H. rewrite F in H.
    cbn [update_text_accepted toggle_update u_text] in H.
    destruct (errors_of _); [|destruct H as [[e H] _]; discriminate].
    cbv zeta in H.
    destruct (refuses_writes _); [destruct H as [[e H] _]; discriminate|].
    destruct H as [H [[] _]]. injection H as ->.
    unfold constructed, init_Todo. cbn.
    repeat split; try assumption; destruct (complete t); cbn;
      try reflexivity; discriminate.
  - intros WF R.
    destruct (updateTodo id0 (toggle_update (negb (complete t))) w)
      as [o w'] eqn:H.
    apply updateTodo_run in H. rewrite F in H.
    cbn [update_text_accepted toggle_update u_text] in H.
    fold (toggle_update (negb (complete t))) in H.
    rewrite (toggle_data_accepted t _ WF), R in H.
    destruct H as [-> _]. eauto.
Qed.

Lemma toggleTodo_sets_pending_or_completed_witness :
  exists u w', toggleTodo "a" one_archived = (Return u, w')
               /\ status u = TodoStatus.COMPLETED.
Proof.
  destruct (@toggleTodo_sets_pending_or_completed
              "a" one_archived archived_open eq_refl)
    as [Hinv Hrun].
  destruct (Hrun eq_refl eq_refl) as (u & w' & H).
  exists u, w'. split; [exact H|].
  destruct (Hinv u w' H) as (_ & Hs & _). exact Hs.
Defined.

(** C4, the claim as stated fails: toggling an Archived, incomplete item
    makes it Completed. *)
Lemma toggleTodo_moves_archived_item :
  exists u w',
    toggleTodo "a" one_archived = (Return u, w') /\
    find_by_id "a" (todos one_archived) = Some archived_open /\
    status archived_open = TodoStatus.ARCHIVED /\
    status u = TodoStatus.COMPLETED /\
    status u <> TodoStatus.ARCHIVED /\
    Forall (fun x => status x <> TodoStatus.ARCHIVED) (todos w').
Proof.
  do 2 eexists. split; [vm_compute; reflexivity|].
  do 3 (split; [reflexivity|]). split; [discriminate|].
  repeat constructor. discriminate.
Qed.

(** ** Toggle all *)

Lemma replace_by_id_app (id0 : string) (u : Todo) (a b : list Todo) :
  replace_by_id id0 u (a ++ b)
  = (replace_by_id id0 u a ++ replace_by_id id0 u b)%list.
Proof. apply map_app. Qed.

Lemma replace_by_id_other (id0 : string) (u : Todo) (l : list Todo) :
  ~ In id0 (map id l) -> replace_by_id id0 u l = l.
Proof.
  induction l as [|x r IH]; simpl; intro H; [reflexivity|].
  destruct (id x =? id0) eqn:E.
  - apply String.eqb_eq in E. elim H. now left.
  - f_equal. apply IH. intro Hin. apply H. now right.
Qed.

Lemma replace_by_id_Forall (P : Todo -> Prop) (id0 : string) (u : Todo)
      (l : list Todo) :
  P u -> Forall P l -> Forall P (replace_by_id id0 u l).
Proof.
  intros Hu Hl. unfold replace_by_id. apply Forall_map.
  eapply Forall_impl; [|exact Hl]. intros x Hx.
  destruct (id x =? id0); assumption.
Qed.

Lemma replace_by_id_length (id0 : string) (u : Todo) (l : list Todo) :
  List.length (replace_by_id id0 u l) = List.length l.
Proof. apply length_map. Qed.

Lemma find_by_id_present (id0 : string) (l : list Todo) :
  In id0 (map id l) ->
  exists t, find_by_id id0 l = Some t /\ In t l.
Proof.
  intro H. unfold find_by_id.
  destruct (find (fun todo => id todo =? id0) l) as [t|] eqn:F.
  - exists t. split; [reflexivity|]. now apply find_some in F.
  - apply in_map_iff in H as (x & Hx & Hin).
    apply (find_none _ _ F) in Hin. simpl in Hin.
    rewrite Hx, String.eqb_refl in Hin. discriminate.
Qed.

Lemma toggled_constructed (t : Todo) (c : bool) (w : World) :
  toggled c (constructed (merged_data t (toggle_update c)) w).
Proof. split; reflexivity. Qed.

Lemma updated_counts (id0 : string) (u : Todo) (w w' : World) :
  updated id0 u w w' ->
  writes w' = writes w + 1 /\
  list_changes w' = list_changes w + (if onTodoListChanged w then 1 else 0) /\
  operations "update" w'
  = operations "update" w + (if onTodoOperation w then 1 else 0).
Proof.
  intros [_ Htrace]. unfold writes, list_changes, operations. rewrite Htrace.
  rewrite !count_app.
  rewrite count_commit_events_write, count_commit_events_changed,
    count_commit_events_operation, count_operation_events_same.
  rewrite !count_operation_events by reflexivity.
  repeat split; simpl; lia.
Qed.

Lemma toggle_loop (c : bool) (rest : list Todo) :
  forall (pre : list Todo) (w : World),
    todos w = (pre ++ rest)%list ->
    refuses_writes (localStorage w) = false ->
    NoDup (map id rest) ->
    Forall well_formed pre -> Forall well_formed rest ->
    Forall (toggled c) pre ->
    exists us w',
      updateMultipleTodos (map (fun t => (id t, toggle_update c)) rest) w
      = (Return us, w') /\
      List.length us = List.length rest /\
      Forall (toggled c) us /\
      Forall (toggled c) (todos w') /\
      List.length (todos w') = List.length (todos w) /\
      writes w' = writes w + List.length rest /\
      list_changes w'
      = list_changes w + (if onTodoListChanged w then List.length rest else 0).
Proof.
  induction rest as [|t r IH]; intros pre w Htodos R ND WFpre WFrest Tpre.
  - exists [], w. rewrite app_nil_r in Htodos. rewrite Htodos.
    repeat split; auto. simpl. destruct (onTodoListChanged w); lia.
  - cbn [map updateMultipleTodos]. unfold bind at 1. unfold try_catch.
    unfold bind at 1.
    destruct (updateTodo (id t) (toggle_update c) w) as [o w1] eqn:U.
    apply updateTodo_run in U.
    destruct (@find_by_id_present (id t) (todos w)) as (t0 & F & Hin).
    { rewrite Htodos, map_app. apply in_or_app. right. now left. }
    rewrite F in U. cbn [update_text_accepted toggle_update u_text] in U.
    fold (toggle_update c) in U.
    assert (WF0 : well_formed t0).
    { rewrite Htodos in Hin. apply in_app_or in Hin as [Hin|Hin].
      - exact (proj1 (Forall_forall _ _) WFpre _ Hin).
      - exact (proj1 (Forall_forall _ _) WFrest _ Hin). }
    rewrite (toggle_data_accepted t0 c WF0), R in U. cbv zeta in U.
    set (u := constructed (merged_data t0 (toggle_update c)) w) in *.
    destruct U as [-> Hup]. cbv beta iota. unfold ret at 1.
    destruct (updated_counts _ _ _ _ Hup) as (Hw & Hc & _).
    destruct Hup as [CF _]. open_frame CF.
    inversion ND as [|? ? Hnotin ND']; subst.
    inversion WFrest as [|? ? WFt WFr]; subst.
    assert (Htodos1 : todos w1 = ((replace_by_id (id t) u pre ++ [u]) ++ r)%list).
    { rewrite cf_todos, Htodos, replace_by_id_app. cbn [replace_by_id map].
      rewrite String.eqb_refl. fold (replace_by_id (id t) u r).
      rewrite (replace_by_id_other _ _ _ Hnotin), <- app_assoc. reflexivity. }
    assert (Tu : toggled c u) by apply toggled_constructed.
    assert (WFu : well_formed u) by
        (apply init_Todo_well_formed, toggle_data_accepted, WF0).
    destruct (IH (replace_by_id (id t) u pre ++ [u])%list w1)
      as (us & w' & Hrun & Hlen & Tus & Tall & Hlen' & Hw' & Hc'); auto.
    + congruence.
    + apply Forall_app. split; [apply replace_by_id_Forall; assumption|].
      now constructor.
    + apply Forall_app. split; [apply replace_by_id_Forall; assumption|].
      now constructor.
    + unfold bind. rewrite Hrun. unfold ret.
      exists (u :: us), w'. split; [reflexivity|].
      split; [simpl; now rewrite Hlen|].
      split; [now constructor|]. split; [exact Tall|].
      split; [rewrite Hlen', cf_todos; apply replace_by_id_length|].
      split; [simpl; lia|].
      rewrite Hc', Hc, cf_list_changed.
      destruct (onTodoListChanged w); simpl; lia.
Qed.

(** C5 (as amended).  On a store of [n] well-formed items with pairwise
    distinct identifiers and a durable store that accepts writes,
    [toggleAll(flag)] applies the toggle semantics to every item
    ([complete] is the flag, [status] follows it), through one
    [updateTodo] per item: it performs [n] commits, that is [n] storage
    writes and, when a change-listener is bound, [n] calls of it. *)
Theorem toggleAll_commits_per_item (c : bool) (w : World) :
  refuses_writes (localStorage w) = false ->
  NoDup (map id (todos w)) ->
  Forall well_formed (todos w) ->
  exists us w',
    toggleAll c w = (Return us, w') /\
    List.length us = List.length (todos w) /\
    Forall (toggled c) us /\
    Forall (toggled c) (todos w') /\
    List.length (todos w') = List.length (todos w) /\
    writes w' = writes w + List.length (todos w) /\
    list_changes w'
    = list_changes w
      + (if onTodoListChanged w then List.length (todos w) else 0).
Proof.
  intros R ND WF. unfold toggleAll, bind, get.
  apply (toggle_loop c (todos w) [] w); auto.
Qed.

Lemma toggleAll_commits_per_item_witness :
  exists us w',
    toggleAll true two_pending = (Return us, w') /\
    Forall (toggled true) (todos w') /\
    writes w' = 2 /\ list_changes w' = 2.
Proof.
  destruct (toggleAll_commits_per_item true two_pending) as
      (us & w' & H & _ & _ & Ht & _ & Hw & Hc).
  - reflexivity.
  - repeat constructor; simpl; intuition discriminate.
  - repeat constructor.
  - exists us, w'. repeat split; assumption.
Defined.

(** C5, the claim as stated fails: on two items [toggleAll] writes the
    durable store twice and calls the change-listener twice. *)
Lemma toggleAll_two_items_two_commits :
  exists us w',
    toggleAll true two_pending = (Return us, w') /\
    List.length (todos two_pending) = 2 /\
    writes two_pending = 0 /\ list_changes two_pending = 0 /\
    writes w' = 2 /\ list_changes w' = 2 /\
    writes w' <> 1 /\ list_changes w' <> 1.
Proof.
  do 2 eexists. split; [vm_compute; reflexivity|].
  repeat split; try reflexivity; vm_compute; discriminate.
Qed.

(** ** Statistics *)

Lemma overdue_from_frozen (clk : nat -> Z) (now : Z) (l : list Todo) :
  (forall i, clk i = now) ->
  forall k, overdue_from clk k l = List.length (filter (overdue_at now) l).
Proof.
  intro H. induction l as [|t r IH]; intro k; [reflexivity|].
  cbn [overdue_from filter]. unfold overdue_at at 2.
  destruct (dueDate t) as [d|] eqn:D.
  - rewrite IH, H. unfold overdue_at at 1. rewrite D.
    destruct (Date_gt (Time now) d && negb (complete t)); reflexivity.
  - apply IH.
Qed.

Lemma bump_status_counts (s : string) (c : StatusCounts) :
  n_pending (bump_status s c)
  = n_pending c + (if s =? TodoStatus.PENDING then 1 else 0) /\
  n_completed (bump_status s c)
  = n_completed c + (if s =? TodoStatus.COMPLETED then 1 else 0) /\
  n_archived (bump_status s c)
  = n_archived c + (if s =? TodoStatus.ARCHIVED then 1 else 0).
Proof.
  unfold bump_status.
  destruct (s =? TodoStatus.PENDING) eqn:E1.
  { apply String.eqb_eq in E1. subst s. cbn. repeat split; lia. }
  destruct (s =? TodoStatus.COMPLETED) eqn:E2.
  { apply String.eqb_eq in E2. subst s. cbn. repeat split; lia. }
  destruct (s =? TodoStatus.ARCHIVED) eqn:E3; cbn; repeat split; lia.
Qed.

Lemma bump_priority_counts (p : string) (c : PriorityCounts) :
  n_low (bump_priority p c)
  = n_low c + (if p =? TodoPriority.LOW then 1 else 0) /\
  n_medium (bump_priority p c)
  = n_medium c + (if p =? TodoPriority.MEDIUM then 1 else 0) /\
  n_high (bump_priority p c)
  = n_high c + (if p =? TodoPriority.HIGH then 1 else 0) /\
  n_critical (bump_priority p c)
  = n_critical c + (if p =? TodoPriority.CRITICAL then 1 else 0).
Proof.
  unfold bump_priority.
  destruct (p =? TodoPriority.LOW) eqn:E1.
  { apply String.eqb_eq in E1. subst p. cbn. repeat split; lia. }
  destruct (p =? TodoPriority.MEDIUM) eqn:E2.
  { apply String.eqb_eq in E2. subst p. cbn. repeat split; lia. }
  destruct (p =? TodoPriority.HIGH) eqn:E3.
  { apply String.eqb_eq in E3. subst p. cbn. repeat split; lia. }
  destruct (p =? TodoPriority.CRITICAL) eqn:E4; cbn; repeat split; lia.
Qed.

Lemma if_length {A} (b : bool) (x : A) (l : list A) :
  List.length (if b then x :: l else l) = (if b then 1 else 0) + List.length l.
Proof. destruct b; reflexivity. Qed.

Lemma count_todo_run (s : Statistics) (t : Todo) (w : World) :
  exists s1 w1,
    count_todo s t w = (Return s1, w1) /\
    clock w1 = clock w /\
    ticks w1 = (match dueDate t with Some _ => S (ticks w) | None => ticks w end) /\
    counted [t] (clock w) (ticks w) s s1.
Proof.
  unfold count_todo, bind, isOverdue.
  destruct (bump_status_counts (status t) (byStatus s)) as (S1 & S2 & S3).
  destruct (bump_priority_counts (priority t) (byPriority s))
    as (P1 & P2 & P3 & P4).
  destruct (dueDate t) as [d|] eqn:D; cbn [new_Date ret bind];
    do 2 eexists; (split; [reflexivity|]); (split; [reflexivity|]);
    (split; [reflexivity|]);
    constructor; cbn [total completed pending overdue byStatus byPriority
                      filter overdue_from];
    unfold has_status, has_priority, overdue_at; rewrite ?D;
    rewrite ?if_length; cbn [List.length];
    try rewrite S1; try rewrite S2; try rewrite S3;
    try rewrite P1; try rewrite P2; try rewrite P3; try rewrite P4;
    try (destruct (complete t); simpl; lia);
    try (destruct (isPending t); simpl; lia);
    try (destruct (Date_gt _ _ && _); simpl; lia);
    try lia.
Qed.

Lemma foldM_count_todo (l : list Todo) :
  forall (s : Statistics) (w : World),
  exists s' w',
    foldM count_todo s l w = (Return s', w') /\
    counted l (clock w) (ticks w) s s'.
Proof.
  induction l as [|t r IH]; intros s w.
  - exists s, w. split; [reflexivity|]. constructor; simpl; lia.
  - cbn [foldM]. unfold bind.
    destruct (count_todo_run s t w) as (s1 & w1 & -> & Hclk & Hticks & []).
    destruct (IH s1 w1) as (s' & w' & -> & []).
    exists s', w'. split; [reflexivity|].
    rewrite Hclk, Hticks in *.
    constructor; cbn [filter overdue_from] in *;
      unfold has_status, has_priority in *; rewrite ?if_length in *;
      cbn [List.length] in *; try lia.
    destruct (dueDate t); lia.
Qed.

(** C6 (as amended).  For every collection the statistics operation
    returns: total = number of items; completed = number of items with
    [complete]; pending = number of items that are Pending and not
    complete (the [isPending] getter); overdue = number of items that
    have a due date before the clock reading taken when they are
    visited and are not complete (with a clock that reads [now]
    throughout: the items overdue at [now]); and one count per
    enumerated status and priority, zero when no item has it. *)
Theorem getTodoStatistics_counts (l : list Todo) (w : World) :
  exists s w',
    getTodoStatistics l w = (Return s, w') /\
    total s = List.length l /\
    completed s = List.length (filter complete l) /\
    pending s = List.length (filter isPending l) /\
    overdue s = overdue_from (clock w) (ticks w) l /\
    (forall now, (forall i, clock w i = now) ->
                 overdue s = List.length (filter (overdue_at now) l)) /\
    byStatus s
    = mkStatusCounts
        (List.length (filter (has_status TodoStatus.PENDING) l))
        (List.length (filter (has_status TodoStatus.COMPLETED) l))
        (List.length (filter (has_status TodoStatus.ARCHIVED) l)) /\
    byPriority s
    = mkPriorityCounts
        (List.length (filter (has_priority TodoPriority.LOW) l))
        (List.length (filter (has_priority TodoPriority.MEDIUM) l))
        (List.length (filter (has_priority TodoPriority.HIGH) l))
        (List.length (filter (has_priority TodoPriority.CRITICAL) l)).
Proof.
  unfold getTodoStatistics.
  destruct (foldM_count_todo l
              (mkStatistics (List.length l) 0 0 0
                            (mkStatusCounts 0 0 0) (mkPriorityCounts 0 0 0 0)) w)
    as (s & w' & H & C).
  destruct C as [ct_total ct_completed ct_pending ct_overdue
                 ct_st_pending ct_st_completed ct_st_archived
                 ct_low ct_medium ct_high ct_critical].
  exists s, w'. cbn in *.
  repeat (split; [assumption|]).
  split; [intros now Hnow; rewrite ct_overdue; now apply overdue_from_frozen|].
  split.
  - destruct (byStatus s); cbn in *. congruence.
  - destruct (byPriority s); cbn in *. congruence.
Qed.

(** C6, the claim as stated fails: for one Archived, incomplete item the
    pending count is 0 while total - completed is 1. *)
Lemma getTodoStatistics_pending_differs :
  exists s w',
    getTodoStatistics [archived_open] (sample_world [] false) = (Return s, w') /\
    total s = 1 /\ completed s = 0 /\ pending s = 0 /\
    pending s <> total s - completed s.
Proof.
  do 2 eexists. split; [vm_compute; reflexivity|].
  repeat split; discriminate.
Qed.

(** ** Import and restore *)

Lemma new_Todo_throws_Error (data : ITodoData) (w : World) (e : Exn) (w' : World) :
  new_Todo data w = (Throw e, w') -> exists msg, e = Error msg.
Proof.
  destruct (errors_of_dec data) as [E|E].
  - rewrite (new_Todo_accepts _ _ E). discriminate.
  - rewrite (new_Todo_rejects _ _ E). intro H. injection H as <- _. eauto.
Qed.

Lemma construct_all_throws_Error (entries : list TodoJSON) :
  forall (w : World) (e : Exn) (w' : World),
    construct_all entries w = (Throw e, w') -> exists msg, e = Error msg.
Proof.
  unfold construct_all.
  induction entries as [|x r IH]; intros w e w'; cbn [mapM].
  - discriminate.
  - unfold bind at 1.
    destruct (new_Todo (j_data x) w) as [[t|e1] w1] eqn:N.
    + unfold bind.
      destruct (mapM (fun entry => new_Todo (j_data entry)) r w1)
        as [[l|e2] w2] eqn:R.
      * discriminate.
      * intro H. injection H as <- _. eapply IH. exact R.
    + intro H. injection H as <- _. eapply new_Todo_throws_Error. exact N.
Qed.

(** One entry the constructor rejects makes the whole [map] throw. *)
Lemma construct_all_rejects (entries : list TodoJSON) (bad : TodoJSON) :
  In bad entries -> errors_of (j_data bad) <> [] ->
  forall w, exists e w', construct_all entries w = (Throw e, w').
Proof.
  unfold construct_all. intros Hin Hbad.
  induction entries as [|x r IH]; intro w; [destruct Hin|].
  cbn [mapM]. unfold bind at 1.
  destruct (new_Todo (j_data x) w) as [[t|e1] w1] eqn:N; [|eauto].
  destruct Hin as [->|Hin].
  - rewrite (new_Todo_rejects _ _ Hbad) in N. discriminate.
  - unfold bind. destruct (IH Hin w1) as (e & w' & ->). eauto.
Qed.

Lemma validateTodo_returns (t : Todo) (w : World) :
  exists b w', validateTodo t w = (Return b, w').
Proof.
  unfold validateTodo, try_catch.
  destruct (_ || _); [do 2 eexists; reflexivity|].
  unfold bind. assert (H := validateTodoText_run (text t) w).
  destruct (text_accepted (text t)).
  - rewrite H. destruct (dueDate t) as [d|]; [destruct (Date_isNaN d)|];
      do 2 eexists; reflexivity.
  - destruct H as [msg ->]. do 2 eexists; reflexivity.
Qed.

Lemma filterM_validateTodo_returns (l : list Todo) :
  forall w, exists valid w',
      filterM validateTodo l w = (Return valid, w') /\ incl valid l.
Proof.
  induction l as [|t r IH]; intro w.
  - exists [], w. split; [reflexivity | apply incl_refl].
  - cbn [filterM]. unfold bind at 1.
    destruct (validateTodo_returns t w) as (b & w1 & ->).
    unfold bind. destruct (IH w1) as (valid & w' & -> & Hincl).
    unfold ret. do 2 eexists. split; [reflexivity|].
    destruct b.
    + intros x [<-|Hx]; [now left | right; now apply Hincl].
    + intros x Hx. right. now apply Hincl.
Qed.

(** The outcomes of [importTodos]: it is rejected as invalid data before
    anything is touched, or it reaches the commit. *)
Lemma importTodos_run (data : Payload) (w : World) (o : Outcome nat) (w' : World) :
  importTodos data w = (o, w') ->
  ((exists msg ts, o = Throw (TodoError INVALID_DATA msg ts)) /\
   quiet_step w w' /\
   (forall entries, data = TodosArray entries ->
                    exists e w1, construct_all entries w = (Throw e, w1)))
  \/
  (exists entries imported w1 valid w2,
      data = TodosArray entries /\
      construct_all entries w = (Return imported, w1) /\
      filterM validateTodo imported w1 = (Return valid, w2) /\
      commit_frame (todos w ++ valid) w w' /\
      if refuses_writes (localStorage w)
      then (exists ts, o = Throw (TodoError STORAGE_ERROR
                                            "Failed to persist todos" ts))
           /\ localStorage w' = localStorage w
           /\ trace w' = trace w
      else o = Return (List.length valid)
           /\ trace w' = (commit_events (onTodoListChanged w) (todos w ++ valid)
                          ++ trace w)%list).
Proof.
  unfold importTodos, try_catch. destruct data as [| |entries].
  - cbn. intro H. injection H as <- <-. left.
    split; [eauto|]. split; [apply quiet_step_tick | discriminate].
  - cbn. intro H. injection H as <- <-. left.
    split; [eauto|]. split; [apply quiet_step_tick | discriminate].
  - unfold bind at 1. fold (construct_all entries).
    destruct (construct_all entries w) as [[imported|e] w1] eqn:Hc.
    + assert (Q1 : quiet_step w w1).
      { eapply (quiet_mapM (fun entry => new_Todo (j_data entry)) entries);
          [intro; apply quiet_new_Todo | exact Hc]. }
      unfold bind at 1.
      destruct (filterM_validateTodo_returns imported w1)
        as (valid & w2 & Hf & _).
      rewrite Hf.
      assert (Q2 : quiet_step w1 w2).
      { eapply (quiet_filterM validateTodo imported);
          [intro; apply quiet_validateTodo | exact Hf]. }
      assert (Q : quiet_step w w2) by (eapply quiet_step_trans; eassumption).
      clear Q1 Q2. open_quiet Q.
      unfold bind, get, modify. cbv beta iota. simpl todos. rewrite qs_todos.
      destruct (_commit (todos w ++ valid)%list
                        (set_todos (todos w ++ valid)%list w2)) as [oc w3] eqn:C.
      apply commit_run in C. simpl in C. rewrite qs_storage, qs_list_changed,
                                           qs_trace in C.
      destruct C as [CF0 C]. open_frame CF0. simpl in *.
      assert (CF : commit_frame (todos w ++ valid) w w3).
      { constructor; try congruence; try lia. }
      intro H. right. exists entries, imported, w1, valid, w2.
      split; [reflexivity|]. split; [exact Hc|]. split; [exact Hf|].
      destruct (refuses_writes (localStorage w)).
      * destruct C as [[ts ->] [C1 C2]].
        cbv beta iota delta [throw ret] in H. injection H as <- <-.
        split; [exact CF|]. split; [eauto|]. split; assumption.
      * destruct C as [-> C].
        cbv beta iota delta [throw ret] in H. injection H as <- <-.
        split; [exact CF|]. split; [reflexivity | exact C].
    + destruct (construct_all_throws_Error _ _ _ _ Hc) as [msg ->].
      cbn. intro H. injection H as <- <-. left. split; [eauto|]. split.
      * eapply quiet_step_trans; [|apply quiet_step_tick].
        eapply (quiet_mapM (fun entry => new_Todo (j_data entry)) entries);
          [intro; apply quiet_new_Todo | exact Hc].
      * intros entries' E. injection E as <-. eauto.
Qed.

(** [restoreFromBackup] never throws. *)
Lemma restoreFromBackup_returns (data : Payload) (w : World) :
  exists b w', restoreFromBackup data w = (Return b, w').
Proof.
  unfold restoreFromBackup, try_catch, bind, modify. cbv beta iota.
  destruct (importTodos data (set_todos [] w)) as [[n|e] w1];
    do 2 eexists; reflexivity.
Qed.

(** C9 (as amended).  Whenever [restoreFromBackup] returns [false] the
    pre-restore items are gone and are not rolled back, while the
    durable store still holds the last committed state and no listener
    has been called.  The in-memory collection is empty when the
    failure precedes the commit (unparseable payload, no items array,
    an entry the constructor rejects), which is the only way to fail
    when the durable store accepts writes; when every entry is accepted
    by the constructor, the failure is the refused write itself and the
    collection holds exactly the valid items freshly built from the
    backup. *)
Theorem restoreFromBackup_failure (data : Payload) (w w' : World) :
  restoreFromBackup data w = (Return false, w') ->
  localStorage w' = localStorage w /\
  trace w' = ConsoleError :: trace w /\
  (refuses_writes (localStorage w) = false -> todos w' = []) /\
  match data with
  | Unparseable => todos w' = []
  | NoTodosArray => todos w' = []
  | TodosArray entries =>
      match construct_all entries (set_todos [] w) with
      | (Throw _, _) => todos w' = []
      | (Return imported, w1) =>
          refuses_writes (localStorage w) = true /\
          exists w2,
            filterM validateTodo imported w1 = (Return (todos w'), w2)
      end
  end.
Proof.
  unfold restoreFromBackup, try_catch, bind, modify. cbv beta iota.
  destruct (importTodos data (set_todos [] w)) as [oi wi] eqn:I.
  apply importTodos_run in I.
  destruct I as [([msg [ts ->]] & Q & Hthrow)
                | (entries & imported & w1 & valid & w2 & -> & Hc & Hf & CF & I)];
    [open_quiet Q | open_frame CF].
  - intro H. injection H as <-. simpl in *.
    split; [congruence|]. split; [congruence|]. split; [auto|].
    destruct data as [| |entries]; try assumption.
    destruct (Hthrow entries eq_refl) as (e & w1 & ->). assumption.
  - simpl in I. destruct (refuses_writes (localStorage w)) eqn:R.
    + destruct I as ([ts ->] & I1 & I2). intro H. injection H as <-.
      simpl in *. split; [congruence|]. split; [congruence|].
      split; [discriminate|].
      rewrite Hc. split; [reflexivity|].
      exists w2. rewrite cf_todos. exact Hf.
    + destruct I as [-> _]. discriminate.
Qed.

Lemma restoreFromBackup_failure_witness :
  (localStorage (snd (restoreFromBackup NoTodosArray one_pending))
   = localStorage one_pending /\
   todos (snd (restoreFromBackup NoTodosArray one_pending)) = []) /\
  (refuses_writes (localStorage one_pending_full) = true /\
   List.length
     (todos (snd (restoreFromBackup (TodosArray [entry_of "Call bank"])
                                    one_pending_full))) = 1 /\
   exists imported w1 w2,
     construct_all [entry_of "Call bank"] (set_todos [] one_pending_full)
     = (Return imported, w1) /\
     filterM validateTodo imported w1
     = (Return (todos (snd (restoreFromBackup
                              (TodosArray [entry_of "Call bank"])
                              one_pending_full))), w2)).
Proof.
  split.
  - destruct (restoreFromBackup_failure
                NoTodosArray one_pending
                (snd (restoreFromBackup NoTodosArray one_pending)) eq_refl)
      as (Hs & _ & Ht & _).
    split; [exact Hs | exact (Ht eq_refl)].
  - destruct (restoreFromBackup_failure
                (TodosArray [entry_of "Call bank"]) one_pending_full
                (snd (restoreFromBackup (TodosArray [entry_of "Call bank"])
                                        one_pending_full)) eq_refl)
      as (_ & _ & _ & H).
    revert H.
    destruct (construct_all [entry_of "Call bank"]
                            (set_todos [] one_pending_full))
      as [[imported|e] w1] eqn:E; intro H.
    + destruct H as (R & w2 & H).
      split; [exact R|]. split; [reflexivity|].
      exists imported, w1, w2. split; [reflexivity | exact H].
    + vm_compute in E. discriminate.
Defined.

(** C9, the claim as stated fails: when the durable store refuses the
    write, a failed restore leaves the freshly imported item in memory,
    not the empty collection. *)
Lemma restoreFromBackup_failure_not_empty :
  exists w',
    restoreFromBackup (TodosArray [entry_of "Call bank"]) one_pending_full
    = (Return false, w') /\
    List.length (todos w') = 1 /\
    todos w' <> [] /\
    localStorage w' = localStorage one_pending_full.
Proof.
  eexists. split; [vm_compute; reflexivity|].
  repeat split. discriminate.
Qed.

(** ** Identity of items across update and import *)

(** The entity's own [update] keeps the identity and the creation time
    and refreshes [updatedAt] from the clock. *)
Lemma Todo_update_keeps_identity (t : Todo) (updates : ITodoUpdate) (w : World) :
  exists u,
    Todo_update t updates w = (Return u, tick w) /\
    id u = id t /\ createdAt u = createdAt t /\
    updatedAt u = Time (clock w (ticks w)).
Proof.
  unfold Todo_update, bind, new_Date, ret. eexists.
  split; [reflexivity|]. repeat split.
Qed.

(** The entity's own [toggle] flips [complete] and moves the status
    between Pending and Completed only: an Archived item stays Archived.
    The service does not use it. *)
Lemma Todo_toggle_keeps_archived (t : Todo) (w : World) :
  status t = TodoStatus.ARCHIVED ->
  exists u,
    Todo_toggle t w = (Return u, tick w) /\
    complete u = negb (complete t) /\ status u = TodoStatus.ARCHIVED.
Proof.
  intro H. unfold Todo_toggle, Todo_update, bind, new_Date, ret. eexists.
  split; [reflexivity|]. cbn. rewrite H.
  split; [reflexivity|]. destruct (complete t); reflexivity.
Qed.

(** With a clock that never runs backwards, the entity's [update] never
    decreases [updatedAt] of an item stamped by that clock. *)
Lemma Todo_update_updatedAt_monotone
      (t : Todo) (updates : ITodoUpdate) (w : World) (k : nat) :
  monotone_clock w -> k <= ticks w -> updatedAt t = Time (clock w k) ->
  exists u a b,
    Todo_update t updates w = (Return u, tick w) /\
    updatedAt t = Time a /\ updatedAt u = Time b /\ (a <= b)%Z.
Proof.
  intros Hmono Hk Ht.
  destruct (Todo_update_keeps_identity t updates w) as (u & Hrun & _ & _ & Hu).
  exists u, (clock w k), (clock w (ticks w)).
  repeat split; try assumption. now apply Hmono.
Qed.

(** The item [updateTodo] returns takes its identity from the id source
    and its timestamps from the clock, not from the item it replaces. *)
Lemma updateTodo_identity_from_platform
      (id0 : string) (updates : ITodoUpdate) (w : World) (u : Todo) (w' : World) :
  updateTodo id0 updates w = (Return u, w') ->
  id u = random_ids w (drawn w) /\
  exists k, ticks w <= k /\
            createdAt u = Time (clock w k) /\
            updatedAt u = Time (clock w (S k)).
Proof.
  intro H. apply updateTodo_run in H.
  destruct (find_by_id id0 (todos w)) as [t|];
    [|destruct H as [[e H] _]; discriminate].
  destruct (update_text_accepted updates);
    [|destruct H as [[e H] _]; discriminate].
  destruct (errors_of (merged_data t updates));
    [|destruct H as [[e H] _]; discriminate].
  cbv zeta in H.
  destruct (refuses_writes (localStorage w));
    [destruct H as [[e H] _]; discriminate|].
  destruct H as [H _]. injection H as ->.
  unfold constructed, after_validate.
  destruct (d_dueDate (merged_data t updates)); cbn.
  - split; [reflexivity|]. exists (S (ticks w)). repeat split. lia.
  - split; [reflexivity|]. exists (ticks w). repeat split. lia.
Qed.

(** C1.  The code at a failing input: updating the item "a" (created at
    10) with [{complete: true}] is accepted and returns an item whose
    identifier is the next generated one and whose creation time is the
    current clock reading; the identifier "a" is no longer in the
    collection. *)
Theorem updateTodo_replaces_identity :
  exists u w',
    updateTodo "a" (mkUpdate None None (Some (Some true)) None None None None)
               one_pending
    = (Return u, w') /\
    find_by_id "a" (todos one_pending)
    = Some (sample_todo "a" "Buy milk" TodoStatus.PENDING false) /\
    id u = "id-0" /\ id u <> "a" /\
    createdAt u = Time 1000 /\ createdAt u <> Time 10 /\
    todos w' = [u] /\
    find_by_id "a" (todos w') = None.
Proof.
  do 2 eexists. split; [vm_compute; reflexivity|].
  repeat split; discriminate.
Qed.

(** C2.  The code at a failing input: exporting the one-item collection
    and restoring the snapshot (clear, then import) gives one item with
    the same content, but with a newly generated identifier and with
    both timestamps read from the clock, although the snapshot carries
    the original ones and [Todo.fromJSON] would restore them; importing
    the snapshot without clearing appends, so the count doubles. *)
Theorem import_of_export_loses_identity :
  exists snapshot w1 w2 w3 t' restored w4,
    exportTodos one_pending = (Return snapshot, w1) /\
    map j_id (snap_todos snapshot) = [Some "a"] /\
    map j_createdAt (snap_todos snapshot) = [Some (Time 10)] /\
    map j_updatedAt (snap_todos snapshot) = [Some (Time 20)] /\
    restoreFromBackup (parse_snapshot snapshot) w1 = (Return true, w2) /\
    todos w2 = [t'] /\
    text t' = "Buy milk" /\ complete t' = false /\
    status t' = TodoStatus.PENDING /\ priority t' = TodoPriority.MEDIUM /\
    id t' = "id-0" /\ id t' <> "a" /\
    createdAt t' <> Time 10 /\ updatedAt t' <> Time 20 /\
    importTodos (parse_snapshot snapshot) w1 = (Return 1, w3) /\
    List.length (todos w3) = 2 /\
    mapM Todo_fromJSON (snap_todos snapshot) w1 = (Return restored, w4) /\
    map id restored = ["a"] /\
    map createdAt restored = [Time 10] /\
    map updatedAt restored = [Time 20].
Proof.
  do 7 eexists. split; [vm_compute; reflexivity|].
  do 3 (split; [reflexivity|]).
  split; [vm_compute; reflexivity|].
  split; [reflexivity|].
  do 5 (split; [reflexivity|]).
  do 3 (split; [discriminate|]).
  split; [vm_compute; reflexivity|].
  split; [reflexivity|].
  split; [vm_compute; reflexivity|].
  repeat split.
Qed.

(** One entry the constructor rejects aborts the whole import as invalid
    data: nothing is appended, written or notified. *)
Lemma importTodos_aborts_on_rejected_entry
      (entries : list TodoJSON) (bad : TodoJSON) (w : World) :
  In bad entries -> errors_of (j_data bad) <> [] ->
  exists msg ts w',
    importTodos (TodosArray entries) w
    = (Throw (TodoError INVALID_DATA msg ts), w') /\
    quiet_step w w'.
Proof.
  intros Hin Hbad.
  destruct (importTodos (TodosArray entries) w) as [o w'] eqn:I.
  destruct (importTodos_run _ _ _ _ I)
    as [([msg [ts ->]] & Q & _)
       | (entries' & imported & w1 & valid & w2 & E & Hc & _)].
  - eauto.
  - injection E as <-.
    destruct (construct_all_rejects entries bad Hin Hbad w) as (e & w0 & Hr).
    rewrite Hr in Hc. discriminate.
Qed.

(** C3.  The code at a failing input: a payload with an items array of
    one entry with an empty text and one good entry is rejected as a
    whole with [INVALID_DATA]; the collection, the durable store and the
    trace are left as they were, although the good entry alone is
    imported. *)
Theorem importTodos_bad_entry_aborts :
  exists ts w' w'',
    importTodos (TodosArray [entry_of ""; entry_of "Call bank"]) one_pending
    = (Throw (TodoError INVALID_DATA "Failed to parse import data" ts), w') /\
    todos w' = todos one_pending /\
    localStorage w' = localStorage one_pending /\
    trace w' = [] /\
    importTodos (TodosArray [entry_of "Call bank"]) one_pending
    = (Return 1, w'') /\
    List.length (todos w'') = 2.
Proof.
  do 3 eexists. split; [vm_compute; reflexivity|].
  do 3 (split; [reflexivity|]).
  split; [vm_compute; reflexivity | reflexivity].
Qed.

(* ================================================================= *)
(** * Further properties of the entity, the utilities and the service *)

(** ** Adding items *)

(** The text test of [_validateTodoText] in plain terms. *)
Lemma text_accepted_iff (s : string) :
  text_accepted s = true <->
  JsString.trim s <> "" /\ String.length (JsString.trim s) <= 500.
Proof.
  unfold text_accepted, TodoConstants.MAX_TEXT_LENGTH.
  rewrite !andb_true_iff, !negb_true_iff, truthy_true_nonempty.
  rewrite Nat.ltb_ge, <- not_true_iff_false, length_zero_empty.
  split.
  - intros [[_ H1] H2]. now split.
  - intros [H1 H2]. repeat split; try assumption.
    intros ->. now apply H1.
Qed.

Lemma add_data_accepted (s : string) (p : option string) :
  text_accepted s = true ->
  match p with
  | Some p' => In p' TodoPriority.values
  | None => True
  end ->
  errors_of (add_data s p) = [].
Proof.
  intros Hs Hp. apply text_accepted_iff in Hs as [H1 H2].
  apply errors_of_nil.
  unfold text_missing, text_too_long, description_too_long, invalid_priority,
    invalid_status, add_data. cbn [d_text d_description d_priority d_status].
  rewrite trim_idempotent.
  assert (T : JsString.truthy (JsString.trim s) = true)
    by now apply truthy_true_nonempty.
  rewrite T. cbn [negb orb andb].
  repeat split.
  - apply not_true_iff_false. intro H. apply length_zero_empty in H.
    contradiction.
  - apply Nat.ltb_ge. exact H2.
  - apply andb_false_iff. right. apply negb_false_iff, includes_In.
    destruct p as [p'|]; [exact Hp | right; left; reflexivity].
Qed.

Lemma addTodo_run (s : string) (p : option string) (w : World)
      (o : Outcome Todo) (w' : World) :
  text_accepted s = true ->
  errors_of (add_data s p) = [] ->
  addTodo s p w = (o, w') ->
  let t := constructed (add_data s p) w in
  commit_frame (todos w ++ [t]) w w' /\
  if refuses_writes (localStorage w)
  then (exists ts, o = Throw (TodoError STORAGE_ERROR "Failed to persist todos" ts))
       /\ localStorage w' = localStorage w
       /\ trace w' = trace w
  else o = Return t
       /\ trace w' = (operation_events (onTodoOperation w) "add" [t]
                      ++ commit_events (onTodoListChanged w) (todos w ++ [t])
                      ++ trace w)%list.
Proof.
  intros Hs He. unfold addTodo. unfold bind at 1.
  assert (Hv := validateTodoText_run s w). rewrite Hs in Hv. rewrite Hv.
  cbv beta iota. unfold bind at 1. fold (add_data s p).
  rewrite (new_Todo_accepts _ w He). cbv beta iota.
  set (t := constructed (add_data s p) w).
  assert (Q : quiet_step w (tick (tick (draw (after_validate (add_data s p) w))))).
  { eapply quiet_new_Todo. apply (new_Todo_accepts _ w He). }
  remember (tick (tick (draw (after_validate (add_data s p) w)))) as w0 eqn:Ew0.
  clear Ew0. open_quiet Q.
  unfold bind, get, modify. cbv beta iota. simpl todos. rewrite qs_todos.
  destruct (_commit (todos w ++ [t])%list (set_todos (todos w ++ [t])%list w0))
    as [oc w1] eqn:C.
  apply commit_run in C. simpl in C. rewrite qs_storage in C.
  destruct C as [CF0 C]. open_frame CF0. simpl in *.
  assert (CF : commit_frame (todos w ++ [t]) w w1).
  { constructor; try congruence; try lia. }
  destruct (refuses_writes (localStorage w)).
  - destruct C as [[ts ->] [C1 C2]]. intro H. injection H as <- <-.
    split; [exact CF|]. split; [eauto|]. split; congruence.
  - destruct C as [-> C]. rewrite notifyOperation_run. unfold ret. intro H.
    injection H as <- <-. split.
    + destruct CF as [F1 F2 F3 F4 F5 F6 F7 F8 F9].
      constructor; simpl; assumption.
    + split; [reflexivity|]. simpl.
      rewrite cf_operation, qs_operation, C, qs_list_changed, qs_trace.
      reflexivity.
Qed.

(** X1.  a text that is blank after trimming, or longer than 500
    characters after trimming, is refused by [addTodo] with
    [VALIDATION_FAILED] before anything is built: only the clock has
    been read. *)
Theorem addTodo_rejects_text (s : string) (p : option string) (w : World) :
  JsString.trim s = "" \/ 500 < String.length (JsString.trim s) ->
  exists msg,
    addTodo s p w
    = (Throw (TodoError VALIDATION_FAILED msg (Time (clock w (ticks w)))), tick w)
    /\ todos (tick w) = todos w
    /\ localStorage (tick w) = localStorage w
    /\ trace (tick w) = trace w.
Proof.
  intro H.
  assert (Hs : text_accepted s = false).
  { apply not_true_iff_false. intro A. apply text_accepted_iff in A as [A1 A2].
    destruct H as [H|H]; [contradiction | lia]. }
  unfold addTodo. unfold bind at 1.
  assert (Hv := validateTodoText_run s w). rewrite Hs in Hv.
  destruct Hv as [msg ->]. exists msg. repeat split.
Qed.

Lemma addTodo_rejects_text_witness :
  exists msg,
    addTodo "   " None one_pending
    = (Throw (TodoError VALIDATION_FAILED msg (Time 1000)), tick one_pending).
Proof.
  destruct (addTodo_rejects_text "   " None one_pending) as (msg & H & _).
  - left. reflexivity.
  - exists msg. exact H.
Defined.

(** X2.  an accepted [addTodo] appends one item whose text is the trimmed
    input, with the given priority (Medium by default), Pending and not
    complete, identified by the next generated id; it commits once and
    reports one "add". *)
Theorem addTodo_appends (s : string) (p : option string) (w : World) :
  JsString.trim s <> "" ->
  String.length (JsString.trim s) <= 500 ->
  match p with
  | Some p' => In p' TodoPriority.values
  | None => True
  end ->
  refuses_writes (localStorage w) = false ->
  exists t w',
    addTodo s p w = (Return t, w') /\
    text t = JsString.trim s /\
    priority t = match p with Some p' => p' | None => TodoPriority.MEDIUM end /\
    complete t = false /\ status t = TodoStatus.PENDING /\
    description t = None /\ dueDate t = None /\ tags t = [] /\
    id t = random_ids w (drawn w) /\
    todos w' = (todos w ++ [t])%list /\
    trace w' = (operation_events (onTodoOperation w) "add" [t]
                ++ commit_events (onTodoListChanged w) (todos w ++ [t])
                ++ trace w)%list.
Proof.
  intros H1 H2 Hp R.
  assert (Hs : text_accepted s = true) by (apply text_accepted_iff; now split).
  assert (He := add_data_accepted s p Hs Hp).
  destruct (addTodo s p w) as [o w'] eqn:A.
  destruct (addTodo_run s p w o w' Hs He A) as [CF C].
  rewrite R in C. destruct C as [-> C].
  exists (constructed (add_data s p) w), w'.
  split; [reflexivity|].
  unfold constructed, init_Todo, add_data at 1 2 3 4 5 6 7 8.
  cbn [text priority complete status description dueDate tags id
       d_text d_description d_complete d_status d_priority d_dueDate d_tags
       after_validate].
  rewrite trim_idempotent.
  repeat (split; [reflexivity|]).
  split; [apply CF | exact C].
Qed.

Lemma addTodo_appends_witness :
  exists t w',
    addTodo " Call bank " None one_pending = (Return t, w')
    /\ text t = "Call bank" /\ List.length (todos w') = 2.
Proof.
  destruct (addTodo_appends " Call bank " None one_pending)
    as (t & w' & H & Ht & _ & _ & _ & _ & _ & _ & _ & Hl & _).
  - discriminate.
  - vm_compute. lia.
  - exact I.
  - reflexivity.
  - exists t, w'. split; [exact H|]. split; [exact Ht|].
    rewrite Hl. reflexivity.
Defined.

(** X3.  when the durable store refuses the write, [addTodo] fails with
    [STORAGE_ERROR] but the new item has already been pushed: it stays
    in the in-memory collection, while the durable store and the
    listeners have seen nothing. *)
Theorem addTodo_refused_write_keeps_item (s : string) (p : option string)
        (w : World) :
  JsString.trim s <> "" ->
  String.length (JsString.trim s) <= 500 ->
  match p with
  | Some p' => In p' TodoPriority.values
  | None => True
  end ->
  refuses_writes (localStorage w) = true ->
  exists ts t w',
    addTodo s p w
    = (Throw (TodoError STORAGE_ERROR "Failed to persist todos" ts), w') /\
    text t = JsString.trim s /\
    todos w' = (todos w ++ [t])%list /\
    localStorage w' = localStorage w /\
    trace w' = trace w.
Proof.
  intros H1 H2 Hp R.
  assert (Hs : text_accepted s = true) by (apply text_accepted_iff; now split).
  assert (He := add_data_accepted s p Hs Hp).
  destruct (addTodo s p w) as [o w'] eqn:A.
  destruct (addTodo_run s p w o w' Hs He A) as [CF C].
  rewrite R in C. destruct C as ([ts ->] & C1 & C2).
  exists ts, (constructed (add_data s p) w), w'.
  split; [reflexivity|]. split.
  - unfold constructed, init_Todo. cbn. apply trim_idempotent.
  - split; [apply CF|]. split; assumption.
Qed.

Lemma addTodo_refused_write_keeps_item_witness :
  exists ts t w',
    addTodo "Call bank" None one_pending_full
    = (Throw (TodoError STORAGE_ERROR "Failed to persist todos" ts), w') /\
    todos w' = (todos one_pending_full ++ [t])%list.
Proof.
  destruct (addTodo_refused_write_keeps_item "Call bank" None one_pending_full)
    as (ts & t & w' & H & _ & Hl & _).
  - discriminate.
  - vm_compute. lia.
  - exact I.
  - reflexivity.
  - exists ts, t, w'. split; assumption.
Defined.

(** ** Removing and updating by id *)

Lemma find_by_id_absent (id0 : string) (l : list Todo) :
  (forall t, In t l -> id t <> id0) -> find_by_id id0 l = None.
Proof.
  intro H. unfold find_by_id.
  destruct (find (fun todo => id todo =? id0) l) as [t|] eqn:E;
    [|reflexivity].
  apply find_some in E as [Hin Heq]. apply String.eqb_eq in Heq.
  now elim (H t Hin).
Qed.

Lemma find_by_id_filtered (id0 : string) (l : list Todo) :
  find_by_id id0 (filter (fun t => negb (id t =? id0)) l) = None.
Proof.
  apply find_by_id_absent. intros t Hin Heq.
  apply filter_In in Hin as [_ H]. apply String.eqb_eq in Heq.
  rewrite Heq in H. discriminate.
Qed.

Lemma filter_found_shorter (id0 : string) (l : list Todo) (t : Todo) :
  find_by_id id0 l = Some t ->
  List.length (filter (fun t => negb (id t =? id0)) l) < List.length l.
Proof.
  unfold find_by_id. induction l as [|x r IH]; [discriminate|].
  cbn [find filter]. destruct (id x =? id0); cbn [negb List.length].
  - intros _. assert (H := filter_length_le (fun t => negb (id t =? id0)) r).
    lia.
  - intro H. apply IH in H. lia.
Qed.

(** X4.  removing a present id returns [true], removes every item
    carrying that id (a later lookup finds none) and keeps the others in
    order; it commits once and reports one "delete" for the item
    found. *)
Theorem deleteTodo_removes (id0 : string) (w : World) (t : Todo) :
  find_by_id id0 (todos w) = Some t ->
  refuses_writes (localStorage w) = false ->
  exists w',
    deleteTodo id0 w = (Return true, w') /\
    todos w' = filter (fun x => negb (id x =? id0)) (todos w) /\
    find_by_id id0 (todos w') = None /\
    List.length (todos w') < List.length (todos w) /\
    trace w' = (operation_events (onTodoOperation w) "delete" [t]
                ++ commit_events (onTodoListChanged w) (todos w')
                ++ trace w)%list.
Proof.
  intros F R. unfold deleteTodo. unfold bind at 1. unfold _findTodoById, get.
  rewrite F. unfold bind, modify. cbv beta iota. simpl todos.
  set (kept := filter (fun x => negb (id x =? id0)) (todos w)).
  destruct (_commit kept (set_todos kept w)) as [oc w1] eqn:C.
  apply commit_run in C. simpl in C. rewrite R in C.
  destruct C as [CF [-> Htrace]]. open_frame CF. simpl in *.
  rewrite notifyOperation_run. unfold ret. eexists. split; [reflexivity|].
  simpl. rewrite cf_todos, cf_operation, Htrace.
  split; [reflexivity|]. split; [apply find_by_id_filtered|].
  split; [eapply filter_found_shorter; exact F | reflexivity].
Qed.

Lemma deleteTodo_removes_witness :
  exists w', deleteTodo "a" two_pending = (Return true, w')
             /\ List.length (todos w') < 2.
Proof.
  destruct (deleteTodo_removes "a" two_pending
              (sample_todo "a" "Buy milk" TodoStatus.PENDING false)
              eq_refl eq_refl) as (w' & H & _ & _ & Hl & _).
  exists w'. split; [exact H | exact Hl].
Defined.

(** X5.  [updateTodo] and [toggleTodo] on an id that no item carries fail
    with [TODO_NOT_FOUND]; the collection, the durable store and the
    trace are untouched. *)
Theorem update_unknown_id_not_found (id0 : string) (updates : ITodoUpdate)
        (w : World) :
  (forall t, In t (todos w) -> id t <> id0) ->
  let e := TodoError TODO_NOT_FOUND ("Todo with id " ++ id0 ++ " not found")
                     (Time (clock w (ticks w))) in
  updateTodo id0 updates w = (Throw e, tick w) /\
  toggleTodo id0 w = (Throw e, tick w) /\
  todos (tick w) = todos w /\
  localStorage (tick w) = localStorage w /\
  trace (tick w) = trace w.
Proof.
  intros H e. apply find_by_id_absent in H.
  unfold updateTodo, toggleTodo, bind, _findTodoById, get. rewrite H.
  repeat split.
Qed.

Lemma update_unknown_id_not_found_witness :
  exists ts,
    toggleTodo "zzz" one_pending
    = (Throw (TodoError TODO_NOT_FOUND "Todo with id zzz not found" ts),
       tick one_pending).
Proof.
  destruct (update_unknown_id_not_found "zzz" no_update one_pending)
    as (_ & H & _).
  - intros t [<-|[]]. discriminate.
  - eexists. exact H.
Defined.

(** X6.  [editTodo] (and any update carrying a text) with a text that is
    blank or too long after trimming fails with [VALIDATION_FAILED] and
    leaves the collection, the durable store and the trace as they
    were. *)
Theorem editTodo_rejects_text (id0 s : string) (w : World) (t : Todo) :
  find_by_id id0 (todos w) = Some t ->
  JsString.trim s = "" \/ 500 < String.length (JsString.trim s) ->
  exists msg,
    editTodo id0 s w
    = (Throw (TodoError VALIDATION_FAILED msg (Time (clock w (ticks w)))), tick w)
    /\ todos (tick w) = todos w
    /\ localStorage (tick w) = localStorage w
    /\ trace (tick w) = trace w.
Proof.
  intros F H.
  assert (Hs : text_accepted s = false).
  { apply not_true_iff_false. intro A. apply text_accepted_iff in A as [A1 A2].
    destruct H as [H|H]; [contradiction | lia]. }
  unfold editTodo, updateTodo. unfold bind at 1. unfold bind at 1.
  unfold _findTodoById, get. rewrite F. cbn [u_text]. unfold bind at 1.
  assert (Hv := validateTodoText_run s w). rewrite Hs in Hv.
  destruct Hv as [msg ->]. exists msg. repeat split.
Qed.

Lemma editTodo_rejects_text_witness :
  exists msg ts,
    editTodo "a" "  " one_pending
    = (Throw (TodoError VALIDATION_FAILED msg ts), tick one_pending).
Proof.
  destruct (editTodo_rejects_text
              "a" "  " one_pending
              (sample_todo "a" "Buy milk" TodoStatus.PENDING false) eq_refl)
    as (msg & H & _).
  - left. reflexivity.
  - exists msg. eexists. exact H.
Defined.

(** ** Normal forms of texts and tags *)

Section Normalisation.

Import JsString.

Lemma lower_char_not_space (c : ascii) : is_space (lower_char c) = is_space c.
Proof.
  destruct c as [[] [] [] [] [] [] [] []]; vm_compute; reflexivity.
Qed.

Lemma lower_char_idempotent (c : ascii) :
  lower_char (lower_char c) = lower_char c.
Proof.
  destruct c as [[] [] [] [] [] [] [] []]; vm_compute; reflexivity.
Qed.

Lemma toLowerCase_idempotent (s : string) :
  toLowerCase (toLowerCase s) = toLowerCase s.
Proof.
  induction s as [|c s IH]; simpl; [reflexivity|].
  now rewrite lower_char_idempotent, IH.
Qed.

Lemma trimStart_toLowerCase (s : string) :
  trimStart (toLowerCase s) = toLowerCase (trimStart s).
Proof.
  induction s as [|c s IH]; simpl; [reflexivity|].
  rewrite lower_char_not_space. destruct (is_space c); [exact IH | reflexivity].
Qed.

Lemma trimEnd_toLowerCase (s : string) :
  trimEnd (toLowerCase s) = toLowerCase (trimEnd s).
Proof.
  induction s as [|c s IH]; simpl; [reflexivity|].
  rewrite IH, lower_char_not_space.
  destruct (trimEnd s); simpl; [destruct (is_space c)|]; reflexivity.
Qed.

Lemma trim_toLowerCase (s : string) :
  trim (toLowerCase s) = toLowerCase (trim s).
Proof.
  unfold trim. now rewrite trimStart_toLowerCase, trimEnd_toLowerCase.
Qed.

(** Normalising a tag twice is normalising it once. *)
Lemma normal_tag_idempotent (s : string) :
  toLowerCase (trim (toLowerCase (trim s))) = toLowerCase (trim s).
Proof.
  now rewrite trim_toLowerCase, trim_idempotent, toLowerCase_idempotent.
Qed.

Lemma dedupe_from_spec (l : list string) :
  forall seen,
    NoDup (dedupe_from seen l) /\
    (forall x, In x (dedupe_from seen l) <-> In x l /\ ~ In x seen).
Proof.
  induction l as [|a r IH]; intro seen; simpl.
  - split; [constructor | intuition].
  - destruct (includes seen a) eqn:E.
    + destruct (IH seen) as [ND M]. split; [exact ND|].
      intro x. rewrite M. apply includes_In in E. split.
      * intros [H1 H2]. split; [now right | exact H2].
      * intros [[->|H1] H2]; [contradiction | now split].
    + destruct (IH (a :: seen)) as [ND M].
      assert (Hn : ~ In a seen).
      { intro H. apply includes_In in H. congruence. }
      split.
      * constructor; [|exact ND]. rewrite M. simpl. tauto.
      * intro x. simpl. rewrite M. simpl. split.
        -- intros [<-|[H1 H2]]; [tauto|]. split; [now right | tauto].
        -- intros [[<-|H1] H2]; [now left|].
           destruct (string_dec a x) as [<-|D]; [now left|].
           right. split; [exact H1|]. intros [H|H]; contradiction.
Qed.

Lemma dedupe_from_fixed (l : list string) :
  forall seen,
    NoDup l -> (forall x, In x l -> ~ In x seen) -> dedupe_from seen l = l.
Proof.
  induction l as [|a r IH]; intros seen ND Hd; simpl; [reflexivity|].
  inversion ND as [|? ? Ha ND']; subst.
  destruct (includes seen a) eqn:E.
  - apply includes_In in E. elim (Hd a (or_introl eq_refl) E).
  - f_equal. apply IH; [exact ND'|].
    intros x Hx [<-|H]; [contradiction|].
    exact (Hd x (or_intror Hx) H).
Qed.

Lemma normalize_tags_NoDup (l : list string) : NoDup (normalize_tags l).
Proof. apply dedupe_from_spec. Qed.

Lemma normalize_tags_members (l : list string) (x : string) :
  In x (normalize_tags l) <-> exists tag, In tag l /\ x = toLowerCase (trim tag).
Proof.
  unfold normalize_tags, dedupe.
  rewrite (proj2 (dedupe_from_spec _ [])), in_map_iff. simpl. split.
  - intros [(tag & <- & H) _]. now exists tag.
  - intros (tag & H & ->). split; [now exists tag | tauto].
Qed.

(** Normalising normalised tags changes nothing. *)
Lemma normalize_tags_idempotent (l : list string) :
  normalize_tags (normalize_tags l) = normalize_tags l.
Proof.
  unfold normalize_tags at 1.
  assert (M : map (fun tag => toLowerCase (trim tag)) (normalize_tags l)
              = normalize_tags l).
  { rewrite <- (map_id (normalize_tags l)) at 2. apply map_ext_in.
    intros x Hx. apply normalize_tags_members in Hx as (tag & _ & ->).
    apply normal_tag_idempotent. }
  rewrite M. unfold dedupe. apply dedupe_from_fixed.
  - apply normalize_tags_NoDup.
  - intros x _ [].
Qed.

End Normalisation.

(** ** What the constructor guarantees *)

Lemma init_Todo_canonical (data : ITodoData) (i : string) (c u : Date) :
  canonical (init_Todo data i c u).
Proof.
  unfold canonical, init_Todo.
  cbn [text description tags]. repeat split.
  - destruct (d_text data); [apply trim_idempotent | reflexivity].
  - destruct (d_description data) as [s|]; [|exact I]. cbv zeta.
    destruct (JsString.truthy (JsString.trim s)) eqn:T; [|exact I].
    split; [apply trim_idempotent | now apply truthy_true_nonempty].
  - destruct (d_tags data); [apply normalize_tags_idempotent | reflexivity].
Qed.

Lemma new_Todo_returns (data : ITodoData) (w : World) (t : Todo) (w' : World) :
  new_Todo data w = (Return t, w') ->
  errors_of data = [] /\ t = constructed data w.
Proof.
  destruct (errors_of_dec data) as [E|E].
  - rewrite (new_Todo_accepts _ _ E). intro H. injection H as <- _. now split.
  - rewrite (new_Todo_rejects _ _ E). discriminate.
Qed.

(** X7.  every item the constructor returns satisfies the invariants of
    the data model: its text is the trimmed input, is not empty and has
    at most 500 characters; its description, when present, is trimmed,
    not empty and has at most 1000 characters; its tags are normalised
    and pairwise distinct; and its own properties pass [validateData]
    again. *)
Theorem new_Todo_invariants (data : ITodoData) (w : World) (t : Todo) (w' : World) :
  new_Todo data w = (Return t, w') ->
  (exists s, d_text data = Some s /\ text t = JsString.trim s) /\
  text t <> "" /\ String.length (text t) <= 500 /\
  (forall s, description t = Some s ->
             JsString.trim s = s /\ s <> "" /\ String.length s <= 1000) /\
  NoDup (tags t) /\
  (forall x, In x (tags t) -> JsString.toLowerCase (JsString.trim x) = x) /\
  canonical t /\ well_formed t.
Proof.
  intro H. apply new_Todo_returns in H as [E ->].
  assert (C := init_Todo_canonical data
                 (random_ids (after_validate data w) (drawn (after_validate data w)))
                 (Time (clock (after_validate data w) (ticks (after_validate data w))))
                 (Time (clock (after_validate data w)
                              (S (ticks (after_validate data w)))))).
  assert (WF := init_Todo_well_formed data
                  (random_ids (after_validate data w) (drawn (after_validate data w)))
                  (Time (clock (after_validate data w) (ticks (after_validate data w))))
                  (Time (clock (after_validate data w)
                               (S (ticks (after_validate data w))))) E).
  fold (constructed data w) in C, WF.
  cut ((exists s, d_text data = Some s
                  /\ text (constructed data w) = JsString.trim s) /\
       text (constructed data w) <> "" /\
       String.length (text (constructed data w)) <= 500 /\
       (forall s, description (constructed data w) = Some s ->
                  JsString.trim s = s /\ s <> "" /\ String.length s <= 1000) /\
       NoDup (tags (constructed data w)) /\
       (forall x, In x (tags (constructed data w)) ->
                  JsString.toLowerCase (JsString.trim x) = x)).
  { intros (A1 & A2 & A3 & A4 & A5 & A6).
    exact (conj A1 (conj A2 (conj A3 (conj A4 (conj A5 (conj A6 (conj C WF))))))). }
  clear C WF.
  apply errors_of_nil in E as (E1 & E2 & E3 & _).
  unfold text_missing, text_too_long, description_too_long in *.
  unfold constructed, init_Todo. cbn [text description tags].
  destruct (d_text data) as [s|] eqn:Ds; [|discriminate].
  apply orb_false_iff in E1 as [E1a E1b].
  apply negb_false_iff in E1a. rewrite E1a in E2. simpl in E2.
  split; [now exists s|].
  split.
  { intro A. rewrite A in E1b. discriminate. }
  split; [now apply Nat.ltb_ge|].
  split.
  { intros d Hd. destruct (d_description data) as [s0|]; [|discriminate].
    cbv zeta in Hd.
    destruct (JsString.truthy (JsString.trim s0)) eqn:T; [|discriminate].
    injection Hd as <-.
    split; [apply trim_idempotent|].
    split; [now apply truthy_true_nonempty|].
    destruct (JsString.truthy s0) eqn:T0.
    - simpl in E3. now apply Nat.ltb_ge.
    - apply truthy_false_empty in T0. subst s0. discriminate. }
  split.
  { destruct (d_tags data); [apply normalize_tags_NoDup | constructor]. }
  intros x Hx. destruct (d_tags data) as [l|]; [|destruct Hx].
  apply normalize_tags_members in Hx as (tag & _ & ->).
  apply normal_tag_idempotent.
Qed.

Lemma new_Todo_invariants_witness :
  exists t w',
    new_Todo (mkData (Some "  Buy milk ") None None None None None
                     (Some [" Home"; "home"])) one_pending = (Return t, w')
    /\ text t <> "" /\ NoDup (tags t).
Proof.
  do 2 eexists. split; [vm_compute; reflexivity|].
  destruct (new_Todo_invariants
              (mkData (Some "  Buy milk ") None None None None None
                      (Some [" Home"; "home"])) one_pending _ _ eq_refl)
    as (_ & H1 & _ & _ & H2 & _).
  split; [exact H1 | exact H2].
Defined.

(** X8.  when no status is given, the constructor derives it from
    [complete], so the new item is either Completed and complete or
    Pending and not complete: exactly one of [isCompleted] and
    [isPending] holds. *)
Theorem new_Todo_default_status (data : ITodoData) (w : World) (t : Todo)
        (w' : World) :
  new_Todo data w = (Return t, w') ->
  d_status data = None ->
  status t = (if complete t then TodoStatus.COMPLETED else TodoStatus.PENDING) /\
  isCompleted t = complete t /\
  isPending t = negb (complete t).
Proof.
  intros H Hs. apply new_Todo_returns in H as [_ ->].
  unfold isCompleted, isPending, constructed, init_Todo.
  cbn [status complete]. rewrite Hs.
  destruct (d_complete data) as [[|]|]; repeat split.
Qed.

Lemma new_Todo_default_status_witness :
  exists t w',
    new_Todo (mkData (Some "Buy milk") None (Some true) None None None None)
             one_pending = (Return t, w')
    /\ status t = TodoStatus.COMPLETED.
Proof.
  do 2 eexists. split; [vm_compute; reflexivity|].
  destruct (new_Todo_default_status
              (mkData (Some "Buy milk") None (Some true) None None None None)
              one_pending _ _ eq_refl eq_refl) as (H & _).
  exact H.
Defined.

(** ** Content of an updated item *)

Lemma updateTodo_returns (id0 : string) (updates : ITodoUpdate) (w : World)
      (u : Todo) (w' : World) :
  updateTodo id0 updates w = (Return u, w') ->
  exists t,
    find_by_id id0 (todos w) = Some t /\
    update_text_accepted updates = true /\
    errors_of (merged_data t updates) = [] /\
    u = constructed (merged_data t updates) w /\
    todos w' = replace_by_id id0 u (todos w).
Proof.
  intro H. apply updateTodo_run in H.
  destruct (find_by_id id0 (todos w)) as [t|];
    [|destruct H as [[e H] _]; discriminate].
  exists t. split; [reflexivity|].
  destruct (update_text_accepted updates);
    [|destruct H as [[e H] _]; discriminate].
  split; [reflexivity|].
  destruct (errors_of (merged_data t updates)) eqn:E;
    [|destruct H as [[e H] _]; discriminate].
  split; [reflexivity|]. cbv zeta in H.
  destruct (refuses_writes (localStorage w));
    [destruct H as [[e H] _]; discriminate|].
  destruct H as [H [CF _]]. injection H as ->.
  split; [reflexivity | apply CF].
Qed.

(** X9.  an accepted [updateTodo] changes only the content it is given:
    [complete], [status], [priority] and [dueDate] that are absent from
    the update keep the value of the replaced item, a given text is
    stored trimmed, and on an item in stored form the text, description
    and tags that are absent from the update are kept as well. *)
Theorem updateTodo_keeps_untouched_content
        (id0 : string) (updates : ITodoUpdate) (w : World) (u : Todo) (w' : World) :
  updateTodo id0 updates w = (Return u, w') ->
  exists t,
    find_by_id id0 (todos w) = Some t /\
    (u_complete updates = None -> complete u = complete t) /\
    (u_status updates = None -> status u = status t) /\
    (u_priority updates = None -> priority u = priority t) /\
    (u_dueDate updates = None -> dueDate u = dueDate t) /\
    (forall s, u_text updates = Some (Some s) -> text u = JsString.trim s) /\
    (canonical t ->
     (u_text updates = None -> text u = text t) /\
     (u_description updates = None -> description u = description t) /\
     (u_tags updates = None -> tags u = tags t)).
Proof.
  intro H. apply updateTodo_returns in H as (t & F & Ht & _ & -> & _).
  exists t. split; [exact F|].
  unfold constructed, init_Todo, merged_data, data_of_todo, spread.
  cbn [text description complete status priority dueDate tags
       d_text d_description d_complete d_status d_priority d_dueDate d_tags].
  split; [intros ->; reflexivity|].
  split; [intros ->; reflexivity|].
  split; [intros ->; reflexivity|].
  split; [intros ->; reflexivity|].
  split.
  - intros s Hs. unfold update_text_accepted in Ht. rewrite Hs in *.
    apply text_accepted_iff in Ht as [Ht _].
    apply truthy_true_nonempty in Ht. rewrite Ht. apply trim_idempotent.
  - intros (C1 & C2 & C3). split; [|split].
    + intros ->. exact C1.
    + intros ->. destruct (description t) as [s|]; [|reflexivity].
      destruct C2 as [C2 C2']. cbv zeta. rewrite C2.
      apply truthy_true_nonempty in C2'. now rewrite C2'.
    + intros ->. exact C3.
Qed.

Lemma updateTodo_keeps_untouched_content_witness :
  exists u w',
    updateTodo "a" (mkUpdate None None None None (Some (Some TodoPriority.HIGH))
                             None None) one_pending = (Return u, w')
    /\ complete u = false /\ status u = TodoStatus.PENDING.
Proof.
  do 2 eexists. split; [vm_compute; reflexivity|].
  destruct (updateTodo_keeps_untouched_content
              "a" (mkUpdate None None None None (Some (Some TodoPriority.HIGH))
                            None None) one_pending _ _ eq_refl)
    as (t & F & H1 & H2 & _).
  injection F as <-.
  split; [exact (H1 eq_refl) | exact (H2 eq_refl)].
Defined.

(** ** Serialising and cloning an item *)

Lemma well_formed_tests (t : Todo) :
  well_formed t ->
  text_accepted (text t) = true /\
  match description t with
  | Some s => JsString.truthy s
              && Nat.ltb 1000 (String.length (JsString.trim s))
  | None => false
  end = false /\
  (JsString.truthy (priority t)
   && negb (JsString.includes TodoPriority.values (priority t))) = false /\
  (JsString.truthy (status t)
   && negb (JsString.includes TodoStatus.values (status t))) = false.
Proof.
  unfold well_formed. rewrite errors_of_nil.
  unfold text_missing, text_too_long, description_too_long, invalid_priority,
    invalid_status, data_of_todo.
  cbn [d_text d_description d_priority d_status].
  intros (H1 & H2 & H3 & H4 & H5). repeat split; try assumption.
  apply orb_false_iff in H1 as [H1a H1b]. apply negb_false_iff in H1a.
  rewrite H1a in H2. simpl in H2.
  unfold text_accepted, TodoConstants.MAX_TEXT_LENGTH.
  now rewrite H1a, H1b, H2.
Qed.

(** The constructor accepts data that carries the content of a
    well-formed item in stored form, and gives that content back. *)
Lemma content_rebuilt (t : Todo) (data : ITodoData) (i : string) (c u : Date) :
  canonical t -> well_formed t ->
  d_text data = Some (text t) ->
  d_description data = description t ->
  d_complete data = Some (complete t) ->
  d_status data = Some (status t) ->
  d_priority data = Some (priority t) ->
  d_dueDate data = dueDate t ->
  d_tags data = Some (tags t) ->
  errors_of data = [] /\
  init_Todo data i c u
  = mkTodo i c u (text t) (description t) (complete t) (status t)
           (priority t) (dueDate t) (tags t).
Proof.
  intros (C1 & C2 & C3) WF D1 D2 D3 D4 D5 D6 D7.
  destruct (well_formed_tests t WF) as (T1 & T2 & T3 & T4).
  split.
  - apply errors_of_nil.
    unfold text_missing, text_too_long, description_too_long,
      invalid_priority, invalid_status.
    rewrite D1, D2, D4, D5.
    unfold text_accepted, TodoConstants.MAX_TEXT_LENGTH in T1.
    apply andb_true_iff in T1 as [T1 T1c].
    apply andb_true_iff in T1 as [T1a T1b].
    apply negb_true_iff in T1b, T1c.
    rewrite T1a, T1b, T1c. repeat split; assumption.
  - unfold init_Todo. rewrite D1, D2, D3, D4, D5, D6, D7, C1, C3.
    f_equal. destruct (description t) as [s|]; [|reflexivity].
    destruct C2 as [C2 C2']. cbv zeta. rewrite C2.
    apply truthy_true_nonempty in C2'. now rewrite C2'.
Qed.

(** X10.  [Todo.fromJSON] undoes [toJSON] on a storable item, that is an
    item in stored form (trimmed text and description, normalised tags)
    that passes the validator and has a non-empty id, a non-empty
    status and priority, valid [createdAt] and [updatedAt] and no
    invalid due date: serialised and read back it is the same item,
    with its id, both timestamps and all its content. *)
Theorem fromJSON_of_toJSON (t : Todo) (w : World) :
  storable t ->
  exists j w1 w2,
    Todo_toJSON t w = (Return j, w1) /\
    Todo_fromJSON j w1 = (Return t, w2).
Proof.
  intros (C & WF & Hid & Hst & Hpr & Hc & Hu & Hd).
  destruct (well_formed_tests t WF) as (T1 & _).
  assert (Tt : JsString.truthy (text t) = true).
  { unfold text_accepted in T1. apply andb_true_iff in T1 as [T1 _].
    now apply andb_true_iff in T1 as [T1 _]. }
  apply truthy_true_nonempty in Hid, Hst, Hpr.
  unfold Todo_toJSON. unfold bind at 1.
  assert (Ho : exists b w1, isOverdue t w = (Return b, w1)).
  { unfold isOverdue. destruct (dueDate t); do 2 eexists; reflexivity. }
  destruct Ho as (b & w1 & ->). cbv beta iota. unfold ret at 1.
  do 2 eexists. eexists. split; [reflexivity|].
  unfold Todo_fromJSON. cbn [j_data j_id j_createdAt j_updatedAt
                             d_text d_description d_complete d_status
                             d_priority d_dueDate d_tags truthy_opt].
  rewrite Tt, Hid, Hst, Hpr.
  assert (Hdesc : (if truthy_opt (description t) then description t else None)
                  = description t).
  { destruct C as (_ & C2 & _). destruct (description t) as [s|]; [|reflexivity].
    destruct C2 as [_ C2]. apply truthy_true_nonempty in C2. simpl.
    now rewrite C2. }
  rewrite Hdesc.
  assert (Hdue : match dueDate t with
                 | Some d => Date_toJSON d
                 | None => None
                 end = dueDate t).
  { destruct (dueDate t) as [[ms|]|]; try reflexivity. now elim Hd. }
  rewrite Hdue.
  set (data := mkData (Some (text t)) (description t) (Some (complete t))
                      (Some (status t)) (Some (priority t)) (dueDate t)
                      (Some (tags t))).
  unfold bind.
  destruct (content_rebuilt t data
              (random_ids (after_validate data w1) (drawn (after_validate data w1)))
              (Time (clock (after_validate data w1) (ticks (after_validate data w1))))
              (Time (clock (after_validate data w1)
                           (S (ticks (after_validate data w1)))))
              C WF eq_refl eq_refl eq_refl eq_refl eq_refl eq_refl eq_refl)
    as [E Hinit].
  rewrite (new_Todo_accepts data w1 E). unfold constructed. rewrite Hinit.
  unfold ret. cbn [id createdAt updatedAt text description complete status
                   priority dueDate tags].
  apply (f_equal2 pair); [|reflexivity]. f_equal.
  destruct t as [i c u tx de co st pr du tg]. cbn in *.
  destruct c as [c|]; [|discriminate]. destruct u as [u|]; [|discriminate].
  reflexivity.
Qed.

Lemma sample_todo_storable :
  storable (sample_todo "a" "Buy milk" TodoStatus.PENDING false).
Proof.
  repeat split; try discriminate; try reflexivity.
Qed.

Lemma fromJSON_of_toJSON_witness :
  exists j w1 w2,
    Todo_toJSON (sample_todo "a" "Buy milk" TodoStatus.PENDING false) one_pending
    = (Return j, w1) /\
    Todo_fromJSON j w1
    = (Return (sample_todo "a" "Buy milk" TodoStatus.PENDING false), w2).
Proof.
  exact (fromJSON_of_toJSON _ one_pending sample_todo_storable).
Defined.

(** X11.  [clone()] of a well-formed item in stored form returns an equal
    item (same id, timestamps and content); on an item whose own
    properties no longer pass the validator it throws instead. *)
Theorem clone_copies_or_throws (t : Todo) (w : World) :
  (canonical t -> well_formed t ->
   exists w', Todo_clone t w = (Return t, w')) /\
  (~ well_formed t ->
   exists msg w', Todo_clone t w = (Throw (Error msg), w')).
Proof.
  unfold Todo_clone, bind.
  set (data := mkData (Some (text t))
                      (if truthy_opt (description t) then description t else None)
                      (Some (complete t)) (Some (status t)) (Some (priority t))
                      (dueDate t) (Some (tags t))).
  split.
  - intros C WF.
    assert (Hdesc : d_description data = description t).
    { unfold data. cbn. destruct C as (_ & C2 & _).
      destruct (description t) as [s|]; [|reflexivity].
      destruct C2 as [_ C2]. apply truthy_true_nonempty in C2. simpl.
      now rewrite C2. }
    destruct (content_rebuilt t data
                (random_ids (after_validate data w) (drawn (after_validate data w)))
                (Time (clock (after_validate data w) (ticks (after_validate data w))))
                (Time (clock (after_validate data w)
                             (S (ticks (after_validate data w)))))
                C WF eq_refl Hdesc eq_refl eq_refl eq_refl eq_refl eq_refl)
      as [E Hinit].
    rewrite (new_Todo_accepts data w E). unfold constructed. rewrite Hinit.
    unfold ret. eexists. apply (f_equal2 pair); [|reflexivity]. f_equal.
    destruct t. reflexivity.
  - intro NWF.
    assert (E : errors_of data <> []).
    { intro E. apply NWF. unfold well_formed.
      apply errors_of_nil in E. apply errors_of_nil.
      unfold text_missing, text_too_long, description_too_long,
        invalid_priority, invalid_status, data, data_of_todo in *.
      cbn [d_text d_description d_priority d_status truthy_opt] in *.
      destruct E as (E1 & E2 & E3 & E4 & E5).
      repeat split; try assumption.
      destruct (description t) as [s|]; [|reflexivity].
      cbn [truthy_opt] in E3.
      destruct (JsString.truthy s) eqn:T; [|reflexivity].
      rewrite T in E3. exact E3. }
    rewrite (new_Todo_rejects data w E). do 2 eexists. reflexivity.
Qed.

Lemma clone_copies_or_throws_witness :
  exists w',
    Todo_clone (sample_todo "a" "Buy milk" TodoStatus.PENDING false) one_pending
    = (Return (sample_todo "a" "Buy milk" TodoStatus.PENDING false), w').
Proof.
  destruct (clone_copies_or_throws
              (sample_todo "a" "Buy milk" TodoStatus.PENDING false) one_pending)
    as [H _].
  apply H; [apply sample_todo_storable | reflexivity].
Defined.

(** ** Tags of an item *)

Lemma includes_app (l1 l2 : list string) (x : string) :
  JsString.includes (l1 ++ l2) x
  = JsString.includes l1 x || JsString.includes l2 x.
Proof. unfold JsString.includes. apply existsb_app. Qed.

Lemma includes_single (x : string) : JsString.includes [x] x = true.
Proof. unfold JsString.includes. simpl. now rewrite String.eqb_refl. Qed.

Lemma remove_first_subset (s : string) (l : list string) (x : string) :
  In x (remove_first s l) -> In x l.
Proof.
  induction l as [|a r IH]; simpl; [tauto|].
  destruct (a =? s); simpl; [tauto|]. intros [H|H]; [now left | right; auto].
Qed.

Lemma remove_first_NoDup (s : string) (l : list string) :
  NoDup l -> NoDup (remove_first s l) /\ ~ In s (remove_first s l).
Proof.
  induction l as [|a r IH]; simpl; intro ND; [split; [constructor | tauto]|].
  inversion ND as [|? ? Ha ND']; subst.
  destruct (a =? s) eqn:E.
  - apply String.eqb_eq in E. subst a. now split.
  - apply String.eqb_neq in E. destruct (IH ND') as [IH1 IH2]. split.
    + constructor; [|exact IH1]. intro H. apply Ha.
      eapply remove_first_subset. exact H.
    + intros [H|H]; [contradiction | now apply IH2].
Qed.

Lemma remove_first_last (s : string) (l : list string) :
  ~ In s l -> remove_first s (l ++ [s]) = l.
Proof.
  induction l as [|a r IH]; simpl; intro H.
  - now rewrite String.eqb_refl.
  - destruct (a =? s) eqn:E.
    + apply String.eqb_eq in E. subst a. elim H. now left.
    + f_equal. apply IH. tauto.
Qed.

(** X12.  after [addTag(tag)] the item has the tag whenever the normalised
    tag is not empty; nothing is lost, distinct tags stay distinct, a
    blank tag changes nothing, and adding the same tag again changes
    nothing at all, not even [updatedAt]. *)
Theorem addTag_then_hasTag (t : Todo) (tag : string) (w : World) :
  exists u w',
    Todo_addTag t tag w = (Return u, w') /\
    (JsString.toLowerCase (JsString.trim tag) <> "" -> Todo_hasTag u tag = true) /\
    (JsString.toLowerCase (JsString.trim tag) = "" -> u = t /\ w' = w) /\
    (forall x, In x (tags t) -> In x (tags u)) /\
    (NoDup (tags t) -> NoDup (tags u)) /\
    id u = id t /\ createdAt u = createdAt t /\
    Todo_addTag u tag w' = (Return u, w').
Proof.
  unfold Todo_addTag, Todo_hasTag. cbv zeta.
  set (n := JsString.toLowerCase (JsString.trim tag)).
  destruct (JsString.truthy n) eqn:T.
  - destruct (JsString.includes (tags t) n) eqn:I; cbn [negb andb].
    + exists t, w. split; [reflexivity|].
      split; [intros _; exact I|].
      split; [intro E; rewrite E in T; discriminate|].
      rewrite ?T, ?I. repeat split; auto.
    + unfold bind, new_Date, ret. do 2 eexists. split; [reflexivity|].
      cbn [with_tags tags id createdAt].
      rewrite includes_app, includes_single, orb_true_r, ?T.
      split; [reflexivity|].
      split; [intro E; rewrite E in T; discriminate|].
      split; [intros x Hx; apply in_or_app; now left|].
      split; [|repeat split].
      intro ND. apply NoDup_app; [exact ND | |].
      * repeat constructor. simpl. tauto.
      * intros x Hx [<-|[]]. apply includes_In in Hx. congruence.
  - cbn [andb]. exists t, w. split; [reflexivity|].
    apply truthy_false_empty in T.
    split; [intro H; contradiction|].
    split; [intros _; now split|].
    apply truthy_false_empty in T. rewrite ?T. repeat split; auto.
Qed.

(** X13.  [removeTag(tag)] on an item with pairwise distinct tags leaves it
    without the tag and adds nothing; on an item that does not have the
    tag it changes nothing, not even [updatedAt]; and removing a tag
    that [addTag] has just added gives back the tags of before. *)
Theorem removeTag_then_hasTag (t : Todo) (tag : string) (w : World) :
  exists u w',
    Todo_removeTag t tag w = (Return u, w') /\
    (NoDup (tags t) -> Todo_hasTag u tag = false) /\
    (forall x, In x (tags u) -> In x (tags t)) /\
    (Todo_hasTag t tag = false -> u = t /\ w' = w) /\
    (Todo_hasTag t tag = false ->
     forall a wa, Todo_addTag t tag w = (Return a, wa) ->
     exists r wr, Todo_removeTag a tag wa = (Return r, wr) /\ tags r = tags t).
Proof.
  unfold Todo_removeTag, Todo_addTag, Todo_hasTag. cbv zeta.
  set (n := JsString.toLowerCase (JsString.trim tag)).
  destruct (JsString.includes (tags t) n) eqn:I.
  - unfold bind, new_Date, ret. do 2 eexists. split; [reflexivity|].
    cbn [with_tags tags].
    split.
    { intro ND. apply not_true_iff_false. intro H. apply includes_In in H.
      now apply (remove_first_NoDup n (tags t) ND). }
    split; [intros x; apply remove_first_subset|].
    split; intro H; discriminate.
  - exists t, w. split; [reflexivity|].
    split; [intros _; exact I|]. split; [auto|]. split; [auto|].
    intros _ a wa.
    destruct (JsString.truthy n) eqn:T; cbn [negb andb].
    + unfold bind, new_Date, ret. intro H. injection H as <- <-.
      cbn [with_tags tags]. rewrite includes_app, includes_single, orb_true_r.
      do 2 eexists. split; [reflexivity|]. cbn [with_tags tags].
      apply remove_first_last. intro H. apply includes_In in H. congruence.
    + unfold ret. intro H. injection H as <- <-. rewrite I.
      do 2 eexists. split; reflexivity.
Qed.

(** ** Toggling the entity *)

(** X14.  the entity's [toggle()] applied twice gives back [complete], the
    id and the creation time; it also gives back the status when the
    item was consistent (Completed and complete, or Pending and not
    complete) or had a status other than Pending and Completed, such as
    Archived. *)
Theorem Todo_toggle_twice (t : Todo) (w : World) :
  exists u v,
    Todo_toggle t w = (Return u, tick w) /\
    Todo_toggle u (tick w) = (Return v, tick (tick w)) /\
    complete u = negb (complete t) /\
    complete v = complete t /\ id v = id t /\ createdAt v = createdAt t /\
    (status t = (if complete t then TodoStatus.COMPLETED else TodoStatus.PENDING)
     \/ (status t <> TodoStatus.PENDING /\ status t <> TodoStatus.COMPLETED) ->
     status v = status t).
Proof.
  unfold Todo_toggle, Todo_update, bind, new_Date, ret.
  do 2 eexists. split; [reflexivity|]. split; [reflexivity|].
  cbn [complete status id createdAt u_complete u_status].
  split; [reflexivity|]. split; [apply negb_involutive|].
  split; [reflexivity|]. split; [reflexivity|].
  intros [H|[H1 H2]].
  - rewrite H. destruct (complete t); reflexivity.
  - apply String.eqb_neq in H1, H2.
    destruct (complete t); cbn [negb andb]; rewrite ?H1, ?H2; cbn [andb];
      rewrite ?H1, ?H2; reflexivity.
Qed.

(** ** Legacy items *)

(** X15.  an item built from legacy data keeps the legacy id when one is
    given (and is not empty), stores the trimmed text, and gets a status
    that agrees with its completion flag. *)
Theorem fromLegacy_keeps_id (legacy_id : option string) (s : string)
        (c : option bool) (w : World) (t : Todo) (w' : World) :
  fromLegacy legacy_id s c w = (Return t, w') ->
  (forall i, legacy_id = Some i -> i <> "" -> id t = i) /\
  text t = JsString.trim s /\
  complete t = match c with Some b => b | None => false end /\
  status t = (if complete t then TodoStatus.COMPLETED else TodoStatus.PENDING) /\
  priority t = TodoPriority.MEDIUM.
Proof.
  unfold fromLegacy, bind.
  set (data := mkData (Some s) None
                      (Some match c with Some b => b | None => false end)
                      None None None None).
  destruct (new_Todo data w) as [[todo|e] w1] eqn:N; [|discriminate].
  apply new_Todo_returns in N as [_ ->]. unfold ret. intro H.
  injection H as <- <-.
  assert (F : forall x : Todo,
             text (if truthy_opt legacy_id
                   then mkTodo (match legacy_id with Some i => i | None => "" end)
                               (createdAt x) (updatedAt x) (text x)
                               (description x) (complete x) (status x)
                               (priority x) (dueDate x) (tags x)
                   else x) = text x).
  { intro x. destruct (truthy_opt legacy_id); reflexivity. }
  split.
  - intros i -> Hi. apply truthy_true_nonempty in Hi. cbn [truthy_opt].
    rewrite Hi. reflexivity.
  - destruct (truthy_opt legacy_id); cbn; destruct c as [[|]|]; repeat split.
Qed.

Lemma fromLegacy_keeps_id_witness :
  exists t w',
    fromLegacy (Some "legacy-7") " Buy milk" (Some true) one_pending
    = (Return t, w') /\ id t = "legacy-7".
Proof.
  do 2 eexists. split; [vm_compute; reflexivity|].
  destruct (fromLegacy_keeps_id (Some "legacy-7") " Buy milk" (Some true)
                                one_pending _ _ eq_refl) as (H & _).
  apply (H "legacy-7" eq_refl). discriminate.
Defined.

(** ** Validation of stored items *)

Lemma validateTodo_run (t : Todo) (w : World) :
  exists w', validateTodo t w = (Return (todo_valid t), w') /\ quiet_step w w'.
Proof.
  destruct (validateTodo t w) as [o w'] eqn:V.
  assert (Q := quiet_validateTodo t w o w' V).
  exists w'. split; [|exact Q]. revert V.
  unfold validateTodo, try_catch, todo_valid.
  destruct (JsString.truthy (id t)); cbn [negb orb andb];
    [|intro H; injection H as <- <-; reflexivity].
  assert (Hv := validateTodoText_run (text t) w).
  destruct (JsString.truthy (text t)) eqn:T; cbn [negb].
  - unfold bind. destruct (text_accepted (text t)).
    + rewrite Hv. destruct (dueDate t) as [d|]; [destruct (Date_isNaN d)|];
        intro H; injection H as <- <-; reflexivity.
    + destruct Hv as [msg ->]. intro H. injection H as <- <-. reflexivity.
  - intro H. injection H as <- <-. unfold text_accepted. rewrite T. reflexivity.
Qed.

Lemma filterM_validateTodo_run (l : list Todo) :
  forall w, exists w',
      filterM validateTodo l w = (Return (filter todo_valid l), w')
      /\ quiet_step w w'.
Proof.
  induction l as [|t r IH]; intro w.
  - exists w. split; [reflexivity | apply quiet_step_refl].
  - cbn [filterM filter]. unfold bind at 1.
    destruct (validateTodo_run t w) as (w1 & -> & Q1).
    unfold bind. destruct (IH w1) as (w' & -> & Q2).
    exists w'. split; [reflexivity|].
    eapply quiet_step_trans; eassumption.
Qed.

(** X16.  [validateTodo] never throws and accepts exactly the items with a
    non-empty id, a text that is not blank and has at most 500
    characters after trimming, and no invalid due date; it looks at
    nothing else (description, status, priority and tags are not
    checked) and changes nothing. *)
Theorem validateTodo_accepts_iff (t : Todo) (w : World) :
  exists b w',
    validateTodo t w = (Return b, w') /\
    todos w' = todos w /\ localStorage w' = localStorage w /\
    trace w' = trace w /\
    (b = true <->
     id t <> "" /\ JsString.trim (text t) <> "" /\
     String.length (JsString.trim (text t)) <= 500 /\
     dueDate t <> Some InvalidDate).
Proof.
  destruct (validateTodo_run t w) as (w' & H & Q).
  exists (todo_valid t), w'. split; [exact H|].
  split; [apply Q|]. split; [apply Q|]. split; [apply Q|].
  unfold todo_valid.
  rewrite !andb_true_iff, truthy_true_nonempty, text_accepted_iff.
  split.
  - intros [[H1 [H2 H3]] H4]. repeat split; try assumption.
    intro E. rewrite E in H4. discriminate.
  - intros (H1 & H2 & H3 & H4). repeat split; try assumption.
    destruct (dueDate t) as [[ms|]|]; try reflexivity. now elim H4.
Qed.

(** ** Repairing the collection *)

Lemma filter_all_length {A} (p : A -> bool) (l : list A) :
  List.length (filter p l) = List.length l -> filter p l = l.
Proof.
  induction l as [|x r IH]; [reflexivity|].
  cbn [filter]. destruct (p x); cbn [List.length]; intro H.
  - f_equal. apply IH. lia.
  - assert (L := filter_length_le p r). lia.
Qed.

Lemma filter_idempotent {A} (p : A -> bool) (l : list A) :
  filter p (filter p l) = filter p l.
Proof.
  induction l as [|x r IH]; [reflexivity|].
  cbn [filter]. destruct (p x) eqn:E; [|exact IH].
  cbn [filter]. now rewrite E, IH.
Qed.

Lemma filter_none {A} (p : A -> bool) (l : list A) :
  filter (fun x => negb (p x)) (filter p l) = [].
Proof.
  induction l as [|x r IH]; [reflexivity|].
  cbn [filter]. destruct (p x) eqn:E; [|exact IH].
  cbn [filter]. now rewrite E, IH.
Qed.

(** X17.  on a durable store that accepts writes, [repairData] keeps
    exactly the items [validateTodo] accepts and returns how many it
    dropped; it commits once when something was dropped and not at all
    (no write, no listener call) when every item was valid; afterwards
    [validateTodos] finds no invalid item. *)
Theorem repairData_keeps_valid (w : World) :
  refuses_writes (localStorage w) = false ->
  exists w',
    repairData w
    = (Return (List.length (filter (fun t => negb (todo_valid t)) (todos w))), w')
    /\ todos w' = filter todo_valid (todos w)
    /\ (filter todo_valid (todos w) = todos w ->
        trace w' = trace w /\ localStorage w' = localStorage w)
    /\ (filter todo_valid (todos w) <> todos w ->
        trace w' = (commit_events (onTodoListChanged w) (todos w')
                    ++ trace w)%list)
    /\ exists w'', validateTodos w' = (Return [], w'').
Proof.
  intro R. unfold repairData. unfold bind at 1. unfold get at 1.
  unfold bind at 1.
  destruct (filterM_validateTodo_run (todos w) w) as (w1 & -> & Q).
  open_quiet Q. set (kept := filter todo_valid (todos w)).
  assert (Hlen : List.length (todos w) - List.length kept
                 = List.length (filter (fun t => negb (todo_valid t)) (todos w))).
  { assert (L := filter_split_length (fun t => negb (todo_valid t)) (todos w)).
    rewrite <- L. f_equal. f_equal. unfold kept. apply filter_ext.
    intro a. now rewrite negb_involutive. }
  assert (Hval : forall w0, todos w0 = kept ->
                            exists w'', validateTodos w0 = (Return [], w'')).
  { intros w0 H0. unfold validateTodos.
    set (p := fun todo : Todo => ok <- validateTodo todo ;; ret (negb ok)).
    unfold bind, get. rewrite H0.
    assert (P : forall t w2, exists w3,
                 p t w2 = (Return (negb (todo_valid t)), w3)).
    { intros t w2. unfold p, bind.
      destruct (validateTodo_run t w2) as (w3 & -> & _). eexists. reflexivity. }
    assert (G : forall l w2, exists w3,
                 filterM p l w2
                 = (Return (filter (fun t => negb (todo_valid t)) l), w3)).
    { induction l as [|t r IH]; intro w2; [eexists; reflexivity|].
      cbn [filterM filter]. unfold bind at 1.
      destruct (P t w2) as (w3 & ->).
      unfold bind. destruct (IH w3) as (w4 & ->). eexists. reflexivity. }
    destruct (G kept w0) as (w3 & ->). unfold kept. rewrite filter_none.
    eauto. }
  unfold bind at 1. unfold modify at 1. unfold bind at 1.
  destruct (Nat.eqb (List.length kept) (List.length (todos w))) eqn:E;
    cbn [negb].
  - apply Nat.eqb_eq in E. apply filter_all_length in E.
    unfold ret, bind, get. cbv beta iota. simpl todos.
    eexists. split; [rewrite <- Hlen; reflexivity|].
    simpl. split; [reflexivity|].
    split; [intros _; split; assumption|].
    split; [intro H; contradiction|].
    apply Hval. reflexivity.
  - apply Nat.eqb_neq in E.
    unfold bind at 1. unfold get at 1. simpl todos.
    destruct (_commit kept (set_todos kept w1)) as [oc w2] eqn:C.
    apply commit_run in C. simpl in C. rewrite qs_storage, R in C.
    destruct C as [CF [-> Htrace]]. open_frame CF. simpl in *.
    unfold bind, get, ret. cbv beta iota. rewrite cf_todos.
    eexists. split; [rewrite <- Hlen; reflexivity|].
    split; [exact cf_todos|].
    split; [intro H; fold kept in H; rewrite H in E; contradiction|].
    split; [intros _; rewrite Htrace, cf_todos, qs_list_changed, qs_trace;
            reflexivity|].
    apply Hval. exact cf_todos.
Qed.

Lemma repairData_keeps_valid_witness :
  exists w',
    repairData one_invalid_one_valid = (Return 1, w') /\
    todos w' = [sample_todo "b" "Call bank" TodoStatus.PENDING false] /\
    trace w'
    = [ListChanged [sample_todo "b" "Call bank" TodoStatus.PENDING false];
       SetItem TodoConstants.LOCAL_STORAGE_KEY].
Proof.
  destruct (repairData_keeps_valid one_invalid_one_valid eq_refl)
    as (w' & H & Ht & _ & Hc & _).
  exists w'. split; [exact H|]. split; [exact Ht|].
  rewrite (Hc ltac:(discriminate)), Ht. reflexivity.
Defined.

(** ** What is written to the durable store *)

Lemma Todo_toJSON_run (t : Todo) (w : World) :
  exists j w',
    Todo_toJSON t w = (Return j, w') /\ quiet_step w w' /\
    j_id j = Some (id t) /\ j_data j = stored_data t.
Proof.
  unfold Todo_toJSON, bind, isOverdue.
  destruct (dueDate t) as [d|] eqn:D; cbn [new_Date ret];
    do 2 eexists; (split; [reflexivity|]);
    (split; [first [apply quiet_step_tick | apply quiet_step_refl]|]);
    split; try reflexivity; unfold stored_data; cbn; now rewrite D.
Qed.

Lemma JSON_stringify_run (l : list Todo) :
  forall w, exists blob w',
      JSON_stringify l w = (Return blob, w') /\ quiet_step w w' /\
      map j_id blob = map (fun t => Some (id t)) l /\
      map j_data blob = map stored_data l.
Proof.
  unfold JSON_stringify.
  induction l as [|t r IH]; intro w.
  - exists [], w. repeat split; apply quiet_step_refl.
  - cbn [mapM]. unfold bind at 1.
    destruct (Todo_toJSON_run t w) as (j & w1 & -> & Q1 & Hid & Hd).
    unfold bind. destruct (IH w1) as (blob & w' & -> & Q2 & Hids & Hds).
    unfold ret. exists (j :: blob), w'. split; [reflexivity|].
    split; [eapply quiet_step_trans; eassumption|].
    cbn [map]. now rewrite Hid, Hd, Hids, Hds.
Qed.

(** A successful commit leaves one record per item under the primary
    key, carrying the id and the content of the item. *)
Lemma commit_stores (l : list Todo) (w : World) (o : Outcome unit) (w' : World) :
  refuses_writes (localStorage w) = false ->
  _commit l w = (o, w') ->
  exists blob,
    primary (localStorage w') = Some blob /\
    map j_id blob = map (fun t => Some (id t)) l /\
    map j_data blob = map stored_data l.
Proof.
  intro R. unfold _commit, try_catch. unfold bind at 1. unfold modify at 1.
  unfold bind at 1.
  destruct (JSON_stringify_run l (set_todos l w)) as (blob & w1 & Hs & Q & Hi & Hd).
  rewrite Hs. open_quiet Q. simpl in *.
  unfold bind at 1. unfold setItem_primary. rewrite qs_storage, R.
  unfold bind, get, modify, ret. simpl.
  destruct (onTodoListChanged w1); intro H; injection H as _ <-;
    exists blob; simpl; auto.
Qed.

(** ** Loading the collection *)

Lemma construct_all_stored (l : list Todo) :
  Forall reloadable l ->
  forall (blob : list TodoJSON) (w : World),
    map j_data blob = map stored_data l ->
    exists ts w',
      construct_all blob w = (Return ts, w') /\
      map content ts = map content l.
Proof.
  unfold construct_all.
  induction 1 as [|t r St _ IH]; intros blob w Hd.
  - destruct blob; [|discriminate]. exists [], w. split; reflexivity.
  - destruct blob as [|j blob]; [discriminate|].
    cbn [map] in Hd. injection Hd as Hj Hd.
    cbn [mapM]. unfold bind at 1. rewrite Hj.
    destruct St as (C & WF & Hdue).
    assert (Hdd : d_dueDate (stored_data t) = dueDate t).
    { unfold stored_data. cbn.
      destruct (dueDate t) as [[ms|]|]; try reflexivity. now elim Hdue. }
    destruct (content_rebuilt t (stored_data t)
                (random_ids (after_validate (stored_data t) w)
                            (drawn (after_validate (stored_data t) w)))
                (Time (clock (after_validate (stored_data t) w)
                             (ticks (after_validate (stored_data t) w))))
                (Time (clock (after_validate (stored_data t) w)
                             (S (ticks (after_validate (stored_data t) w)))))
                C WF eq_refl eq_refl eq_refl eq_refl eq_refl Hdd eq_refl)
      as [E Hinit].
    rewrite (new_Todo_accepts _ w E). cbv beta iota.
    unfold bind.
    destruct (IH blob (tick (tick (draw (after_validate (stored_data t) w)))) Hd)
      as (ts & w' & -> & Hc).
    unfold ret. do 2 eexists. split; [reflexivity|].
    cbn [map]. rewrite Hc. f_equal. unfold constructed. rewrite Hinit.
    reflexivity.
Qed.

(** X18.  [loadTodos] (the constructor of the service) never throws and
    never writes; without a stored value it starts from the empty
    collection, and when one stored record is rejected by the item
    constructor it logs an error and starts from the empty collection
    as well, dropping the valid records too. *)
Theorem loadTodos_starts_empty (w : World) :
  exists w',
    loadTodos w = (Return tt, w') /\
    localStorage w' = localStorage w /\
    (primary (localStorage w) = None -> todos w' = [] /\ trace w' = trace w) /\
    (forall blob bad,
        primary (localStorage w) = Some blob ->
        In bad blob -> errors_of (j_data bad) <> [] ->
        todos w' = [] /\ trace w' = ConsoleError :: trace w).
Proof.
  unfold loadTodos, try_catch. unfold bind at 1. unfold get at 1.
  destruct (primary (localStorage w)) as [blob|] eqn:P.
  - unfold bind at 1. fold (construct_all blob).
    destruct (construct_all blob w) as [[l|e] w1] eqn:C.
    + assert (Q : quiet_step w w1).
      { eapply (quiet_mapM (fun entry => new_Todo (j_data entry)) blob);
          [intro; apply quiet_new_Todo | exact C]. }
      open_quiet Q. unfold modify. eexists. split; [reflexivity|].
      simpl. split; [exact qs_storage|]. split; [discriminate|].
      intros blob' bad E Hin Hbad. injection E as <-.
      destruct (construct_all_rejects blob bad Hin Hbad w) as (e & w0 & Hr).
      rewrite Hr in C. discriminate.
    + assert (Q : quiet_step w w1).
      { eapply (quiet_mapM (fun entry => new_Todo (j_data entry)) blob);
          [intro; apply quiet_new_Todo | exact C]. }
      open_quiet Q. unfold bind, modify. eexists. split; [reflexivity|].
      simpl. split; [exact qs_storage|]. split; [discriminate|].
      intros _ _ _ _ _. split; [reflexivity | now rewrite qs_trace].
  - unfold modify. eexists. split; [reflexivity|]. simpl.
    split; [reflexivity|]. split; [intros _; now split | discriminate].
Qed.

(** X19.  Persistence round trip.  After a successful commit of items
    that are in stored form (trimmed text and description, normalised
    tags), pass the validator and have no invalid due date, loading
    from that durable store gives back as many items with the same
    content (text, description, completion, status, priority, due date,
    tags) in the same order. *)
Theorem load_after_commit_keeps_content
        (l : list Todo) (w w1 w2 : World) :
  Forall reloadable l ->
  refuses_writes (localStorage w) = false ->
  _commit l w = (Return tt, w1) ->
  localStorage w2 = localStorage w1 ->
  exists w3,
    loadTodos w2 = (Return tt, w3) /\
    map content (todos w3) = map content l /\
    List.length (todos w3) = List.length l.
Proof.
  intros St R C S.
  destruct (commit_stores l w _ w1 R C) as (blob & P & _ & Hd).
  unfold loadTodos, try_catch. unfold bind at 1. unfold get at 1.
  rewrite S, P. unfold bind at 1. fold (construct_all blob).
  destruct (construct_all_stored l St blob w2 Hd) as (ts & w' & -> & Hc).
  unfold modify. eexists. split; [reflexivity|]. simpl.
  split; [exact Hc|].
  rewrite <- (length_map content ts), Hc. apply length_map.
Qed.

Lemma sample_todo_reloadable :
  reloadable (sample_todo "a" "Buy milk" TodoStatus.PENDING false).
Proof.
  repeat split; try discriminate; try reflexivity.
Qed.

Lemma load_after_commit_keeps_content_witness :
  exists w1 w3,
    _commit (todos one_pending) one_pending = (Return tt, w1) /\
    loadTodos w1 = (Return tt, w3) /\
    map content (todos w3) = map content (todos one_pending).
Proof.
  eexists.
  assert (C : _commit (todos one_pending) one_pending
              = (Return tt, snd (_commit (todos one_pending) one_pending)))
    by (vm_compute; reflexivity).
  destruct (load_after_commit_keeps_content
              (todos one_pending) one_pending _ _
              (Forall_cons _ sample_todo_reloadable (Forall_nil _))
              eq_refl C eq_refl) as (w3 & H & Hc & _).
  exists w3. split; [exact C|]. split; assumption.
Defined.

(** ** Bulk addition *)

Lemma quick_data_accepted (s : string) :
  text_accepted s = true -> errors_of (quick_data s) = [].
Proof.
  intro Hs. apply text_accepted_iff in Hs as [H1 H2].
  apply errors_of_nil.
  unfold text_missing, text_too_long, description_too_long, invalid_priority,
    invalid_status, quick_data. cbn [d_text d_description d_priority d_status].
  rewrite trim_idempotent.
  assert (T : JsString.truthy (JsString.trim s) = true)
    by now apply truthy_true_nonempty.
  rewrite T. cbn [negb orb andb]. repeat split.
  - apply not_true_iff_false. intro H. apply length_zero_empty in H.
    contradiction.
  - apply Nat.ltb_ge. exact H2.
Qed.

Lemma repeat_shift {A} (x : A) (n : nat) (l : list A) :
  (repeat x n ++ x :: l = (x :: repeat x n) ++ l)%list.
Proof.
  induction n as [|n IH]; simpl; [reflexivity|]. now rewrite IH.
Qed.

Lemma addMultiple_loop_run (texts : list string) :
  forall w, exists ts w',
      addMultiple_loop texts w = (Return ts, w') /\
      Forall2 quick_item (filter text_accepted texts) ts /\
      warned (List.length (filter (fun s => negb (text_accepted s)) texts)) w w'.
Proof.
  induction texts as [|s r IH]; intro w.
  - exists [], w. split; [reflexivity|]. split; [constructor|].
    constructor; reflexivity.
  - cbn [addMultiple_loop filter]. unfold bind at 1. unfold try_catch.
    unfold bind at 1.
    assert (Hv := validateTodoText_run s w).
    destruct (text_accepted s) eqn:A; cbn [negb].
    + rewrite Hv. unfold bind at 1. fold (quick_data s).
      rewrite (new_Todo_accepts _ w (quick_data_accepted s A)).
      cbv beta iota. unfold ret at 1.
      assert (Q : quiet_step w (tick (tick (draw (after_validate (quick_data s) w))))).
      { eapply quiet_new_Todo.
        apply (new_Todo_accepts _ w (quick_data_accepted s A)). }
      remember (tick (tick (draw (after_validate (quick_data s) w)))) as w0 eqn:Ew0.
      clear Ew0. open_quiet Q.
      unfold bind. destruct (IH w0) as (ts & w' & -> & Hts & W).
      destruct W as [W1 W2 W3 W4 W5]. unfold ret.
      do 2 eexists. split; [reflexivity|]. split.
      * constructor; [|exact Hts].
        unfold quick_item, constructed, init_Todo, quick_data. cbn.
        rewrite trim_idempotent. repeat split.
      * constructor; congruence.
    + destruct Hv as [msg ->]. unfold bind at 1. unfold modify at 1.
      unfold ret at 1. unfold bind.
      destruct (IH (emit ConsoleWarn (tick w))) as (ts & w' & -> & Hts & W).
      destruct W as [W1 W2 W3 W4 W5]. unfold ret. simpl in *.
      do 2 eexists. split; [reflexivity|]. split; [exact Hts|].
      constructor; try assumption. rewrite W5. cbn [List.length repeat].
      apply repeat_shift.
Qed.

(** X20.  on a durable store that accepts writes, [addMultipleTodos]
    builds one Pending, Medium-priority item per accepted text, in
    order and with the trimmed text, skips each refused text with one
    warning, appends the new items and commits exactly once, even when
    no text was accepted. *)
Theorem addMultipleTodos_one_commit (texts : list string) (w : World) :
  refuses_writes (localStorage w) = false ->
  exists ts w',
    addMultipleTodos texts w = (Return ts, w') /\
    Forall2 quick_item (filter text_accepted texts) ts /\
    todos w' = (todos w ++ ts)%list /\
    trace w'
    = (operation_events (onTodoOperation w) "add" ts
       ++ commit_events (onTodoListChanged w) (todos w ++ ts)
       ++ repeat ConsoleWarn
            (List.length (filter (fun s => negb (text_accepted s)) texts))
       ++ trace w)%list /\
    writes w' = writes w + 1.
Proof.
  intro R.
  enough (H : exists ts w',
             addMultipleTodos texts w = (Return ts, w') /\
             Forall2 quick_item (filter text_accepted texts) ts /\
             todos w' = (todos w ++ ts)%list /\
             trace w'
             = (operation_events (onTodoOperation w) "add" ts
                ++ commit_events (onTodoListChanged w) (todos w ++ ts)
                ++ repeat ConsoleWarn
                     (List.length (filter (fun s => negb (text_accepted s)) texts))
                ++ trace w)%list).
  { destruct H as (ts & w' & H1 & H2 & H3 & H4). exists ts, w'.
    repeat (split; [assumption|]).
    unfold writes. rewrite H4, !count_app, count_commit_events_write.
    rewrite count_operation_events by reflexivity.
    assert (Hwarn : forall n, List.length (filter is_write (repeat ConsoleWarn n)) = 0).
    { induction n; simpl; auto. }
    rewrite Hwarn. lia. }
  unfold addMultipleTodos. unfold bind at 1.
  destruct (addMultiple_loop_run texts w) as (ts & w1 & -> & Hts & W).
  destruct W as [W1 W2 W3 W4 W5].
  unfold bind, get, modify. cbv beta iota. simpl todos. rewrite W1.
  destruct (_commit (todos w ++ ts)%list (set_todos (todos w ++ ts)%list w1))
    as [oc w2] eqn:C.
  apply commit_run in C. simpl in C. rewrite W4, R in C.
  destruct C as [CF [-> Htrace]]. open_frame CF. simpl in *.
  rewrite forEach_notify_run. unfold ret.
  exists ts. eexists. split; [reflexivity|]. split; [exact Hts|].
  simpl. split; [exact cf_todos|].
  now rewrite cf_operation, W3, Htrace, W2, W5.
Qed.

Lemma addMultipleTodos_one_commit_witness :
  exists ts w',
    addMultipleTodos ["  "; " Call bank "] one_pending = (Return ts, w')
    /\ List.length ts = 1 /\ writes w' = 1.
Proof.
  destruct (addMultipleTodos_one_commit ["  "; " Call bank "] one_pending eq_refl)
    as (ts & w' & H & Hts & _ & _ & Hw).
  exists ts, w'. split; [exact H|]. split; [|exact Hw].
  apply Forall2_length in Hts. rewrite <- Hts. reflexivity.
Defined.

(** ** Clearing *)

Lemma deleteMultipleTodos_run (ids : list string) (w : World) :
  refuses_writes (localStorage w) = false ->
  exists w',
    deleteMultipleTodos ids w
    = (Return (List.length
                 (filter (fun t => JsString.includes ids (id t)) (todos w))), w')
    /\ todos w'
       = filter (fun t => negb (JsString.includes ids (id t))) (todos w).
Proof.
  intro R. unfold deleteMultipleTodos. unfold bind at 1. unfold get at 1.
  unfold bind at 1. unfold modify at 1.
  unfold bind at 1. unfold get at 1. simpl todos.
  set (kept := filter (fun t => negb (JsString.includes ids (id t))) (todos w)).
  unfold bind at 1.
  destruct (_commit kept (set_todos kept w)) as [o w1] eqn:C.
  apply commit_run in C. simpl in C. rewrite R in C.
  destruct C as [CF [-> Htrace]]. open_frame CF.
  unfold bind at 1. rewrite forEach_notify_run.
  unfold bind, get, ret. simpl in *. rewrite cf_todos.
  eexists. split.
  - unfold kept. rewrite filter_split_length. reflexivity.
  - exact cf_todos.
Qed.

Lemma completed_ids (l : list Todo) (t : Todo) :
  complete t = true -> In t l ->
  JsString.includes (map id (filter complete l)) (id t) = true.
Proof.
  intros Hc Hin. apply includes_In. apply in_map. apply filter_In. now split.
Qed.

Lemma unique_id_complete (l : list Todo) :
  NoDup (map id l) ->
  forall t, In t l ->
            JsString.includes (map id (filter complete l)) (id t) = complete t.
Proof.
  intros ND t Hin. destruct (complete t) eqn:Hc.
  - now apply completed_ids.
  - apply not_true_iff_false. intro H. apply includes_In in H.
    apply in_map_iff in H as (x & Hid & Hx). apply filter_In in Hx as [Hx Hcx].
    assert (x = t); [|congruence].
    clear Hc Hcx. induction l as [|a r IH]; [destruct Hin|].
    cbn [map] in ND. inversion ND as [|? ? Ha ND']; subst.
    destruct Hin as [->|Hin], Hx as [->|Hx]; try reflexivity.
    + elim Ha. rewrite <- Hid. now apply in_map.
    + elim Ha. rewrite Hid. now apply in_map.
    + now apply IH.
Qed.

(** X21.  on a durable store that accepts writes, [clearCompleted] leaves
    no complete item; when the ids are pairwise distinct it leaves
    exactly the incomplete items, in order, and returns the number of
    complete ones. *)
Theorem clearCompleted_leaves_incomplete (w : World) :
  refuses_writes (localStorage w) = false ->
  exists n w',
    clearCompleted w = (Return n, w') /\
    Forall (fun t => complete t = false) (todos w') /\
    (NoDup (map id (todos w)) ->
     todos w' = filter (fun t => negb (complete t)) (todos w) /\
     n = List.length (filter complete (todos w))).
Proof.
  intro R. unfold clearCompleted, bind, get.
  destruct (deleteMultipleTodos_run (map id (filter complete (todos w))) w R)
    as (w' & -> & Ht).
  do 2 eexists. split; [reflexivity|]. split.
  - rewrite Ht. apply Forall_forall. intros t Hin.
    apply filter_In in Hin as [Hin Hn]. apply negb_true_iff in Hn.
    destruct (complete t) eqn:Hc; [|reflexivity].
    rewrite (completed_ids (todos w) t Hc Hin) in Hn. discriminate.
  - intro ND. rewrite Ht. split.
    + apply filter_ext_in. intros t Hin.
      now rewrite (unique_id_complete (todos w) ND t Hin).
    + f_equal. apply filter_ext_in. intros t Hin.
      now rewrite (unique_id_complete (todos w) ND t Hin).
Qed.

Lemma clearCompleted_leaves_incomplete_witness :
  exists w',
    clearCompleted one_done_one_open = (Return 1, w') /\
    todos w' = [sample_todo "b" "Call bank" TodoStatus.PENDING false].
Proof.
  destruct (clearCompleted_leaves_incomplete one_done_one_open eq_refl)
    as (n & w' & H & _ & Hn).
  destruct Hn as [Ht Hl].
  - repeat constructor; simpl; intuition discriminate.
  - exists w'. split; [now rewrite H, Hl | exact Ht].
Defined.

(** X22.  on a durable store that accepts writes, [clearAllTodos] empties
    the collection and commits once; the primary key then holds the
    empty array, so a later [loadTodos] starts from the empty
    collection. *)
Theorem clearAllTodos_empties (w : World) :
  refuses_writes (localStorage w) = false ->
  exists w',
    clearAllTodos w = (Return tt, w') /\
    todos w' = [] /\
    primary (localStorage w') = Some [] /\
    trace w' = (commit_events (onTodoListChanged w) [] ++ trace w)%list /\
    forall w2, localStorage w2 = localStorage w' ->
               exists w3, loadTodos w2 = (Return tt, w3) /\ todos w3 = [].
Proof.
  intro R. unfold clearAllTodos, bind, modify, get. cbv beta iota. simpl todos.
  destruct (_commit [] (set_todos [] w)) as [o w'] eqn:C.
  destruct (commit_stores [] (set_todos [] w) o w' R C) as (blob & P & Hi & _).
  apply commit_run in C. simpl in C. rewrite R in C.
  destruct C as [CF [-> Htrace]]. open_frame CF.
  destruct blob; [|discriminate].
  exists w'. split; [reflexivity|]. split; [exact cf_todos|].
  split; [exact P|]. split; [exact Htrace|].
  intros w2 S. unfold loadTodos, try_catch, bind, get, modify.
  rewrite S, P. cbn. eexists. split; reflexivity.
Qed.

Lemma clearAllTodos_empties_witness :
  exists w', clearAllTodos one_pending = (Return tt, w') /\ todos w' = [].
Proof.
  destruct (clearAllTodos_empties one_pending eq_refl) as (w' & H & Ht & _).
  exists w'. split; assumption.
Defined.

(** ** Export and backup *)

(** X23.  [backupTodos] never throws and never touches the collection or
    the primary key: it returns a snapshot of version "1.0" with one
    record per item carrying the id and the content of the item, stores
    it under the backup key when the durable store accepts the write,
    and only logs a warning when it does not. *)
Theorem backupTodos_never_throws (w : World) :
  exists snapshot w',
    backupTodos w = (Return snapshot, w') /\
    todos w' = todos w /\
    primary (localStorage w') = primary (localStorage w) /\
    version snapshot = "1.0" /\
    map j_id (snap_todos snapshot) = map (fun t => Some (id t)) (todos w) /\
    map j_data (snap_todos snapshot) = map stored_data (todos w) /\
    if refuses_writes (localStorage w)
    then localStorage w' = localStorage w /\ trace w' = ConsoleWarn :: trace w
    else backup (localStorage w') = Some snapshot /\
         trace w' = SetItem TodoConstants.BACKUP_KEY :: trace w.
Proof.
  unfold backupTodos, exportTodos. unfold bind at 1. unfold bind at 1.
  unfold new_Date at 1. unfold bind at 1. unfold get at 1. cbn [todos tick].
  unfold bind at 1.
  destruct (JSON_stringify_run (todos w) (tick w))
    as (blob & w1 & -> & Q & Hi & Hd).
  open_quiet Q. simpl in *. unfold ret at 1. unfold bind at 1.
  unfold try_catch, setItem_backup. rewrite qs_storage.
  destruct (refuses_writes (localStorage w)) eqn:R.
  - unfold modify, ret. do 2 eexists. split; [reflexivity|]. simpl.
    rewrite qs_storage, qs_trace. repeat split; assumption.
  - unfold ret. do 2 eexists. split; [reflexivity|]. simpl.
    rewrite qs_trace. repeat split; assumption.
Qed.

(** ** Filtering *)

Lemma filter_keeps_split (f : ITodoFilter) (t : Todo) :
  filter_keeps f t
  = negb (rejects_status f t) && negb (rejects_priority f t)
    && negb (rejects_complete f t) && negb (rejects_tags f t)
    && negb (rejects_dueBefore f t) && negb (rejects_dueAfter f t)
    && negb (rejects_search f t).
Proof.
  unfold filter_keeps, rejects_status, rejects_priority, rejects_complete,
    rejects_tags, rejects_dueBefore, rejects_dueAfter, rejects_search.
  cbv zeta.
  repeat match goal with
         | |- context [if ?b then false else _] => destruct b
         end; reflexivity.
Qed.

Lemma filter_keeps_iff (f : ITodoFilter) (t : Todo) :
  filter_keeps f t = true <->
  meets_status f t /\ meets_priority f t /\ meets_complete f t /\
  meets_tags f t /\ meets_dueBefore f t /\ meets_dueAfter f t /\
  meets_search f t.
Proof.
  rewrite filter_keeps_split, !andb_true_iff, !negb_true_iff.
  assert (H1 : rejects_status f t = false <-> meets_status f t).
  { unfold rejects_status, meets_status. destruct (f_status f) as [st|].
    - rewrite negb_false_iff, includes_In. split.
      + intros H st' E. now injection E as <-.
      + intro H. now apply H.
    - split; [discriminate | reflexivity]. }
  assert (H2 : rejects_priority f t = false <-> meets_priority f t).
  { unfold rejects_priority, meets_priority. destruct (f_priority f) as [pr|].
    - rewrite negb_false_iff, includes_In. split.
      + intros H pr' E. now injection E as <-.
      + intro H. now apply H.
    - split; [discriminate | reflexivity]. }
  assert (H3 : rejects_complete f t = false <-> meets_complete f t).
  { unfold rejects_complete, meets_complete. destruct (f_complete f) as [c|].
    - rewrite negb_false_iff, Bool.eqb_true_iff. split.
      + intros H c' E. now injection E as <-.
      + intro H. now apply H.
    - split; [discriminate | reflexivity]. }
  assert (H4 : rejects_tags f t = false <-> meets_tags f t).
  { unfold rejects_tags, meets_tags. destruct (f_tags f) as [tg|].
    - rewrite negb_false_iff, existsb_exists. split.
      + intros (tag & Hin & Hi) tg' E. injection E as <-.
        exists tag. split; [exact Hin | now apply includes_In].
      + intro H. destruct (H tg eq_refl) as (tag & Hin & Hi).
        exists tag. split; [exact Hin | now apply includes_In].
    - split; [discriminate | reflexivity]. }
  assert (H5 : rejects_dueBefore f t = false <-> meets_dueBefore f t).
  { unfold rejects_dueBefore, meets_dueBefore.
    destruct (f_dueBefore f) as [before|].
    - destruct (dueDate t) as [d|].
      + split.
        * intros H b E. injection E as <-. now exists d.
        * intro H. destruct (H before eq_refl) as (d' & E & Hd).
          now injection E as <-.
      + split; [discriminate|].
        intro H. destruct (H before eq_refl) as (d' & E & _). discriminate.
    - split; [discriminate | reflexivity]. }
  assert (H6 : rejects_dueAfter f t = false <-> meets_dueAfter f t).
  { unfold rejects_dueAfter, meets_dueAfter.
    destruct (f_dueAfter f) as [after|].
    - destruct (dueDate t) as [d|].
      + split.
        * intros H b E. injection E as <-. now exists d.
        * intro H. destruct (H after eq_refl) as (d' & E & Hd).
          now injection E as <-.
      + split; [discriminate|].
        intro H. destruct (H after eq_refl) as (d' & E & _). discriminate.
    - split; [discriminate | reflexivity]. }
  assert (H7 : rejects_search f t = false <-> meets_search f t).
  { unfold rejects_search, meets_search. destruct (f_searchText f) as [q|].
    - rewrite !andb_false_iff, !negb_false_iff, existsb_exists. split.
      + intros H q' E. injection E as <-.
        destruct H as [[H|H]|H]; [now left | right; left | right; right].
        * destruct (description t) as [s|]; [now exists s | discriminate].
        * exact H.
      + intro H. destruct (H q eq_refl) as [H'|[(s & E & H')|H']].
        * now left; left.
        * left; right. now rewrite E.
        * now right.
    - split; [discriminate | reflexivity]. }
  rewrite H1, H2, H3, H4, H5, H6, H7. tauto.
Qed.

(** X24.  [filterTodos] keeps exactly the items that meet every
    criterion present in the filter: status and priority among
    the given values, completion equal to the flag, one of the given
    tags (lower-cased) among the item's tags, a due date that exists
    and is not after [dueBefore] / not before [dueAfter], and the
    lower-cased search text occurring in the lower-cased text or
    description or in a tag. *)
Theorem filterTodos_keeps_matching (l : list Todo) (f : ITodoFilter) (t : Todo) :
  In t (filterTodos l f) <->
  In t l /\
  meets_status f t /\ meets_priority f t /\ meets_complete f t /\
  meets_tags f t /\ meets_dueBefore f t /\ meets_dueAfter f t /\
  meets_search f t.
Proof.
  unfold filterTodos. rewrite filter_In, filter_keeps_iff. reflexivity.
Qed.



(** ** Maps and groups *)

Lemma Map_get_set {V} (k k0 : string) (v : V) (m : list (string * V)) :
  Map_get k (Map_set k0 v m) = if k0 =? k then Some v else Map_get k m.
Proof.
  induction m as [|[k' v'] r IH]; simpl.
  - reflexivity.
  - destruct (k' =? k0) eqn:E; simpl.
    + apply String.eqb_eq in E. subst k'.
      destruct (k0 =? k); reflexivity.
    + rewrite IH. destruct (k' =? k) eqn:E'; [|reflexivity].
      apply String.eqb_eq in E'. subst k'. now rewrite String.eqb_sym, E.
Qed.

Lemma find_last {A} (p : A -> bool) (l : list A) (a : A) :
  find p (l ++ [a])%list
  = match find p l with
    | Some x => Some x
    | None => if p a then Some a else None
    end.
Proof.
  induction l as [|x r IH]; simpl.
  - reflexivity.
  - destruct (p x); [reflexivity | exact IH].
Qed.

Lemma Map_get_fold (k : string) (l : list Todo) :
  forall m : list (string * Todo),
  Map_get k (fold_left (fun m kv => Map_set (fst kv) (snd kv) m)
                       (map (fun todo => (id todo, todo)) l) m)
  = match find (fun todo => id todo =? k) (rev l) with
    | Some t => Some t
    | None => Map_get k m
    end.
Proof.
  induction l as [|t r IH]; intro m; simpl.
  - reflexivity.
  - rewrite IH, find_last, Map_get_set.
    destruct (find (fun todo => id todo =? k) (rev r)); [reflexivity|].
    destruct (id t =? k); reflexivity.
Qed.

Lemma find_absent (k : string) (l : list Todo) :
  ~ In k (map id l) -> find (fun todo => id todo =? k) l = None.
Proof.
  induction l as [|t r IH]; simpl; intro H; [reflexivity|].
  destruct (id t =? k) eqn:E.
  - apply String.eqb_eq in E. tauto.
  - apply IH. tauto.
Qed.

Lemma find_rev_unique (k : string) (l : list Todo) :
  NoDup (map id l) ->
  find (fun todo => id todo =? k) (rev l) = find (fun todo => id todo =? k) l.
Proof.
  induction l as [|t r IH]; simpl; intro ND; [reflexivity|].
  inversion ND as [|? ? Hn ND']; subst.
  rewrite find_last, (IH ND').
  destruct (id t =? k) eqn:E.
  - apply String.eqb_eq in E. subst k. now rewrite (find_absent _ _ Hn).
  - destruct (find (fun todo => id todo =? k) r); reflexivity.
Qed.

(** X26.  looking an id up in the map built by [toMap] gives the last
    item of the collection that carries this id (a later entry of
    [new Map] replaces an earlier one with the same key), and nothing
    when no item carries it. *)
Theorem toMap_last_wins (l : list Todo) (k : string) :
  Map_get k (toMap l) = findTodoById (rev l) k.
Proof.
  unfold toMap, Map_of, findTodoById. rewrite Map_get_fold.
  destruct (find (fun todo => id todo =? k) (rev l)); reflexivity.
Qed.

(** X27.  on a collection whose ids are pairwise distinct, looking an id
    up in [toMap] and [findTodoById] give the same answer. *)
Theorem toMap_agrees_with_findTodoById (l : list Todo) (k : string) :
  NoDup (map id l) ->
  Map_get k (toMap l) = findTodoById l k.
Proof.
  intro ND. unfold toMap, Map_of, findTodoById.
  rewrite Map_get_fold, (find_rev_unique _ _ ND).
  destruct (find (fun todo => id todo =? k) l); reflexivity.
Qed.

Lemma toMap_agrees_with_findTodoById_witness :
  Map_get "b" (toMap (todos two_pending))
  = findTodoById (todos two_pending) "b".
Proof.
  apply toMap_agrees_with_findTodoById.
  repeat constructor; simpl; intuition discriminate.
Defined.

Lemma Map_get_group_push (k k0 : string) (t : Todo)
      (g : list (string * list Todo)) :
  Map_get k (group_push k0 t g)
  = if k0 =? k
    then Some (match Map_get k g with
               | Some x => (x ++ [t])%list
               | None => [t]
               end)
    else Map_get k g.
Proof.
  induction g as [|[k' x] r IH]; simpl.
  - reflexivity.
  - destruct (k' =? k0) eqn:E; simpl.
    + apply String.eqb_eq in E. subst k'.
      destruct (k0 =? k); reflexivity.
    + rewrite IH. destruct (k' =? k) eqn:E'; [|reflexivity].
      apply String.eqb_eq in E'. subst k'. now rewrite String.eqb_sym, E.
Qed.

Lemma Map_get_group_fold (field : Todo -> string) (k : string) (l : list Todo) :
  forall g : list (string * list Todo),
  Map_get k (fold_left (fun groups todo => group_push (field todo) todo groups)
                       l g)
  = match Map_get k g with
    | Some x => Some (x ++ filter (fun t => field t =? k) l)%list
    | None => if existsb (fun t => field t =? k) l
              then Some (filter (fun t => field t =? k) l)
              else None
    end.
Proof.
  induction l as [|t r IH]; intro g; simpl.
  - destruct (Map_get k g); [now rewrite app_nil_r | reflexivity].
  - rewrite IH, Map_get_group_push.
    destruct (field t =? k); simpl.
    + destruct (Map_get k g); [now rewrite <- app_assoc | reflexivity].
    + reflexivity.
Qed.

Lemma group_push_keys (k : string) (t : Todo) (g : list (string * list Todo)) :
  NoDup (map fst g) -> NoDup (map fst (group_push k t g)) /\
                       (forall x, In x (map fst (group_push k t g))
                                  -> x = k \/ In x (map fst g)).
Proof.
  induction g as [|[k' x] r IH]; simpl; intro ND.
  - split.
    + constructor; [simpl; tauto | constructor].
    + intros y [<-|[]]. now left.
  - inversion ND as [|? ? Hn ND']; subst.
    destruct (k' =? k) eqn:E; simpl.
    + split; [now constructor | tauto].
    + destruct (IH ND') as [N1 N2]. split.
      * constructor; [|exact N1]. intro H. destruct (N2 _ H) as [->|H'].
        -- now rewrite String.eqb_refl in E.
        -- tauto.
      * intros y [->|H]; [tauto|]. destruct (N2 _ H); tauto.
Qed.

Lemma group_fold_keys (field : Todo -> string) (l : list Todo) :
  forall g : list (string * list Todo),
  NoDup (map fst g) ->
  NoDup (map fst (fold_left
                    (fun groups todo => group_push (field todo) todo groups)
                    l g)).
Proof.
  induction l as [|t r IH]; intros g ND; simpl; [exact ND|].
  apply IH. now apply group_push_keys.
Qed.

(** X28.  [groupTodos] partitions the collection by the value of the
    field: the group of a value holds exactly the items with this
    value, in the order of the collection; a value that no item has has
    no group; and no value has two groups. *)
Theorem groupTodos_partitions (l : list Todo) (field : Todo -> string)
        (k : string) :
  Map_get k (groupTodos l field)
  = (if existsb (fun t => field t =? k) l
     then Some (filter (fun t => field t =? k) l)
     else None)
  /\ NoDup (map fst (groupTodos l field)).
Proof.
  unfold groupTodos. split.
  - now rewrite Map_get_group_fold.
  - apply group_fold_keys. constructor.
Qed.

(** ** Counting by priority *)

(** X29.  the service's [getPriorityDistribution] and the per-priority
    counts of [getTodoStatistics] agree on every collection, and
    [getPriorityDistribution] changes nothing. *)
Theorem getPriorityDistribution_agrees_with_statistics (w : World) :
  exists s w',
    getTodoStatistics (todos w) w = (Return s, w') /\
    getPriorityDistribution w = (Return (byPriority s), w).
Proof.
  unfold getTodoStatistics.
  destruct (foldM_count_todo (todos w)
              (mkStatistics (List.length (todos w)) 0 0 0
                            (mkStatusCounts 0 0 0) (mkPriorityCounts 0 0 0 0))
              w) as (s & w' & E & C).
  exists s, w'. split; [exact E|].
  destruct C as [_ _ _ _ _ _ _ Hl Hm Hh Hc].
  cbn in Hl, Hm, Hh, Hc.
  unfold getPriorityDistribution, bind, get, ret.
  apply (f_equal2 pair); [|reflexivity]. f_equal.
  destruct (byPriority s) as [a b c d]. cbn in Hl, Hm, Hh, Hc.
  unfold has_priority in *. now rewrite Hl, Hm, Hh, Hc.
Qed.

(** ** Searching *)

Lemma toLowerCase_truthy (s : string) :
  JsString.truthy (JsString.toLowerCase s) = JsString.truthy s.
Proof. destruct s; reflexivity. Qed.

Lemma str_includes_empty (p : string) :
  JsString.truthy p = true -> str_includes "" p = false.
Proof. destruct p; [discriminate | reflexivity]. Qed.

(** X30.  [searchTodos] with a blank query returns the whole collection;
    with any other query it returns what [findTodos] returns for the
    filter [{searchText: query.trim()}], provided the tags of the
    stored items are in lower case (as the constructor leaves them). *)
Theorem searchTodos_is_findTodos (query : string) (w : World) :
  Forall (fun t => Forall (fun tag => JsString.toLowerCase tag = tag) (tags t))
         (todos w) ->
  searchTodos query w
  = (if JsString.truthy (JsString.trim query)
     then findTodos (search_filter (JsString.trim query)) w
     else (Return (todos w), w)).
Proof.
  intro H. unfold searchTodos, findTodos, bind, get, ret.
  destruct (JsString.truthy (JsString.trim query)) eqn:T; cbn [negb];
    [|reflexivity].
  apply (f_equal2 pair); [|reflexivity]. f_equal.
  unfold filterTodos. apply filter_ext_in.
  intros t Hin. rewrite filter_keeps_split.
  unfold rejects_status, rejects_priority, rejects_complete, rejects_tags,
    rejects_dueBefore, rejects_dueAfter, rejects_search.
  cbn [search_filter f_status f_priority f_complete f_tags f_dueBefore
       f_dueAfter f_searchText negb andb].
  rewrite trim_toLowerCase, !negb_andb, !negb_involutive.
  assert (Tl : JsString.truthy (JsString.toLowerCase (JsString.trim query)) = true)
    by now rewrite toLowerCase_truthy.
  f_equal; [f_equal|].
  - destruct (description t) as [s|]; [|reflexivity].
    destruct s as [|c s]; [|reflexivity].
    cbn [JsString.truthy andb JsString.toLowerCase].
    now rewrite (str_includes_empty _ Tl).
  - rewrite Forall_forall in H. specialize (H t Hin).
    induction (tags t) as [|tag r IH]; [reflexivity|].
    inversion H as [|? ? Ht Hr]; subst. cbn [existsb].
    now rewrite Ht, (IH Hr).
Qed.

Lemma searchTodos_is_findTodos_witness :
  searchTodos " MILK " one_pending
  = findTodos (search_filter "MILK") one_pending.
Proof.
  apply (searchTodos_is_findTodos " MILK " one_pending).
  repeat constructor.
Defined.
